(** * serverless-image-pipeline: a shallow embedding of the Lambda code

    The development follows the two modules of the repository:

    - [image_utils.py]: [parse_sizes], [derive_output_key], [process_image];
    - [handler.py]: [lambda_handler].

    Python values are embedded as they occur in the code: [str] as [string]
    (code points 0..255; the one literal of the source with a character
    beyond them, the format of the warning of [parse_sizes], is kept as its
    UTF-8 text), [int] as [Z], [float] as IEEE-754 binary64 through
    the Standard Library's [SpecFloat], the JSON-shaped event as [pyval].
    Exceptions are explicit ([result]); the calls to S3, SQS, Pillow, the
    metrics logger and the clock are answered by an environment record and
    recorded in a trace, so that statements about "what was called" are
    statements about that trace. *)

From Stdlib Require Import ZArith String Ascii List Lia Bool.
From Stdlib Require Import DecimalString DecimalZ Strings.Byte.
From Stdlib Require Import Floats.SpecFloat.
From stdpp Require Import base list gmap strings sorting.

#[local] Set Warnings "-register-all".
#[local] Open Scope string_scope.
#[local] Open Scope list_scope.
#[local] Open Scope Z_scope.

(** ** Exceptions and results *)

(** A raised Python exception: its class name and [str(exc)]. Only
    instances of [Exception] are modelled (everything the collaborators and
    the built-ins used here raise). *)
Record exn : Type := Exn { exn_class : string; exn_text : string }.

Inductive result (A : Type) : Type :=
| Ok (a : A)
| Raise (e : exn).
Arguments Ok {A} a.
Arguments Raise {A} e.

Definition is_ok {A : Type} (r : result A) : bool :=
  match r with Ok _ => true | Raise _ => false end.

Definition ValueError (msg : string) : exn := Exn "ValueError" msg.
Definition TypeError (msg : string) : exn := Exn "TypeError" msg.
Definition AttributeError (msg : string) : exn := Exn "AttributeError" msg.
Definition OverflowError (msg : string) : exn := Exn "OverflowError" msg.
Definition ZeroDivisionError (msg : string) : exn := Exn "ZeroDivisionError" msg.

(** [isinstance(e, ValueError)] for the exceptions of this model. *)
Definition is_ValueError (e : exn) : bool := String.eqb (exn_class e) "ValueError".

(** ** Python strings *)

Definition code (c : ascii) : N := N_of_ascii c.

(** [str.isspace] on one character, for code points below 256. *)
Definition py_isspace (c : ascii) : bool :=
  let n := code c in
  ((9 <=? n) && (n <=? 13) || (28 <=? n) && (n <=? 32) || (n =? 133) || (n =? 160))%N.

(** The white space [int()] skips around a literal: the C white space and,
    above 127, the Unicode spaces (which [int] first rewrites to blanks). *)
Definition int_isspace (c : ascii) : bool :=
  let n := code c in
  ((9 <=? n) && (n <=? 13) || (n =? 32) || (n =? 133) || (n =? 160))%N.

Definition is_digit (c : ascii) : bool :=
  let n := code c in ((48 <=? n) && (n <=? 57))%N.

Definition digit_value (c : ascii) : Z := Z.of_N (code c) - 48.

Definition is_empty (s : string) : bool :=
  match s with EmptyString => true | String _ _ => false end.

Fixpoint lstrip_by (sp : ascii -> bool) (s : string) : string :=
  match s with
  | EmptyString => EmptyString
  | String c s' => if sp c then lstrip_by sp s' else s
  end.

Fixpoint rstrip_by (sp : ascii -> bool) (s : string) : string :=
  match s with
  | EmptyString => EmptyString
  | String c s' =>
      let r := rstrip_by sp s' in
      if is_empty r && sp c then EmptyString else String c r
  end.

(** [s.strip()] *)
Definition strip (s : string) : string := rstrip_by py_isspace (lstrip_by py_isspace s).

(** [s.split(sep)] for a one-character separator: never the empty list. *)
Fixpoint split (sep : ascii) (s : string) : list string :=
  match s with
  | EmptyString => [EmptyString]
  | String c s' =>
      if Ascii.eqb c sep then EmptyString :: split sep s'
      else match split sep s' with
           | [] => [String c EmptyString]
           | t :: ts => String c t :: ts
           end
  end.

(** The cut at the last separator, when there is one. *)
Fixpoint rcut (sep : ascii) (s : string) : option (string * string) :=
  match s with
  | EmptyString => None
  | String c s' =>
      match rcut sep s' with
      | Some (p, f) => Some (String c p, f)
      | None => if Ascii.eqb c sep then Some (EmptyString, s') else None
      end
  end.

(** [s.rsplit(sep, 1)] for a one-character separator. *)
Definition rsplit1 (sep : ascii) (s : string) : list string :=
  match rcut sep s with
  | Some (p, f) => [p; f]
  | None => [s]
  end.

(** [sep in s] for a one-character [sep]. *)
Fixpoint contains (sep : ascii) (s : string) : bool :=
  match s with
  | EmptyString => false
  | String c s' => Ascii.eqb c sep || contains sep s'
  end.

(** The decimal text of an [int]: what [str(n)] and [f"{n}"] give when they
    return (see [py_str_int] for the digit limit). *)
Definition str_of_int (n : Z) : string := NilZero.string_of_int (Z.to_int n).

(** ** [int(str)]

    A decimal literal is an optional sign and digits, single underscores
    allowed between digits, white space allowed around the whole. The
    interpreter's limit on the number of digits ([sys.get_int_max_str_digits()],
    0 for none) is a parameter: beyond it [int] raises [ValueError] too. *)

Fixpoint parse_digits (s : string) (acc : Z) (after_digit : bool) : option Z :=
  match s with
  | EmptyString => if after_digit then Some acc else None
  | String c s' =>
      if is_digit c then parse_digits s' (10 * acc + digit_value c) true
      else if Ascii.eqb c "_" then
        (if after_digit then parse_digits s' acc false else None)
      else None
  end.

Fixpoint count_digits (s : string) : nat :=
  match s with
  | EmptyString => O
  | String c s' => if is_digit c then S (count_digits s') else count_digits s'
  end.

Definition parse_literal (s : string) : option Z :=
  match s with
  | String "+" s' => parse_digits s' 0 false
  | String "-" s' => option_map Z.opp (parse_digits s' 0 false)
  | _ => parse_digits s 0 false
  end.

Definition invalid_literal (s : string) : exn :=
  ValueError ("invalid literal for int() with base 10: " +:+ s).

Definition py_int_str (int_max_str_digits : nat) (s : string) : result Z :=
  let lit := rstrip_by int_isspace (lstrip_by int_isspace s) in
  match parse_literal lit with
  | None => Raise (invalid_literal s)
  | Some n =>
      if negb (Nat.eqb int_max_str_digits 0) && Nat.ltb int_max_str_digits (count_digits lit)
      then Raise (ValueError "Exceeds the limit for integer string conversion")
      else Ok n
  end.

(** [str(n)] and [f"{n}"] for an [int]: the conversion obeys the same limit
    on the number of digits, the sign not counted, and raises [ValueError]
    above it. *)
Definition exceeds_limit (int_max_str_digits : nat) : exn :=
  ValueError ("Exceeds the limit (" +:+ str_of_int (Z.of_nat int_max_str_digits) +:+
              " digits) for integer string conversion; " +:+
              "use sys.set_int_max_str_digits() to increase the limit").

Definition py_str_int (int_max_str_digits : nat) (n : Z) : result string :=
  let text := str_of_int n in
  if negb (Nat.eqb int_max_str_digits 0) && Nat.ltb int_max_str_digits (count_digits text)
  then Raise (exceeds_limit int_max_str_digits)
  else Ok text.

(** ** Python values of the event

    The event is what [json.loads] produces: [None], booleans, numbers,
    strings, lists and dictionaries (in insertion order). *)

Inductive pyval : Type :=
| PNone
| PBool (b : bool)
| PInt (n : Z)
| PFloat (f : spec_float)
| PStr (s : string)
| PList (l : list pyval)
| PDict (d : list (string * pyval)).

(** Truth value of a Python object ([if x], [not x]). *)
Definition truthy (v : pyval) : bool :=
  match v with
  | PNone => false
  | PBool b => b
  | PInt n => negb (n =? 0)
  | PFloat (S754_zero _) => false
  | PFloat _ => true
  | PStr s => negb (is_empty s)
  | PList [] => false
  | PList (_ :: _) => true
  | PDict [] => false
  | PDict (_ :: _) => true
  end.

Fixpoint assoc (k : string) (d : list (string * pyval)) : option pyval :=
  match d with
  | [] => None
  | (k', v) :: d' => if String.eqb k k' then Some v else assoc k d'
  end.

Definition type_name (v : pyval) : string :=
  match v with
  | PNone => "NoneType" | PBool _ => "bool" | PInt _ => "int" | PFloat _ => "float"
  | PStr _ => "str" | PList _ => "list" | PDict _ => "dict"
  end.

Definition no_attribute (v : pyval) (attr : string) : exn :=
  AttributeError ("'" ++ type_name v ++ "' object has no attribute '" ++ attr ++ "'").

(** [v.get(k, default)]: only dictionaries have the method. *)
Definition py_get (v : pyval) (k : string) (default : pyval) : result pyval :=
  match v with
  | PDict d => Ok (match assoc k d with Some x => x | None => default end)
  | _ => Raise (no_attribute v "get")
  end.

Fixpoint chars (s : string) : list pyval :=
  match s with
  | EmptyString => []
  | String c s' => PStr (String c EmptyString) :: chars s'
  end.

(** The items [for x in v] visits. *)
Definition py_iter (v : pyval) : result (list pyval) :=
  match v with
  | PList l => Ok l
  | PDict d => Ok (map (fun kv => PStr (fst kv)) d)
  | PStr s => Ok (chars s)
  | _ => Raise (TypeError ("'" +:+ type_name v +:+ "' object is not iterable"))
  end.

(** ** The trace of calls and the computation monad *)

Inductive log_level : Type := INFO | WARNING | ERROR | EXCEPTION.

Inductive event : Type :=
| EvLog (level : log_level) (fmt : string) (args : list pyval)
| EvLogJson (level : log_level) (payload : pyval)
| EvPerfCounter
| EvGetObject (bucket key : pyval) (ok : bool)
| EvImageOpen (ok : bool)
| EvResize (width height : Z) (ok : bool)
| EvSave (quality : Z) (ok : bool)
| EvPutObject (bucket : option string) (key : string) (content_type : string)
    (metadata : list (string * pyval)) (ok : bool)
| EvSendMessage (queue_url : string) (body : pyval) (ok : bool)
| EvSetNamespace (ns : string)
| EvPutDimensions (dims : list (string * pyval))
| EvPutMetric (name : string) (value : Z) (unit_name : string) (ok : bool).

Definition trace : Type := list event.

(** Computations over a state [S] that either return or raise. *)
Definition M (S A : Type) : Type := S -> result A * S.

Definition ret {S A : Type} (a : A) : M S A := fun s => (Ok a, s).

Definition raise {S A : Type} (e : exn) : M S A := fun s => (Raise e, s).

Definition bind {S A B : Type} (m : M S A) (k : A -> M S B) : M S B :=
  fun s =>
    match m s with
    | (Ok a, s') => k a s'
    | (Raise e, s') => (Raise e, s')
    end.

Definition lift {S A : Type} (r : result A) : M S A := fun s => (r, s).

(** [try: body / except <catches> as e: handler e] *)
Definition try_except {S A : Type} (body : M S A) (catches : exn -> bool)
    (handler : exn -> M S A) : M S A :=
  fun s =>
    match body s with
    | (Ok a, s') => (Ok a, s')
    | (Raise e, s') => if catches e then handler e s' else (Raise e, s')
    end.

(** [for x in xs: acc = body acc x]; an exception leaves the loop. *)
Fixpoint for_loop {S X Acc : Type} (xs : list X) (body : Acc -> X -> M S Acc)
    (acc : Acc) : M S Acc :=
  match xs with
  | [] => ret acc
  | x :: xs' => bind (body acc x) (for_loop xs' body)
  end.

#[global] Instance M_ret {S : Type} : MRet (M S) := @ret S.
#[global] Instance M_bind {S : Type} : MBind (M S) := fun A B k m => @bind S A B m k.

Definition emit (e : event) : M trace unit := fun tr => (Ok tt, tr ++ [e]).

(** ** image_utils.parse_sizes *)

(** [sorted(set(xs))] on integers. *)
Definition sorted_set (xs : list Z) : list Z :=
  merge_sort Z.le (elements (list_to_set xs : gset Z)).

Definition parse_sizes (int_max_str_digits : nat) (sizes_str : string) : M trace (list Z) :=
  sizes ← for_loop (split "," sizes_str)
    (fun (sizes : list Z) (part : string) =>
       let part := strip part in
       if is_empty part then mret sizes
       else
         try_except
           (size ← lift (py_int_str int_max_str_digits part);
            if 0 <? size then mret (sizes ++ [size]) else mret sizes)
           is_ValueError
           (fun _ =>
              emit (EvLog WARNING "Ignoring non‑integer thumbnail size '%s'" [PStr part]);;
              mret sizes))
    [];
  mret (sorted_set sizes).

(** ** image_utils.derive_output_key *)

#[global] Instance result_ret : MRet result := @Ok.
#[global] Instance result_bind : MBind result :=
  fun A B k r => match r with Ok a => k a | Raise e => Raise e end.

(** The f-strings of lines 179 and 181 format [width] as [str] does, under
    the interpreter's digit limit. *)
Definition derive_output_key (int_max_str_digits : nat) (src_key : string) (width : Z) :
    result string :=
  if contains "/" src_key then
    match rsplit1 "/" src_key with
    | [prefix; filename] =>
        match split "." filename with
        | base :: _ =>
            width_text ← py_str_int int_max_str_digits width;
            Ok (prefix +:+ "/" +:+ base +:+ "_" +:+ width_text +:+ "w.webp")
        | [] => Raise (ValueError "not enough values to unpack (expected at least 1, got 0)")
        end
    | _ => Raise (ValueError "not enough values to unpack (expected 2, got 1)")
    end
  else
    match split "." src_key with
    | base :: _ =>
        width_text ← py_str_int int_max_str_digits width;
        Ok (base +:+ "_" +:+ width_text +:+ "w.webp")
    | [] => Raise (ValueError "not enough values to unpack (expected at least 1, got 0)")
    end.

(** [sep in v] for a string [sep]: a substring test on a [str] (here for a
    one-character [sep]), membership in a list, key membership in a
    dictionary, and a [TypeError] on the other objects. *)
Definition is_str (s : string) (v : pyval) : bool :=
  match v with
  | PStr s' => String.eqb s s'
  | _ => false
  end.

Definition py_in (sep : ascii) (v : pyval) : result bool :=
  match v with
  | PStr s => Ok (contains sep s)
  | PList l => Ok (existsb (is_str (String sep EmptyString)) l)
  | PDict d => Ok (existsb (fun kv => String.eqb (String sep EmptyString) (fst kv)) d)
  | _ => Raise (TypeError ("argument of type '" +:+ type_name v +:+ "' is not iterable"))
  end.

(** The same call when the argument need not be a [str], as the handler
    may make it: [in] is answered by [py_in], and [rsplit] and [split] exist
    on strings only. *)
Definition derive_output_key_dyn (int_max_str_digits : nat) (src_key : pyval) (width : Z) :
    result string :=
  match src_key with
  | PStr s => derive_output_key int_max_str_digits s width
  | _ =>
      has_slash ← py_in "/" src_key;
      Raise (no_attribute src_key (if has_slash : bool then "rsplit" else "split"))
  end.

(** ** Floating point: IEEE-754 binary64 *)

Definition float_mul : spec_float -> spec_float -> spec_float := SFmul 53 1024.
Definition float_sub : spec_float -> spec_float -> spec_float := SFsub 53 1024.

(** [float(n)] for an [int]: the nearest double, ties to even. *)
Definition float_of_int (n : Z) : result spec_float :=
  match binary_normalize 53 1024 n 0 false with
  | S754_infinity _ => Raise (OverflowError "int too large to convert to float")
  | f => Ok f
  end.

(** [a / b] on floats. *)
Definition float_truediv (a b : spec_float) : result spec_float :=
  match b with
  | S754_zero _ => Raise (ZeroDivisionError "float division by zero")
  | _ => Ok (SFdiv 53 1024 a b)
  end.

(** [int(x)] for a float: truncation toward zero. *)
Definition int_of_float (x : spec_float) : result Z :=
  match x with
  | S754_zero _ => Ok 0
  | S754_nan => Raise (ValueError "cannot convert float NaN to integer")
  | S754_infinity _ => Raise (OverflowError "cannot convert float infinity to integer")
  | S754_finite s m e =>
      let a := match e with
               | Zneg p => Z.shiftr (Zpos m) (Zpos p)
               | _ => Z.shiftl (Zpos m) e
               end in
      Ok (if s then - a else a)
  end.

(** [int(v)] *)
Definition py_int (int_max_str_digits : nat) (v : pyval) : result Z :=
  match v with
  | PInt n => Ok n
  | PBool b => Ok (if b then 1 else 0)
  | PFloat f => int_of_float f
  | PStr s => py_int_str int_max_str_digits s
  | _ => Raise (TypeError ("int() argument must be a string, a bytes-like object or a real number, not '"
                           +:+ type_name v +:+ "'"))
  end.

(** Lines 109-112 of [process_image]:
    [try: quality_int = int(quality) / except Exception: quality_int = 85]. *)
Definition coerce_quality (int_max_str_digits : nat) (quality : pyval) : Z :=
  match py_int int_max_str_digits quality with
  | Ok quality_int => quality_int
  | Raise _ => 85
  end.

(** Lines 124-125 of [process_image]:
    [ratio = width / float(img.width); height = int(img.height * ratio)]. *)
Definition scaled_height (img_width img_height width : Z) : result Z :=
  fw ← float_of_int img_width;
  w ← float_of_int width;
  ratio ← float_truediv w fw;
  h ← float_of_int img_height;
  int_of_float (float_mul h ratio).

(** [int((stop - start) * 1000)] on two clock readings. *)
Definition elapsed_ms (start stop : spec_float) : result Z :=
  int_of_float (float_mul (float_sub stop start) (binary_normalize 53 1024 1000 0 false)).

(** ** The collaborators *)

Definition bytes : Type := list Byte.byte.

(** A decoded Pillow image: its size and its content. *)
Record image : Type := Image { img_width : Z; img_height : Z; img_pixels : list N }.

(** What [process_image] returns. *)
Record processing_result : Type := ProcessingResult {
  sizes : list Z;
  input_size : Z;
  output_size : Z;
  duration_ms : Z
}.

(** The module-level configuration of [handler.py], read from the
    process environment. *)
Record config : Type := Config {
  OUTPUT_BUCKET : option string;
  THUMB_SIZES : string;
  WEBP_QUALITY : string;
  DLQ_URL : option string
}.

(** Lines 43-46 of [handler.py]: the configuration as [os.environ.get]
    reads it, with the defaults of the two optional settings. *)
Definition config_of_environ (environ : gmap string string) : config := {|
  OUTPUT_BUCKET := environ !! "OUTPUT_BUCKET";
  THUMB_SIZES := default "128,512" (environ !! "THUMB_SIZES");
  WEBP_QUALITY := default "85" (environ !! "WEBP_QUALITY");
  DLQ_URL := environ !! "DLQ_URL"
|}.

(** Lines 77-79 of [lambda_handler]: the bucket name and the object key
    of one record, [None] where the last [get] finds nothing. *)
Definition bucket_and_key (record : pyval) : result (pyval * pyval) :=
  s3_info ← py_get record "s3" (PDict []);
  bucket_info ← py_get s3_info "bucket" (PDict []);
  bucket ← py_get bucket_info "name" PNone;
  object_info ← py_get s3_info "object" (PDict []);
  key ← py_get object_info "key" PNone;
  mret (bucket, key).

Section Pipeline.

(** The world outside the function and the answers of its collaborators:
    each call reads and may change the world, and returns or raises. *)
Variable World : Type.

Record env : Type := Env {
  int_max_str_digits : nat;
  perf_counter : World -> spec_float * World;
  s3_get_object : pyval -> pyval -> World -> result bytes * World;
  image_open : bytes -> World -> result image * World;
  image_resize : image -> Z -> Z -> World -> result image * World;
  image_save_webp : image -> Z -> World -> result bytes * World;
  s3_put_object : option string -> string -> bytes -> string -> list (string * pyval) ->
                  World -> result unit * World;
  sqs_send_message : string -> pyval -> World -> result unit * World;
  metrics_put_metric : string -> Z -> string -> World -> result unit * World
}.

Variable E : env.

Record state : Type := State { world : World; events : trace }.

Definition tell (e : event) : M state unit :=
  fun st => (Ok tt, {| world := world st; events := events st ++ [e] |}).

(** Run a computation that only logs. *)
Definition with_trace {A : Type} (m : M trace A) : M state A :=
  fun st => let '(r, tr) := m (events st) in (r, {| world := world st; events := tr |}).

(** Call a collaborator and record the call with its outcome. *)
Definition call {A : Type} (f : World -> result A * World) (ev : bool -> event) : M state A :=
  fun st =>
    let '(r, w') := f (world st) in
    (r, {| world := w'; events := events st ++ [ev (is_ok r)] |}).

Definition any_exception (e : exn) : bool := true.

Definition len {A : Type} (l : list A) : Z := Z.of_nat (length l).

(** ** image_utils.process_image *)

(** The body of [for width in sizes], on the two accumulators. *)
Definition process_width (img : image) (object_key : pyval) (output_bucket : option string)
    (quality_int : Z) (acc : Z * list Z) (width : Z) : M state (Z * list Z) :=
  let '(output_size_total, generated_sizes) := acc in
  if img_width img <=? width then
    tell (EvLog INFO "Skipping upscale for %s (original width %d <= target %d)"
           [object_key; PInt (img_width img); PInt width]);;
    mret (output_size_total, generated_sizes)
  else
    height ← lift (scaled_height (img_width img) (img_height img) width);
    resized ← call (image_resize E img width height) (EvResize width height);
    data ← call (image_save_webp E resized quality_int) (EvSave quality_int);
    let output_size_total := output_size_total + len data in
    dest_key ← lift (derive_output_key_dyn (int_max_str_digits E) object_key width);
    try_except
      (size ← lift (py_str_int (int_max_str_digits E) width);
       let metadata := [("source", object_key); ("size", PStr size)] in
       call (s3_put_object E output_bucket dest_key data "image/webp" metadata)
         (EvPutObject output_bucket dest_key "image/webp" metadata);;
       mret (output_size_total, generated_sizes ++ [width]))
      any_exception
      (fun exc =>
         tell (EvLog ERROR "Failed to upload thumbnail %s: %s" [PStr dest_key; PStr (exn_text exc)]);;
         raise exc).

Definition process_image (input_bucket object_key : pyval) (output_bucket : option string)
    (sizes_str : string) (quality : pyval) : M state processing_result :=
  start ← call (fun w => let '(t, w') := perf_counter E w in (Ok t, w')) (fun _ => EvPerfCounter);
  body ← try_except
    (call (s3_get_object E input_bucket object_key) (EvGetObject input_bucket object_key))
    any_exception
    (fun exc =>
       tell (EvLog ERROR "Failed to download object %s/%s: %s"
              [input_bucket; object_key; PStr (exn_text exc)]);;
       raise exc);
  let input_size := len body in
  img ← try_except
    (call (image_open E body) EvImageOpen)
    any_exception
    (fun exc =>
       tell (EvLog ERROR "Unsupported or corrupt image file %s/%s: %s"
              [input_bucket; object_key; PStr (exn_text exc)]);;
       raise exc);
  let quality_int := coerce_quality (int_max_str_digits E) quality in
  sizes ← with_trace (parse_sizes (int_max_str_digits E) sizes_str);
  totals ← for_loop sizes (process_width img object_key output_bucket quality_int) (0, []);
  let '(output_size_total, generated_sizes) := totals in
  stop ← call (fun w => let '(t, w') := perf_counter E w in (Ok t, w')) (fun _ => EvPerfCounter);
  duration_ms ← lift (elapsed_ms start stop);
  mret {| sizes := generated_sizes; input_size := input_size;
          output_size := output_size_total; duration_ms := duration_ms |}.

(** ** handler.lambda_handler *)

Definition is_configured (url : option string) : bool :=
  match url with
  | Some u => negb (is_empty u)
  | None => false
  end.

Definition put_metric (name : string) (value : Z) (unit_name : string) : M state unit :=
  call (metrics_put_metric E name value unit_name) (EvPutMetric name value unit_name).

(** The [try] block of one record. *)
Definition process_record (cfg : config) (bucket key : pyval) : M state unit :=
  result ← process_image bucket key (OUTPUT_BUCKET cfg) (THUMB_SIZES cfg) (PStr (WEBP_QUALITY cfg));
  put_metric "thumbnails_count" (len (sizes result)) "Count";;
  put_metric "duration_ms" (duration_ms result) "Milliseconds";;
  put_metric "size_in_bytes" (input_size result) "Bytes";;
  put_metric "size_out_bytes" (output_size result) "Bytes";;
  tell (EvLogJson INFO (PDict [("action", PStr "complete"); ("bucket", bucket); ("key", key);
                              ("thumbnails", PList (map PInt (sizes result)))])).

Definition failure_notice (bucket key : pyval) (exc : exn) : pyval :=
  PDict [("bucket", bucket); ("key", key); ("error", PStr (exn_text exc))].

(** The [except Exception as exc] block of one record. *)
Definition on_failure (cfg : config) (bucket key : pyval) (exc : exn) : M state unit :=
  tell (EvLogJson EXCEPTION (PDict [("action", PStr "error"); ("bucket", bucket); ("key", key);
                                   ("error", PStr (exn_text exc))]));;
  (if is_configured (DLQ_URL cfg) then
     let url := default "" (DLQ_URL cfg) in
     try_except
       (call (sqs_send_message E url (failure_notice bucket key exc))
          (EvSendMessage url (failure_notice bucket key exc));;
        tell (EvLogJson INFO (PDict [("action", PStr "sent_to_dlq"); ("bucket", bucket); ("key", key)])))
       any_exception
       (fun dlq_exc =>
          tell (EvLogJson ERROR (PDict [("action", PStr "dlq_failed"); ("bucket", bucket);
                                       ("key", key); ("error", PStr (exn_text dlq_exc))])))
   else mret tt);;
  raise exc.

(** The body of [for record in records]. *)
Definition handle_record (cfg : config) (record : pyval) : M state unit :=
  target ← lift (bucket_and_key record);
  let '(bucket, key) := target in
  if negb (truthy bucket) || negb (truthy key) then
    tell (EvLogJson ERROR (PDict [("error", PStr "Malformed S3 event"); ("record", record)]))
  else
    tell (EvLogJson INFO (PDict [("action", PStr "start"); ("bucket", bucket); ("key", key)]));;
    try_except (process_record cfg bucket key) any_exception (on_failure cfg bucket key).

Definition lambda_handler (cfg : config) (event : pyval) (function_name : string) : M state pyval :=
  tell (EvSetNamespace "ImagePipeline");;
  tell (EvPutDimensions [("FunctionName", PStr function_name)]);;
  records ← lift (py_get event "Records" (PList []));
  items ← lift (py_iter records);
  for_loop items (fun (_ : unit) record => handle_record cfg record) tt;;
  mret (PDict [("statusCode", PInt 200)]).

End Pipeline.

Arguments int_max_str_digits {World} e.
Arguments perf_counter {World} e.
Arguments s3_get_object {World} e.
Arguments image_open {World} e.
Arguments image_resize {World} e.
Arguments image_save_webp {World} e.
Arguments s3_put_object {World} e.
Arguments sqs_send_message {World} e.
Arguments metrics_put_metric {World} e.
Arguments world {World} s.
Arguments events {World} s.
Arguments State {World} world events.
Arguments tell {World} e.
Arguments with_trace {World A} m.
Arguments call {World A} f ev.
Arguments process_width {World} E img object_key output_bucket quality_int acc width.
Arguments process_image {World} E input_bucket object_key output_bucket sizes_str quality.
Arguments put_metric {World} E name value unit_name.
Arguments process_record {World} E cfg bucket key.
Arguments on_failure {World} E cfg bucket key exc.
Arguments handle_record {World} E cfg record.
Arguments lambda_handler {World} E cfg event function_name.

(** ** A concrete environment

    The world counts the calls made so far. The bucket serves a 1024x768
    image under every key but [uploads/readme.txt] (a text file, which Pillow
    rejects) and [missing]; [resize] rejects a size with a side that is not
    positive, as Pillow does; the queue [broken] rejects every message. *)

Module Demo.

Definition jpeg : bytes := ["J"; "F"; "I"; "F"]%byte.
Definition text : bytes := ["h"; "e"; "l"; "l"; "o"]%byte.

Definition tick {A : Type} (r : result A) (w : nat) : result A * nat := (r, S w).

Definition get_object (bucket key : pyval) : nat -> result bytes * nat :=
  tick match bucket, key with
       | PStr _, PStr "missing" => Raise (Exn "NoSuchKey" "The specified key does not exist.")
       | PStr _, PStr "uploads/readme.txt" => Ok text
       | PStr _, PStr _ => Ok jpeg
       | _, _ => Raise (Exn "ParamValidationError" "Parameter validation failed")
       end.

Definition open (body : bytes) : nat -> result image * nat :=
  tick match body with
       | "J"%byte :: _ => Ok (Image 1024 768 [])
       | _ => Raise (Exn "UnidentifiedImageError" "cannot identify image file")
       end.

Definition resize (img : image) (width height : Z) : nat -> result image * nat :=
  tick (if (0 <? width) && (0 <? height) then Ok (Image width height [])
        else Raise (ValueError "height and width must be > 0")).

Definition save_webp (img : image) (quality : Z) : nat -> result bytes * nat :=
  tick (Ok (repeat "x"%byte (Z.to_nat (img_width img)))).

Definition put_object (bucket : option string) (key : string) (body : bytes)
    (content_type : string) (metadata : list (string * pyval)) : nat -> result unit * nat :=
  tick match bucket with
       | Some _ => Ok tt
       | None => Raise (Exn "ParamValidationError" "Parameter validation failed")
       end.

Definition send_message (url : string) (body : pyval) : nat -> result unit * nat :=
  tick (if String.eqb url "broken" then Raise (Exn "QueueDoesNotExist" "no such queue")
        else Ok tt).

Definition environment : env nat := {|
  int_max_str_digits := 4300;
  perf_counter := fun w => (binary_normalize 53 1024 (Z.of_nat w) 0 false, S w);
  s3_get_object := get_object;
  image_open := open;
  image_resize := resize;
  image_save_webp := save_webp;
  s3_put_object := put_object;
  sqs_send_message := send_message;
  metrics_put_metric := fun _ _ _ => tick (Ok tt)
|}.

Definition cfg : config := {|
  OUTPUT_BUCKET := Some "out-bucket";
  THUMB_SIZES := "128,512";
  WEBP_QUALITY := "85";
  DLQ_URL := Some "https://sqs/test-dlq"
|}.

Definition s3_record (bucket key : string) : pyval :=
  PDict [("s3", PDict [("bucket", PDict [("name", PStr bucket)]);
                       ("object", PDict [("key", PStr key)])])].

Definition s3_event (records : list pyval) : pyval := PDict [("Records", PList records)].

Definition start : state nat := State 0%nat [].

End Demo.

(** * Vocabulary of the statements *)

Definition suffix (width : Z) : string := "_" +:+ str_of_int width +:+ "w.webp".

(** What one token of the size list contributes: its value when it is a
    positive decimal literal, and a warning when [int] rejects it. *)
Definition token_value (lim : nat) (part : string) : option Z :=
  let part := strip part in
  if is_empty part then None
  else match py_int_str lim part with
       | Ok size => if 0 <? size then Some size else None
       | Raise _ => None
       end.

Definition token_warning (lim : nat) (part : string) : list event :=
  let part := strip part in
  if is_empty part then []
  else match py_int_str lim part with
       | Ok _ => []
       | Raise _ => [EvLog WARNING "Ignoring non‑integer thumbnail size '%s'" [PStr part]]
       end.

Definition parsed_sizes (lim : nat) (sizes_str : string) : list Z :=
  sorted_set (omap (token_value lim) (split "," sizes_str)).

Definition parse_warnings (lim : nat) (sizes_str : string) : list event :=
  concat (map (token_warning lim) (split "," sizes_str)).

(** [", ".join]-style concatenation with a one-character separator. *)
Fixpoint join (sep : ascii) (ts : list string) : string :=
  match ts with
  | [] => EmptyString
  | [t] => t
  | t :: ts' => t +:+ String sep (join sep ts')
  end.

(** The events that a record of uploads is read from: for every
    [put_object] call, the [size] entry of its metadata and its outcome. *)
Definition uploads (evs : list event) : list (option pyval * bool) :=
  omap (fun e => match e with
                 | EvPutObject _ _ _ metadata ok => Some (assoc "size" metadata, ok)
                 | _ => None
                 end) evs.

Definition uploaded (width : Z) : option pyval * bool := (Some (PStr (str_of_int width)), true).

(** The derivatives of a run, one for each width of [widths] in turn: from
    the world [w], the image is resized to the computed height, the resized
    image is encoded to [data], and [data] is uploaded under the derived key,
    each call in the world that the call before it left; [w'] is the world
    after the last upload. *)
Fixpoint encoded_along {World : Type} (E : env World) (img : image) (object_key : pyval)
    (output_bucket : option string) (quality_int : Z)
    (w : World) (widths : list Z) (datas : list bytes) (w' : World) : Prop :=
  match widths, datas with
  | [], [] => w' = w
  | width :: widths', data :: datas' =>
      exists (height : Z) (resized : image) (dest_key : string) (w1 w2 w3 : World),
        scaled_height (img_width img) (img_height img) width = Ok height /\
        image_resize E img width height w = (Ok resized, w1) /\
        image_save_webp E resized quality_int w1 = (Ok data, w2) /\
        derive_output_key_dyn (int_max_str_digits E) object_key width = Ok dest_key /\
        s3_put_object E output_bucket dest_key data "image/webp"
          [("source", object_key); ("size", PStr (str_of_int width))] w2 = (Ok tt, w3) /\
        encoded_along E img object_key output_bucket quality_int w3 widths' datas' w'
  | _, _ => False
  end.

(** The events of decoding or encoding work on a derivative. *)
Definition is_derivative_event (e : event) : bool :=
  match e with
  | EvResize _ _ _ | EvSave _ _ | EvPutObject _ _ _ _ _ => true
  | _ => false
  end.

Definition skip_event (object_key : pyval) (img : image) (width : Z) : event :=
  EvLog INFO "Skipping upscale for %s (original width %d <= target %d)"
    [object_key; PInt (img_width img); PInt width].

(** A computation that only appends events satisfying [P], whatever its
    outcome. *)
Definition appends {World : Type} (P : event -> Prop) {A : Type}
    (m : M (state World) A) : Prop :=
  forall st, exists new, events (snd (m st)) = events st ++ new /\ Forall P new.

(** Every encoding call of a run of [process_image] is made with the
    quality that [coerce_quality] gives. *)
Definition saves_with (quality_int : Z) (e : event) : Prop :=
  match e with
  | EvSave q _ => q = quality_int
  | _ => True
  end.

(** Reading a path of keys in nested dictionaries: nothing is found when a
    key is missing or when the value on the way is not a dictionary. *)
Fixpoint lookup_path (v : pyval) (path : list string) : option pyval :=
  match path with
  | [] => Some v
  | k :: path' =>
      match v with
      | PDict d => match assoc k d with
                   | Some x => lookup_path x path'
                   | None => None
                   end
      | _ => None
      end
  end.

(** A record lacks a field when nothing is found at its path, or when what
    is found is empty ([None], the empty string, ...). *)
Definition lacks (record : pyval) (path : list string) : bool :=
  match lookup_path record path with
  | Some v => negb (truthy v)
  | None => true
  end.

Definition lacks_bucket_or_key (record : pyval) : bool :=
  lacks record ["s3"; "bucket"; "name"] || lacks record ["s3"; "object"; "key"].

Definition dict_or_absent (v : option pyval) : bool :=
  match v with
  | None | Some (PDict _) => true
  | Some _ => false
  end.

(** The record is a JSON object, and so are its ["s3"] member and the
    ["bucket"] and ["object"] members of that one, where they are present. *)
Definition well_shaped (record : pyval) : bool :=
  match record with
  | PDict d =>
      match assoc "s3" d with
      | None => true
      | Some (PDict s3) => dict_or_absent (assoc "bucket" s3) && dict_or_absent (assoc "object" s3)
      | Some _ => false
      end
  | _ => false
  end.

Definition malformed_log (record : pyval) : event :=
  EvLogJson ERROR (PDict [("error", PStr "Malformed S3 event"); ("record", record)]).

Definition start_log (bucket key : pyval) : event :=
  EvLogJson INFO (PDict [("action", PStr "start"); ("bucket", bucket); ("key", key)]).

Definition error_log (bucket key : pyval) (exc : exn) : event :=
  EvLogJson EXCEPTION (PDict [("action", PStr "error"); ("bucket", bucket); ("key", key);
                              ("error", PStr (exn_text exc))]).

Definition dlq_log (bucket key : pyval) (r : result unit) : event :=
  match r with
  | Ok _ => EvLogJson INFO (PDict [("action", PStr "sent_to_dlq"); ("bucket", bucket); ("key", key)])
  | Raise dlq_exc =>
      EvLogJson ERROR (PDict [("action", PStr "dlq_failed"); ("bucket", bucket); ("key", key);
                              ("error", PStr (exn_text dlq_exc))])
  end.

Definition setup_events (function_name : string) : list event :=
  [EvSetNamespace "ImagePipeline"; EvPutDimensions [("FunctionName", PStr function_name)]].

Definition status_200 : pyval := PDict [("statusCode", PInt 200)].

(** The [for record in records] loop of [lambda_handler]. *)
Definition records_loop {World : Type} (E : env World) (cfg : config)
    (records : list pyval) : M (state World) unit :=
  for_loop records (fun (_ : unit) record => handle_record E cfg record) tt.

(** A shifted record keeps the value [V]: the mantissa times the
    denominator plus a remainder below the denominator, whose place with
    respect to the half is what the two bits say. *)
Definition bits_ok (r s : bool) (a den : Z) : Prop :=
  (r = true <-> den <= 2 * a) /\ (s = true <-> (a <> 0 /\ 2 * a <> den)).

Definition located (V den : Z) (mrs : shr_record) : Prop :=
  0 <= shr_m mrs /\ 0 < den /\
  exists a, 0 <= a < den /\ shr_m mrs * den + a = V /\ bits_ok (shr_r mrs) (shr_s mrs) a den.

(** ** Vocabulary of the further properties *)

(** The [send_message] calls of a trace: queue, body and outcome. *)
Definition sends (evs : list event) : list (string * pyval * bool) :=
  omap (fun e => match e with
                 | EvSendMessage url body ok => Some (url, body, ok)
                 | _ => None
                 end) evs.

Definition not_send (e : event) : Prop :=
  match e with
  | EvSendMessage _ _ _ => False
  | _ => True
  end.

(** The events of a record that was processed: the four metrics of its
    result and the completion line. *)
Definition completion_events (bucket key : pyval) (res : processing_result) : list event :=
  [EvPutMetric "thumbnails_count" (len (sizes res)) "Count" true;
   EvPutMetric "duration_ms" (duration_ms res) "Milliseconds" true;
   EvPutMetric "size_in_bytes" (input_size res) "Bytes" true;
   EvPutMetric "size_out_bytes" (output_size res) "Bytes" true;
   EvLogJson INFO (PDict [("action", PStr "complete"); ("bucket", bucket); ("key", key);
                          ("thumbnails", PList (map PInt (sizes res)))])].

(** A [put_object] call that raised, as [uploads] reads it. *)
Definition failed_upload (width : Z) : option pyval * bool :=
  (Some (PStr (str_of_int width)), false).

(** What every [put_object] call of [process_image] looks like: it goes to
    the output bucket as [image/webp], under the key derived from the source
    key and one of the widths, which its metadata names. *)
Definition upload_of (lim : nat) (object_key : pyval) (output_bucket : option string)
    (widths : list Z) (e : event) : Prop :=
  match e with
  | EvPutObject bucket key content_type metadata _ =>
      bucket = output_bucket /\ content_type = "image/webp" /\
      exists width,
        width ∈ widths /\
        derive_output_key_dyn lim object_key width = Ok key /\
        metadata = [("source", object_key); ("size", PStr (str_of_int width))]
  | _ => True
  end.

(** The value of a string of decimal digits read from the left, on top of
    the value [acc] of the digits before it. *)
Fixpoint decimal_value (d : Decimal.uint) (acc : Z) : Z :=
  match d with
  | Decimal.Nil => acc
  | Decimal.D0 l => decimal_value l (10 * acc)
  | Decimal.D1 l => decimal_value l (10 * acc + 1)
  | Decimal.D2 l => decimal_value l (10 * acc + 2)
  | Decimal.D3 l => decimal_value l (10 * acc + 3)
  | Decimal.D4 l => decimal_value l (10 * acc + 4)
  | Decimal.D5 l => decimal_value l (10 * acc + 5)
  | Decimal.D6 l => decimal_value l (10 * acc + 6)
  | Decimal.D7 l => decimal_value l (10 * acc + 7)
  | Decimal.D8 l => decimal_value l (10 * acc + 8)
  | Decimal.D9 l => decimal_value l (10 * acc + 9)
  end.

(** The characters of [str(n)]: digits and the minus sign. *)
Definition is_numeral_char (c : ascii) : bool := is_digit c || Ascii.eqb c "-".

Fixpoint all_chars (P : ascii -> bool) (s : string) : bool :=
  match s with
  | EmptyString => true
  | String c s' => P c && all_chars P s'
  end.

(** [str] prints [n], and [int] accepts that text, under the digit limit
    [lim] ([0] switches the limit off). *)
Definition within_digit_limit (lim : nat) (n : Z) : Prop :=
  lim = 0%nat \/ (count_digits (str_of_int n) <= lim)%nat.

(** A trimmed token that [parse_sizes] warns about: it is not empty and
    [int] rejects it. *)
Definition rejected (lim : nat) (token : string) : Prop :=
  is_empty token = false /\ is_ok (py_int_str lim token) = false.

#[global] Instance rejected_dec (lim : nat) (token : string) : Decision (rejected lim token).
Proof. unfold rejected. apply _. Defined.

Definition size_warning (token : string) : event :=
  EvLog WARNING "Ignoring non‑integer thumbnail size '%s'" [PStr token].

(** The environment of [Demo] with a metrics logger that rejects the
    duration. *)
Definition rejecting_metrics (name : string) (value : Z) (unit_name : string) :
    nat -> result unit * nat :=
  Demo.tick (if String.eqb name "duration_ms"
             then Raise (Exn "InvalidMetricError" "metric rejected")
             else Ok tt).

Definition environment_with_rejecting_metrics : env nat := {|
  int_max_str_digits := 4300;
  perf_counter := perf_counter Demo.environment;
  s3_get_object := Demo.get_object;
  image_open := Demo.open;
  image_resize := Demo.resize;
  image_save_webp := Demo.save_webp;
  s3_put_object := Demo.put_object;
  sqs_send_message := Demo.send_message;
  metrics_put_metric := rejecting_metrics
|}.

(** A float that is zero, a positive number or plus infinity. *)
Definition nonneg_float (x : spec_float) : Prop :=
  match x with
  | S754_zero _ => True
  | S754_finite s _ _ | S754_infinity s => s = false
  | S754_nan => False
  end.

Definition is_finite_float (x : spec_float) : bool :=
  match x with
  | S754_zero _ | S754_finite _ _ _ => true
  | S754_infinity _ | S754_nan => false
  end.

(** [sum(len(d) for d in datas)] *)
Definition total_len (datas : list bytes) : Z := foldr (fun d acc => len d + acc) 0 datas.

(** * Properties *)

(** ** The built-ins on concrete inputs *)

Example py_int_str_examples :
  py_int_str 4300 "128" = Ok 128 /\ py_int_str 4300 " +1_000 " = Ok 1000 /\
  py_int_str 4300 "-7" = Ok (-7) /\ py_int_str 4300 "007" = Ok 7 /\
  is_ok (py_int_str 4300 "") = false /\ is_ok (py_int_str 4300 "1__0") = false /\
  is_ok (py_int_str 4300 "12px") = false /\ is_ok (py_int_str 4300 "- 5") = false /\
  is_ok (py_int_str 4300 "1.5") = false /\ is_ok (py_int_str 2 "123") = false /\
  py_int_str 0 "123" = Ok 123.
Proof. repeat split; reflexivity. Qed.

Example split_examples :
  split "," "128,512" = ["128"; "512"] /\ split "," "" = [""] /\
  split "," ",a,," = [""; "a"; ""; ""] /\
  rsplit1 "/" "a/b/c.jpg" = ["a/b"; "c.jpg"] /\ rsplit1 "/" "c.jpg" = ["c.jpg"] /\
  strip "  12 " = "12" /\ strip "   " = "" /\ strip " a b " = "a b".
Proof. repeat split; reflexivity. Qed.

Example parse_sizes_examples :
  parse_sizes 4300 "128,512" [] = (Ok [128; 512], []) /\
  fst (parse_sizes 4300 " 512, 128 ,,abc,0,-3,128" []) = Ok [128; 512].
Proof. split; vm_compute; reflexivity. Qed.
Example derive_examples :
  derive_output_key 4300 "uploads/cat.jpg" 128 = Ok "uploads/cat_128w.webp" /\
  derive_output_key 4300 "cat.tar.gz" 10 = Ok "cat_10w.webp".
Proof. split; vm_compute; reflexivity. Qed.

(** ** Strings *)

Section StringFacts.

Variable sep : ascii.

Lemma contains_app (a b : string) :
  contains sep (a +:+ b) = contains sep a || contains sep b.
Proof.
  induction a as [|c a IH]; simpl; [reflexivity|].
  rewrite IH. apply orb_assoc.
Qed.

Lemma rcut_None (s : string) : contains sep s = false -> rcut sep s = None.
Proof.
  induction s as [|c s IH]; simpl; [reflexivity|].
  intros H. apply orb_false_iff in H as [Hc Hs].
  rewrite (IH Hs), Hc. reflexivity.
Qed.

Lemma rcut_Some (s : string) :
  contains sep s = true -> exists p f, rcut sep s = Some (p, f).
Proof.
  induction s as [|c s IH]; simpl; [discriminate|].
  destruct (rcut sep s) as [[p f]|] eqn:Hr.
  - intros _. eauto.
  - destruct (Ascii.eqb c sep); simpl; [eauto|].
    intros H. destruct (IH H) as (p & f & Hpf). discriminate.
Qed.

Lemma rcut_app (p f : string) :
  contains sep f = false -> rcut sep (p +:+ String sep f) = Some (p, f).
Proof.
  intros Hf. induction p as [|c p IH]; simpl.
  - rewrite (rcut_None f Hf), Ascii.eqb_refl. reflexivity.
  - rewrite IH. reflexivity.
Qed.

Lemma split_not_nil (s : string) : split sep s <> [].
Proof.
  destruct s as [|c s]; simpl; [discriminate|].
  destruct (Ascii.eqb c sep); [discriminate|].
  destruct (split sep s); discriminate.
Qed.

Lemma split_no_sep (s : string) : contains sep s = false -> split sep s = [s].
Proof.
  induction s as [|c s IH]; simpl; [reflexivity|].
  intros H. apply orb_false_iff in H as [Hc Hs].
  rewrite Hc, (IH Hs). reflexivity.
Qed.

Lemma split_first (b r : string) :
  contains sep b = false -> exists ts, split sep (b +:+ String sep r) = b :: ts.
Proof.
  induction b as [|c b IH]; simpl.
  - intros _. rewrite Ascii.eqb_refl. eauto.
  - intros H. apply orb_false_iff in H as [Hc Hb].
    rewrite Hc. destruct (IH Hb) as [ts ->]. eauto.
Qed.

End StringFacts.

(** ** Decimal text *)

Lemma of_uint_acc_value (d : Decimal.uint) :
  forall acc : positive, Zpos (Pos.of_uint_acc d acc) = decimal_value d (Zpos acc).
Proof.
  induction d as [|d IH|d IH|d IH|d IH|d IH|d IH|d IH|d IH|d IH|d IH]; intros acc;
    cbn [Pos.of_uint_acc decimal_value]; [reflexivity|..];
    rewrite IH; f_equal; lia.
Qed.

Lemma of_uint_value (d : Decimal.uint) : Z.of_N (Pos.of_uint d) = decimal_value d 0.
Proof.
  induction d as [|d IH|d IH|d IH|d IH|d IH|d IH|d IH|d IH|d IH|d IH];
    cbn [Pos.of_uint decimal_value Z.of_N]; [reflexivity | exact IH |..];
    rewrite of_uint_acc_value; reflexivity.
Qed.

Lemma parse_digits_string_of_uint (d : Decimal.uint) :
  forall acc : Z, parse_digits (NilEmpty.string_of_uint d) acc true = Some (decimal_value d acc).
Proof.
  induction d as [|d IH|d IH|d IH|d IH|d IH|d IH|d IH|d IH|d IH|d IH]; intros acc;
    [reflexivity|..];
    cbn [NilEmpty.string_of_uint parse_digits decimal_value];
    match goal with |- context [is_digit ?c] => change (is_digit c) with true end;
    cbv iota; rewrite IH;
    match goal with |- context [digit_value ?c] =>
      let v := eval vm_compute in (digit_value c) in change (digit_value c) with v end;
    do 2 f_equal; lia.
Qed.

Lemma parse_digits_first (d : Decimal.uint) (acc : Z) :
  d <> Decimal.Nil ->
  parse_digits (NilEmpty.string_of_uint d) acc false = Some (decimal_value d acc).
Proof.
  intros Hd. destruct d; [congruence|..];
    cbn [NilEmpty.string_of_uint parse_digits decimal_value];
    match goal with |- context [is_digit ?c] => change (is_digit c) with true end;
    cbv iota; rewrite parse_digits_string_of_uint;
    match goal with |- context [digit_value ?c] =>
      let v := eval vm_compute in (digit_value c) in change (digit_value c) with v end;
    do 2 f_equal; lia.
Qed.

Lemma all_chars_string_of_uint (d : Decimal.uint) :
  all_chars is_digit (NilEmpty.string_of_uint d) = true.
Proof. induction d; cbn [NilEmpty.string_of_uint all_chars]; [reflexivity|..]; exact IHd. Qed.

Lemma to_uint_nonnil (p : positive) : Pos.to_uint p <> Decimal.Nil.
Proof.
  intros H. pose proof (DecimalPos.Unsigned.of_to p) as Hp. rewrite H in Hp. discriminate.
Qed.

Lemma all_chars_impl (P Q : ascii -> bool) (s : string) :
  (forall c, P c = true -> Q c = true) -> all_chars P s = true -> all_chars Q s = true.
Proof.
  intros HPQ. induction s as [|c s IH]; [reflexivity|]. cbn [all_chars].
  intros H. apply andb_true_iff in H as [Hc Hs]. rewrite (HPQ c Hc), (IH Hs). reflexivity.
Qed.

Lemma str_of_int_chars (n : Z) : all_chars is_numeral_char (str_of_int n) = true.
Proof.
  assert (Hd : forall d, all_chars is_numeral_char (NilZero.string_of_uint d) = true).
  { intros d. destruct d; [reflexivity|..];
      (apply (all_chars_impl is_digit); [intros c Hc; unfold is_numeral_char; now rewrite Hc|]);
      apply all_chars_string_of_uint. }
  unfold str_of_int. destruct n as [|p|p]; cbn [Z.to_int NilZero.string_of_int].
  - reflexivity.
  - apply Hd.
  - cbn [all_chars]. rewrite Hd. reflexivity.
Qed.

Lemma str_of_int_not_empty (n : Z) : is_empty (str_of_int n) = false.
Proof.
  unfold str_of_int. destruct n as [|p|p]; cbn [Z.to_int NilZero.string_of_int]; try reflexivity.
  pose proof (to_uint_nonnil p). destruct (Pos.to_uint p); [congruence|..]; reflexivity.
Qed.

(** Trimming leaves a text without white space as it is. *)
Lemma lstrip_by_none (sp : ascii -> bool) (s : string) :
  all_chars (fun c => negb (sp c)) s = true -> lstrip_by sp s = s.
Proof.
  destruct s as [|c s]; [reflexivity|]. cbn [all_chars lstrip_by].
  intros H. apply andb_true_iff in H as [Hc _]. apply negb_true_iff in Hc. now rewrite Hc.
Qed.

Lemma rstrip_by_none (sp : ascii -> bool) (s : string) :
  all_chars (fun c => negb (sp c)) s = true -> rstrip_by sp s = s.
Proof.
  induction s as [|c s IH]; [reflexivity|]. cbn [all_chars rstrip_by].
  intros H. apply andb_true_iff in H as [Hc Hs]. apply negb_true_iff in Hc.
  rewrite (IH Hs), Hc, andb_false_r. reflexivity.
Qed.

Lemma numeral_char_facts (c : ascii) :
  is_numeral_char c = true ->
  negb (int_isspace c) = true /\ negb (py_isspace c) = true /\ Ascii.eqb c "," = false.
Proof.
  unfold is_numeral_char. intros H. apply orb_true_iff in H as [H | H].
  - unfold is_digit in H. apply andb_true_iff in H as [H1 H2].
    apply N.leb_le in H1. apply N.leb_le in H2.
    assert (Hcomma : Ascii.eqb c "," = false).
    { apply Ascii.eqb_neq. intros ->. change (code ",") with 44%N in H1. lia. }
    unfold int_isspace, py_isspace. split; [|split; [|exact Hcomma]];
      apply negb_true_iff;
      repeat (apply orb_false_iff; split);
      first [apply andb_false_iff; (left + right); apply N.leb_gt; lia
            | apply N.eqb_neq; lia].
  - apply Ascii.eqb_eq in H as ->. repeat split; reflexivity.
Qed.

Lemma contains_none (sep : ascii) (s : string) :
  all_chars (fun c => negb (Ascii.eqb c sep)) s = true -> contains sep s = false.
Proof.
  induction s as [|c s IH]; [reflexivity|]. cbn [all_chars contains].
  intros H. apply andb_true_iff in H as [Hc Hs]. apply negb_true_iff in Hc.
  now rewrite Hc, (IH Hs).
Qed.

Lemma parse_literal_str_of_int (n : Z) : parse_literal (str_of_int n) = Some n.
Proof.
  unfold str_of_int. destruct n as [|p|p]; cbn [Z.to_int NilZero.string_of_int]; [reflexivity|..];
    pose proof (to_uint_nonnil p) as Hnil;
    pose proof (DecimalPos.Unsigned.of_to p) as Hval;
    apply (f_equal Z.of_N) in Hval; rewrite of_uint_value in Hval; cbn [Z.of_N] in Hval;
    assert (Hs : NilZero.string_of_uint (Pos.to_uint p) = NilEmpty.string_of_uint (Pos.to_uint p))
      by (destruct (Pos.to_uint p); [congruence|..]; reflexivity);
    rewrite Hs.
  - transitivity (parse_digits (NilEmpty.string_of_uint (Pos.to_uint p)) 0 false).
    { destruct (Pos.to_uint p); [congruence|..]; reflexivity. }
    rewrite (parse_digits_first _ 0 Hnil), Hval. reflexivity.
  - unfold parse_literal. rewrite (parse_digits_first _ 0 Hnil), Hval. reflexivity.
Qed.

Lemma py_int_str_str_of_int (lim : nat) (n : Z) :
  within_digit_limit lim n -> py_int_str lim (str_of_int n) = Ok n.
Proof.
  intros Hlim. unfold py_int_str.
  assert (Hsp : all_chars (fun c => negb (int_isspace c)) (str_of_int n) = true).
  { apply (all_chars_impl is_numeral_char); [|apply str_of_int_chars].
    intros c Hc. now apply numeral_char_facts in Hc. }
  rewrite (lstrip_by_none _ _ Hsp), (rstrip_by_none _ _ Hsp), parse_literal_str_of_int.
  destruct Hlim as [-> | Hle]; [reflexivity|].
  apply Nat.ltb_ge in Hle. rewrite Hle, andb_false_r. reflexivity.
Qed.

Lemma strip_str_of_int (n : Z) : strip (str_of_int n) = str_of_int n.
Proof.
  assert (Hsp : all_chars (fun c => negb (py_isspace c)) (str_of_int n) = true).
  { apply (all_chars_impl is_numeral_char); [|apply str_of_int_chars].
    intros c Hc. now apply numeral_char_facts in Hc. }
  unfold strip. now rewrite (lstrip_by_none _ _ Hsp), (rstrip_by_none _ _ Hsp).
Qed.

Lemma str_of_int_no_comma (n : Z) : contains "," (str_of_int n) = false.
Proof.
  apply contains_none. apply (all_chars_impl is_numeral_char); [|apply str_of_int_chars].
  intros c Hc. apply numeral_char_facts in Hc as (_ & _ & ->). reflexivity.
Qed.

(** *** The digit limit *)

Lemma py_str_int_Ok (lim : nat) (n : Z) :
  within_digit_limit lim n -> py_str_int lim n = Ok (str_of_int n).
Proof.
  intros Hlim. unfold py_str_int. cbv zeta.
  destruct Hlim as [-> | Hle]; [reflexivity|].
  apply Nat.ltb_ge in Hle. rewrite Hle, andb_false_r. reflexivity.
Qed.

Lemma py_str_int_Raise (lim : nat) (n : Z) :
  ~ within_digit_limit lim n -> py_str_int lim n = Raise (exceeds_limit lim).
Proof.
  intros Hlim. unfold py_str_int. cbv zeta.
  destruct (Nat.eqb lim 0) eqn:H0.
  - apply Nat.eqb_eq in H0. elim Hlim. now left.
  - destruct (Nat.ltb lim (count_digits (str_of_int n))) eqn:Hlt; [reflexivity|].
    apply Nat.ltb_ge in Hlt. elim Hlim. now right.
Qed.

Lemma py_str_int_inv (lim : nat) (n : Z) (text : string) :
  py_str_int lim n = Ok text -> text = str_of_int n /\ within_digit_limit lim n.
Proof.
  unfold py_str_int, within_digit_limit. cbv zeta.
  destruct (Nat.eqb lim 0) eqn:H0; cbn [negb andb].
  - apply Nat.eqb_eq in H0. intros [= <-]. auto.
  - destruct (Nat.ltb lim (count_digits (str_of_int n))) eqn:Hlt; [discriminate|].
    apply Nat.ltb_ge in Hlt. intros [= <-]. auto.
Qed.

Lemma count_digits_string_of_uint (d : Decimal.uint) :
  count_digits (NilEmpty.string_of_uint d) = Decimal.nb_digits d.
Proof.
  induction d; cbn [NilEmpty.string_of_uint count_digits Decimal.nb_digits];
    [reflexivity|..];
    match goal with |- context [is_digit ?c] => change (is_digit c) with true end;
    cbv iota; now rewrite IHd.
Qed.

Lemma count_digits_opp (n : Z) :
  count_digits (str_of_int (- n)) = count_digits (str_of_int n).
Proof. unfold str_of_int. destruct n; reflexivity. Qed.

(** One digit in front of a numeral. *)
Lemma digit_in_front (c : ascii) (d : Decimal.uint) :
  is_digit c = true ->
  exists d' : Decimal.uint,
    d' <> Decimal.Nil /\
    Decimal.nb_digits d' = S (Decimal.nb_digits d) /\
    forall acc, decimal_value d' acc = decimal_value d (10 * acc + digit_value c).
Proof.
  intros Hc.
  assert (Hcases : c = "0"%char \/ c = "1"%char \/ c = "2"%char \/ c = "3"%char \/
                   c = "4"%char \/ c = "5"%char \/ c = "6"%char \/ c = "7"%char \/
                   c = "8"%char \/ c = "9"%char).
  { destruct c as [[] [] [] [] [] [] [] []]; try discriminate Hc; tauto. }
  destruct Hcases as [->|[->|[->|[->|[->|[->|[->|[->|[->| ->]]]]]]]]];
    [exists (Decimal.D0 d) | exists (Decimal.D1 d) | exists (Decimal.D2 d)
    | exists (Decimal.D3 d) | exists (Decimal.D4 d) | exists (Decimal.D5 d)
    | exists (Decimal.D6 d) | exists (Decimal.D7 d) | exists (Decimal.D8 d)
    | exists (Decimal.D9 d)];
    (split; [discriminate|]); (split; [reflexivity|]); intros acc;
    cbn [decimal_value]; f_equal;
    match goal with |- context [digit_value ?c] =>
      let v := eval vm_compute in (digit_value c) in change (digit_value c) with v end;
    lia.
Qed.

(** The digits [int] reads are a numeral, zeros in front and underscores
    apart. *)
Lemma parse_digits_numeral (s : string) :
  forall (acc : Z) (after_digit : bool) (v : Z),
    parse_digits s acc after_digit = Some v ->
    exists d : Decimal.uint,
      Decimal.nb_digits d = count_digits s /\ v = decimal_value d acc /\
      (after_digit = false -> d <> Decimal.Nil).
Proof.
  induction s as [|c s IH]; intros acc after_digit v; cbn [parse_digits count_digits].
  - destruct after_digit; [|discriminate]. intros [= <-].
    exists Decimal.Nil. repeat split. discriminate.
  - destruct (is_digit c) eqn:Hc.
    + intros H. apply IH in H as (d & Hn & Hv & _).
      destruct (digit_in_front c d Hc) as (d' & Hnil & Hn' & Hv').
      exists d'. split; [now rewrite Hn', Hn|]. split; [now rewrite Hv'|]. auto.
    + destruct (Ascii.eqb c "_"); [|discriminate].
      destruct after_digit; [|discriminate].
      intros H. apply IH in H as (d & Hn & Hv & Hnil).
      exists d. split; [assumption|]. split; [assumption|]. discriminate.
Qed.

Lemma str_of_int_of_N (n : N) :
  str_of_int (Z.of_N n) = NilZero.string_of_uint (N.to_uint n).
Proof. destruct n; reflexivity. Qed.

Lemma unorm_not_nil (d : Decimal.uint) : Decimal.unorm d <> Decimal.Nil.
Proof. unfold Decimal.unorm. destruct (Decimal.nzhead d); discriminate. Qed.

(** [str] prints no more digits than [int] has read. *)
Lemma parse_digits_count (s : string) (v : Z) :
  parse_digits s 0 false = Some v ->
  (count_digits (str_of_int v) <= count_digits s)%nat.
Proof.
  intros H. apply parse_digits_numeral in H as (d & Hn & -> & Hnil).
  specialize (Hnil eq_refl).
  rewrite <- of_uint_value, str_of_int_of_N, DecimalPos.Unsigned.to_of, <- Hn.
  pose proof (unorm_not_nil d) as Hu.
  assert (Hs : NilZero.string_of_uint (Decimal.unorm d)
               = NilEmpty.string_of_uint (Decimal.unorm d))
    by (destruct (Decimal.unorm d); [congruence|..]; reflexivity).
  rewrite Hs, count_digits_string_of_uint.
  now apply DecimalFacts.nb_digits_unorm.
Qed.

Lemma parse_literal_count (s : string) (n : Z) :
  parse_literal s = Some n -> (count_digits (str_of_int n) <= count_digits s)%nat.
Proof.
  unfold parse_literal.
  assert (Hplain : parse_digits s 0 false = Some n ->
                   (count_digits (str_of_int n) <= count_digits s)%nat)
    by apply parse_digits_count.
  destruct s as [|c s']; [exact Hplain|].
  destruct (Ascii.eqb c "+") eqn:Hplus; [apply Ascii.eqb_eq in Hplus as ->|].
  - intros H. apply parse_digits_count in H. exact H.
  - destruct (Ascii.eqb c "-") eqn:Hminus; [apply Ascii.eqb_eq in Hminus as ->|].
    + destruct (parse_digits s' 0 false) as [v|] eqn:Hv; [|discriminate].
      intros [= <-]. rewrite count_digits_opp. apply parse_digits_count in Hv. exact Hv.
    + assert (Hsame : match String c s' with
                      | String "+" s'' => parse_digits s'' 0 false
                      | String "-" s'' => option_map Z.opp (parse_digits s'' 0 false)
                      | _ => parse_digits (String c s') 0 false
                      end = parse_digits (String c s') 0 false).
      { apply Ascii.eqb_neq in Hplus, Hminus.
        destruct c as [[] [] [] [] [] [] [] []]; try reflexivity; congruence. }
      rewrite Hsame. exact Hplain.
Qed.

(** What [int] accepts under the digit limit, [str] prints under it. *)
Lemma py_int_str_within_limit (lim : nat) (s : string) (n : Z) :
  py_int_str lim s = Ok n -> within_digit_limit lim n.
Proof.
  unfold py_int_str, within_digit_limit. cbv zeta.
  destruct (parse_literal _) as [m|] eqn:Hlit; [|discriminate].
  apply parse_literal_count in Hlit.
  destruct (Nat.eqb lim 0) eqn:H0; cbn [negb andb].
  - apply Nat.eqb_eq in H0. intros _. now left.
  - destruct (Nat.ltb lim _) eqn:Hlt; [discriminate|].
    apply Nat.ltb_ge in Hlt. intros [= <-]. right. lia.
Qed.

(** ** derive_output_key *)

Lemma derive_output_key_total (lim : nat) (src_key : string) (width : Z) :
  within_digit_limit lim width -> exists k, derive_output_key lim src_key width = Ok k.
Proof.
  intros Hlim. unfold derive_output_key. rewrite (py_str_int_Ok lim width Hlim).
  destruct (contains "/" src_key) eqn:Hc.
  - destruct (rcut_Some "/" src_key Hc) as (p & f & Hpf).
    unfold rsplit1. rewrite Hpf.
    destruct (split "." f) as [|b ts] eqn:Hs; [now apply split_not_nil in Hs|].
    eexists. reflexivity.
  - destruct (split "." src_key) as [|b ts] eqn:Hs; [now apply split_not_nil in Hs|].
    eexists. reflexivity.
Qed.

(** Above the digit limit the f-string fails, on every key. *)
Lemma derive_output_key_beyond_limit (lim : nat) (src_key : string) (width : Z) :
  ~ within_digit_limit lim width ->
  derive_output_key lim src_key width = Raise (exceeds_limit lim).
Proof.
  intros Hlim. unfold derive_output_key. rewrite (py_str_int_Raise lim width Hlim).
  destruct (contains "/" src_key) eqn:Hc.
  - destruct (rcut_Some "/" src_key Hc) as (p & f & Hpf).
    unfold rsplit1. rewrite Hpf.
    destruct (split "." f) as [|b ts] eqn:Hs; [now apply split_not_nil in Hs|].
    reflexivity.
  - destruct (split "." src_key) as [|b ts] eqn:Hs; [now apply split_not_nil in Hs|].
    reflexivity.
Qed.

Lemma derive_output_key_in_dir (lim : nat) (prefix filename : string) (width : Z) :
  within_digit_limit lim width ->
  contains "/" filename = false ->
  derive_output_key lim (prefix +:+ "/" +:+ filename) width =
  match split "." filename with
  | base :: _ => Ok (prefix +:+ "/" +:+ base +:+ suffix width)
  | [] => Raise (ValueError "not enough values to unpack (expected at least 1, got 0)")
  end.
Proof.
  intros Hlim Hf. unfold derive_output_key. rewrite (py_str_int_Ok lim width Hlim).
  assert (Hc : contains "/" (prefix +:+ "/" +:+ filename) = true).
  { rewrite contains_app. simpl. apply orb_true_r. }
  rewrite Hc. unfold rsplit1.
  change (prefix +:+ "/" +:+ filename) with (prefix +:+ String "/" filename).
  rewrite (rcut_app "/" prefix filename Hf). reflexivity.
Qed.

Lemma derive_output_key_flat (lim : nat) (filename : string) (width : Z) :
  within_digit_limit lim width ->
  contains "/" filename = false ->
  derive_output_key lim filename width =
  match split "." filename with
  | base :: _ => Ok (base +:+ suffix width)
  | [] => Raise (ValueError "not enough values to unpack (expected at least 1, got 0)")
  end.
Proof.
  intros Hlim Hf. unfold derive_output_key.
  rewrite (py_str_int_Ok lim width Hlim), Hf. reflexivity.
Qed.

(** A limit that the interpreter accepts ([0], which switches the check off,
    or at least [640]) lets every integer of up to 640 digits through. *)
Lemma short_int_within_limit (lim : nat) (n : Z) :
  lim = 0%nat \/ (640 <= lim)%nat ->
  (count_digits (str_of_int n) <=? 640)%nat = true ->
  within_digit_limit lim n.
Proof.
  intros [-> | Hlim] Hn; [now left|].
  apply Nat.leb_le in Hn. right. lia.
Qed.

(** C2. The output key is a function of the source key and the width, the
    digit limit of the interpreter being fixed: for a width that [str]
    prints under that limit, and with [base] the text of the file name
    before its first dot, a key [prefix/base.ext] gives
    [prefix/base_{width}w.webp] (the prefix, which is everything before the
    last slash, is kept; [ext] may hold further dots and is dropped whole),
    and a key [base.ext] without a directory gives [base_{width}w.webp]; the
    two keys of the specification evaluate as it says under every limit that
    the interpreter accepts. *)
Theorem derive_output_key_first_dot :
  (forall (lim : nat) (prefix base ext : string) (width : Z),
      within_digit_limit lim width ->
      contains "/" base = false -> contains "." base = false -> contains "/" ext = false ->
      derive_output_key lim (prefix +:+ "/" +:+ base +:+ "." +:+ ext) width =
      Ok (prefix +:+ "/" +:+ base +:+ "_" +:+ str_of_int width +:+ "w.webp")) /\
  (forall (lim : nat) (base ext : string) (width : Z),
      within_digit_limit lim width ->
      contains "/" base = false -> contains "." base = false -> contains "/" ext = false ->
      derive_output_key lim (base +:+ "." +:+ ext) width =
      Ok (base +:+ "_" +:+ str_of_int width +:+ "w.webp")) /\
  (forall lim : nat,
      lim = 0%nat \/ (640 <= lim)%nat ->
      derive_output_key lim "uploads/cat.jpg" 128 = Ok "uploads/cat_128w.webp" /\
      derive_output_key lim "cat.tar.gz" 10 = Ok "cat_10w.webp").
Proof.
  assert (Hslash : forall base ext, contains "/" base = false -> contains "/" ext = false ->
                                    contains "/" (base +:+ "." +:+ ext) = false).
  { intros base ext Hb He. rewrite contains_app, Hb. simpl. exact He. }
  assert (Hdir : forall (lim : nat) (prefix base ext : string) (width : Z),
      within_digit_limit lim width ->
      contains "/" base = false -> contains "." base = false -> contains "/" ext = false ->
      derive_output_key lim (prefix +:+ "/" +:+ base +:+ "." +:+ ext) width =
      Ok (prefix +:+ "/" +:+ base +:+ "_" +:+ str_of_int width +:+ "w.webp")).
  { intros lim prefix base ext width Hlim Hb Hd He.
    rewrite (derive_output_key_in_dir lim prefix (base +:+ "." +:+ ext) width Hlim
               (Hslash _ _ Hb He)).
    destruct (split_first "." base ext Hd) as [ts Hts].
    change (base +:+ "." +:+ ext) with (base +:+ String "." ext).
    rewrite Hts. reflexivity. }
  assert (Hflat : forall (lim : nat) (base ext : string) (width : Z),
      within_digit_limit lim width ->
      contains "/" base = false -> contains "." base = false -> contains "/" ext = false ->
      derive_output_key lim (base +:+ "." +:+ ext) width =
      Ok (base +:+ "_" +:+ str_of_int width +:+ "w.webp")).
  { intros lim base ext width Hlim Hb Hd He.
    rewrite (derive_output_key_flat lim (base +:+ "." +:+ ext) width Hlim (Hslash _ _ Hb He)).
    destruct (split_first "." base ext Hd) as [ts Hts].
    change (base +:+ "." +:+ ext) with (base +:+ String "." ext).
    rewrite Hts. reflexivity. }
  split; [exact Hdir|]. split; [exact Hflat|].
  intros lim Hlim. split.
  - apply (Hdir lim "uploads" "cat" "jpg" 128); try reflexivity.
    apply (short_int_within_limit lim 128 Hlim). reflexivity.
  - apply (Hflat lim "cat" "tar.gz" 10); try reflexivity.
    apply (short_int_within_limit lim 10 Hlim). reflexivity.
Qed.

Lemma derive_output_key_first_dot_witness :
  derive_output_key 4300 ("a/b" +:+ "/" +:+ "photo" +:+ "." +:+ "final.jpeg") 512 =
  Ok ("a/b" +:+ "/" +:+ "photo" +:+ "_" +:+ str_of_int 512 +:+ "w.webp") /\
  derive_output_key 4300 "uploads/cat.jpg" 128 = Ok "uploads/cat_128w.webp" /\
  derive_output_key 4300 "cat.tar.gz" 10 = Ok "cat_10w.webp".
Proof.
  split.
  - apply (proj1 derive_output_key_first_dot 4300%nat "a/b" "photo" "final.jpeg" 512);
      [right; vm_compute; lia | reflexivity..].
  - apply (proj2 (proj2 derive_output_key_first_dot) 4300%nat). right. lia.
Defined.

(** ** parse_sizes *)

Lemma py_int_str_raises_ValueError (lim : nat) (s : string) (e : exn) :
  py_int_str lim s = Raise e -> is_ValueError e = true.
Proof.
  unfold py_int_str.
  destruct (parse_literal _); [|intros [= <-]; reflexivity].
  destruct (_ && _); [intros [= <-]; reflexivity | discriminate].
Qed.

Lemma py_int_str_empty (lim : nat) : is_ok (py_int_str lim "") = false.
Proof. reflexivity. Qed.

Lemma token_value_Some (lim : nat) (part : string) (n : Z) :
  token_value lim part = Some n <-> py_int_str lim (strip part) = Ok n /\ 0 < n.
Proof.
  unfold token_value.
  destruct (strip part) as [|c p] eqn:Hp; simpl.
  - split; [discriminate|]. intros [H _]. discriminate.
  - destruct (py_int_str lim (String c p)) as [m|e].
    + destruct (0 <? m) eqn:Hm.
      * apply Z.ltb_lt in Hm. split; [intros [= <-]; auto | intros [[= <-] _]; reflexivity].
      * apply Z.ltb_ge in Hm. split; [discriminate | intros [[= <-] ?]; lia].
    + split; [discriminate | intros [? _]; discriminate].
Qed.

Section ParseSizesLoop.

Variable lim : nat.

Let body := fun (sizes : list Z) (part : string) =>
  let part := strip part in
  if is_empty part then mret sizes
  else
    try_except
      (size ← lift (py_int_str lim part);
       if 0 <? size then mret (sizes ++ [size]) else mret sizes)
      is_ValueError
      (fun _ =>
         emit (EvLog WARNING "Ignoring non‑integer thumbnail size '%s'" [PStr part]);;
         mret sizes) : M trace (list Z).

Lemma parse_sizes_body (sizes : list Z) (part : string) (tr : trace) :
  body sizes part tr =
  (Ok (sizes ++ option_list (token_value lim part)), tr ++ token_warning lim part).
Proof.
  unfold body, token_value, token_warning.
  destruct (is_empty (strip part)); simpl.
  - unfold mret, M_ret, ret. rewrite !app_nil_r. reflexivity.
  - unfold try_except, mbind, M_bind, bind, lift.
    destruct (py_int_str lim (strip part)) as [n|e] eqn:Hi.
    + destruct (0 <? n); unfold mret, M_ret, ret; simpl; rewrite !app_nil_r; reflexivity.
    + rewrite (py_int_str_raises_ValueError _ _ _ Hi).
      unfold emit, mret, M_ret, ret. simpl. rewrite app_nil_r. reflexivity.
Qed.

Lemma parse_sizes_loop (parts : list string) (sizes : list Z) (tr : trace) :
  for_loop parts body sizes tr =
  (Ok (sizes ++ omap (token_value lim) parts), tr ++ concat (map (token_warning lim) parts)).
Proof.
  revert sizes tr. induction parts as [|part parts IH]; intros sizes tr; simpl.
  - unfold ret. rewrite !app_nil_r. reflexivity.
  - unfold bind. rewrite parse_sizes_body, IH.
    rewrite <- !app_assoc. f_equal. f_equal. f_equal.
    destruct (token_value lim part); reflexivity.
Qed.

Lemma parse_sizes_run (sizes_str : string) (tr : trace) :
  parse_sizes lim sizes_str tr =
  (Ok (parsed_sizes lim sizes_str), tr ++ parse_warnings lim sizes_str).
Proof.
  unfold parse_sizes, mbind, M_bind, bind.
  fold body. rewrite parse_sizes_loop. reflexivity.
Qed.

End ParseSizesLoop.

(** *** [sorted(set(xs))] *)

Lemma elem_of_sorted_set (xs : list Z) (x : Z) : x ∈ sorted_set xs <-> x ∈ xs.
Proof.
  unfold sorted_set. rewrite merge_sort_Permutation, elem_of_elements, elem_of_list_to_set.
  reflexivity.
Qed.

Lemma NoDup_sorted_set (xs : list Z) : NoDup (sorted_set xs).
Proof.
  unfold sorted_set. rewrite merge_sort_Permutation. apply NoDup_elements.
Qed.

Lemma StronglySorted_le_lt (l : list Z) :
  StronglySorted Z.le l -> NoDup l -> StronglySorted Z.lt l.
Proof.
  induction 1 as [|x l Hs IH Hall]; intros Hnd; constructor.
  - apply IH. now apply NoDup_cons in Hnd.
  - apply NoDup_cons in Hnd as [Hx _].
    rewrite Forall_forall in *. intros y Hy.
    assert (x <> y) by (intros ->; contradiction).
    specialize (Hall y Hy). lia.
Qed.

Lemma StronglySorted_sorted_set (xs : list Z) : StronglySorted Z.lt (sorted_set xs).
Proof.
  apply StronglySorted_le_lt; [|apply NoDup_sorted_set].
  unfold sorted_set. apply StronglySorted_merge_sort.
  - intros x y z. apply Z.le_trans.
  - intros x y. apply Z.le_ge_cases.
Qed.

(** Two strictly ascending lists with the same elements are the same list. *)
Lemma StronglySorted_lt_ext (l1 l2 : list Z) :
  StronglySorted Z.lt l1 -> StronglySorted Z.lt l2 ->
  (forall x, x ∈ l1 <-> x ∈ l2) -> l1 = l2.
Proof.
  intros H1. revert l2. induction H1 as [|x l1 Hs1 IH Hall1]; intros l2 H2 Hext.
  - destruct l2 as [|y l2]; [reflexivity|].
    exfalso. apply (not_elem_of_nil y). apply Hext. left.
  - destruct H2 as [|y l2 Hs2 Hall2].
    + exfalso. apply (not_elem_of_nil x). apply Hext. left.
    + rewrite Forall_forall in Hall1, Hall2.
      assert (Hxy : x = y).
      { assert (Hx : x ∈ y :: l2) by (apply Hext; left).
        assert (Hy : y ∈ x :: l1) by (apply Hext; left).
        apply elem_of_cons in Hx as [?|Hx]; [assumption|].
        apply elem_of_cons in Hy as [?|Hy]; [congruence|].
        specialize (Hall1 y Hy). specialize (Hall2 x Hx). lia. }
      subst y. f_equal. apply IH; [assumption|].
      intros z. split; intros Hz.
      * assert (Hz' : z ∈ x :: l2) by (apply Hext; now right).
        apply elem_of_cons in Hz' as [->|?]; [|assumption].
        specialize (Hall1 x Hz). lia.
      * assert (Hz' : z ∈ x :: l1) by (apply Hext; now right).
        apply elem_of_cons in Hz' as [->|?]; [|assumption].
        specialize (Hall2 x Hz). lia.
Qed.

Lemma sorted_set_ext (xs ys : list Z) :
  (forall x, x ∈ xs <-> x ∈ ys) -> sorted_set xs = sorted_set ys.
Proof.
  intros H. apply StronglySorted_lt_ext; try apply StronglySorted_sorted_set.
  intros x. rewrite !elem_of_sorted_set. apply H.
Qed.

Lemma elem_of_parsed_sizes (lim : nat) (sizes_str : string) (n : Z) :
  n ∈ parsed_sizes lim sizes_str <->
  exists part, part ∈ split "," sizes_str /\ py_int_str lim (strip part) = Ok n /\ 0 < n.
Proof.
  unfold parsed_sizes. rewrite elem_of_sorted_set, list_elem_of_omap.
  split; intros (part & Hin & H); exists part; (split; [assumption|]);
    now apply token_value_Some.
Qed.

Lemma parsed_sizes_ext (lim : nat) (s1 s2 : string) :
  (forall part, part ∈ split "," s1 <-> part ∈ split "," s2) ->
  parsed_sizes lim s1 = parsed_sizes lim s2.
Proof.
  intros H. apply sorted_set_ext. intros x. rewrite !list_elem_of_omap.
  split; intros (part & Hin & Hv); exists part; (split; [now apply H | assumption]).
Qed.

Lemma split_join (sep : ascii) (ts : list string) :
  ts <> [] -> Forall (fun t => contains sep t = false) ts -> split sep (join sep ts) = ts.
Proof.
  induction ts as [|t ts IH]; [congruence|].
  intros _ Hall. apply Forall_cons in Hall as [Ht Hts].
  destruct ts as [|t' ts].
  - simpl. now apply split_no_sep.
  - change (join sep (t :: t' :: ts)) with (t +:+ String sep (join sep (t' :: ts))).
    specialize (IH ltac:(discriminate) Hts).
    clear Hts. revert IH. generalize (join sep (t' :: ts)) as rest. intros rest IH.
    induction t as [|c t IHt]; simpl.
    + rewrite Ascii.eqb_refl, IH. reflexivity.
    + simpl in Ht. apply orb_false_iff in Ht as [Hc Ht].
      rewrite Hc, (IHt Ht). reflexivity.
Qed.

(** C3. On every input string [parse_sizes] returns (it does not raise); the
    list it returns is strictly ascending, so free of duplicates, and holds
    only positive integers; its elements are exactly the values of the
    tokens that [int] accepts after trimming and that are positive, so empty,
    non-numeric, zero and negative tokens leave no trace in it and an input
    without a valid token gives the empty list; and two inputs with the same
    set of tokens, in whatever order and multiplicity, give the same list. *)
Theorem parse_sizes_sorted_unique_positive (lim : nat) (sizes_str : string) (tr : trace) :
  exists (out : list Z) (tr' : trace),
    parse_sizes lim sizes_str tr = (Ok out, tr') /\
    StronglySorted Z.lt out /\
    NoDup out /\
    (forall n, n ∈ out -> 0 < n) /\
    (forall n, n ∈ out <->
               exists part, part ∈ split "," sizes_str /\
                            py_int_str lim (strip part) = Ok n /\ 0 < n) /\
    ((forall part n, part ∈ split "," sizes_str ->
                     py_int_str lim (strip part) = Ok n -> n <= 0) -> out = []) /\
    (forall (other : string) (tr2 : trace),
        (forall part, part ∈ split "," sizes_str <-> part ∈ split "," other) ->
        fst (parse_sizes lim other tr2) = Ok out) /\
    (forall (ts1 ts2 : list string) (tr1 tr2 : trace),
        ts1 <> [] -> ts2 <> [] ->
        Forall (fun t => contains "," t = false) ts1 ->
        Forall (fun t => contains "," t = false) ts2 ->
        (forall t, t ∈ ts1 <-> t ∈ ts2) ->
        fst (parse_sizes lim (join "," ts1) tr1) = fst (parse_sizes lim (join "," ts2) tr2)).
Proof.
  exists (parsed_sizes lim sizes_str), (tr ++ parse_warnings lim sizes_str).
  split; [apply parse_sizes_run|].
  split; [apply StronglySorted_sorted_set|].
  split; [apply NoDup_sorted_set|].
  split.
  { intros n Hn. apply elem_of_parsed_sizes in Hn as (part & _ & _ & Hpos). exact Hpos. }
  split; [apply elem_of_parsed_sizes|].
  split.
  { intros Hbad. destruct (parsed_sizes lim sizes_str) as [|n out] eqn:Hout; [reflexivity|].
    assert (Hn : n ∈ parsed_sizes lim sizes_str) by (rewrite Hout; left).
    apply elem_of_parsed_sizes in Hn as (part & Hin & Hint & Hpos).
    specialize (Hbad part n Hin Hint). lia. }
  split.
  { intros other tr2 Hsame. rewrite parse_sizes_run. simpl.
    f_equal. symmetry. now apply parsed_sizes_ext. }
  intros ts1 ts2 tr1 tr2 Hne1 Hne2 Hc1 Hc2 Hsame.
  rewrite !parse_sizes_run. simpl. f_equal.
  apply parsed_sizes_ext. intros part.
  rewrite (split_join "," ts1 Hne1 Hc1), (split_join "," ts2 Hne2 Hc2). apply Hsame.
Qed.

Lemma parse_sizes_sorted_unique_positive_witness :
  fst (parse_sizes 4300 " 512, 128 ,,abc,0,-3,128,1_0" []) = Ok [10; 128; 512] /\
  fst (parse_sizes 4300 "x, ,0,-1" []) = Ok [] /\
  fst (parse_sizes 4300 (join "," ["512"; "128"; "128"]) []) =
  fst (parse_sizes 4300 (join "," ["128"; "512"]) []).
Proof.
  split; [vm_compute; reflexivity|]. split; [vm_compute; reflexivity|].
  destruct (parse_sizes_sorted_unique_positive 4300 "" [])
    as (out & tr' & _ & _ & _ & _ & _ & _ & _ & Hperm).
  apply Hperm; try discriminate.
  - repeat constructor.
  - repeat constructor.
  - intros t. rewrite !elem_of_cons. tauto.
Defined.

(** ** derive_output_key on every key *)

(** The widths of the size list were read by [int] under the digit limit,
    so [str] prints each of them under it. *)
Lemma parsed_sizes_within_limit (lim : nat) (sizes_str : string) :
  Forall (within_digit_limit lim) (parsed_sizes lim sizes_str).
Proof.
  apply Forall_forall. intros n Hn.
  apply elem_of_parsed_sizes in Hn as (part & _ & Hint & _).
  exact (py_int_str_within_limit lim _ n Hint).
Qed.

(** C10. For a width that [str] prints under the digit limit of the
    interpreter, [derive_output_key] returns on every source key (it does
    not raise), and every width of a list that [parse_sizes] returns under
    that limit is such a width. When the last path segment has no dot the
    result is the key itself followed by [_{width}w.webp]; when the last
    segment starts with a dot the base name is empty, and the result is the
    directory prefix followed by [/_{width}w.webp] (just [_{width}w.webp]
    without a directory). The two keys of the claim evaluate as it says
    under every limit that the interpreter accepts. *)
Theorem derive_output_key_total_edge_cases :
  (forall (lim : nat) (src_key : string) (width : Z),
      within_digit_limit lim width ->
      exists k, derive_output_key lim src_key width = Ok k) /\
  (forall (lim : nat) (sizes_str : string) (tr : trace) (src_key : string) (width : Z),
      (exists widths, fst (parse_sizes lim sizes_str tr) = Ok widths /\ width ∈ widths) ->
      exists k, derive_output_key lim src_key width = Ok k) /\
  (forall (lim : nat) (segment : string) (width : Z),
      within_digit_limit lim width ->
      contains "/" segment = false -> contains "." segment = false ->
      derive_output_key lim segment width =
      Ok (segment +:+ "_" +:+ str_of_int width +:+ "w.webp")) /\
  (forall (lim : nat) (prefix segment : string) (width : Z),
      within_digit_limit lim width ->
      contains "/" segment = false -> contains "." segment = false ->
      derive_output_key lim (prefix +:+ "/" +:+ segment) width =
      Ok (prefix +:+ "/" +:+ segment +:+ "_" +:+ str_of_int width +:+ "w.webp")) /\
  (forall (lim : nat) (prefix rest : string) (width : Z),
      within_digit_limit lim width ->
      contains "/" rest = false ->
      derive_output_key lim (prefix +:+ "/" +:+ "." +:+ rest) width =
      Ok (prefix +:+ "/_" +:+ str_of_int width +:+ "w.webp")) /\
  (forall (lim : nat) (rest : string) (width : Z),
      within_digit_limit lim width ->
      contains "/" rest = false ->
      derive_output_key lim ("." +:+ rest) width =
      Ok ("_" +:+ str_of_int width +:+ "w.webp")) /\
  (forall lim : nat,
      lim = 0%nat \/ (640 <= lim)%nat ->
      derive_output_key lim "cat" 128 = Ok "cat_128w.webp" /\
      derive_output_key lim "uploads/.hidden" 128 = Ok "uploads/_128w.webp").
Proof.
  split; [exact derive_output_key_total|].
  split.
  { intros lim sizes_str tr src_key width (widths & Hrun & Hin).
    rewrite parse_sizes_run in Hrun. cbn [fst] in Hrun. injection Hrun as <-.
    apply derive_output_key_total.
    pose proof (parsed_sizes_within_limit lim sizes_str) as Hall.
    rewrite Forall_forall in Hall. now apply Hall. }
  split.
  { intros lim segment width Hlim Hs Hd.
    rewrite (derive_output_key_flat lim segment width Hlim Hs), (split_no_sep "." segment Hd).
    reflexivity. }
  split.
  { intros lim prefix segment width Hlim Hs Hd.
    rewrite (derive_output_key_in_dir lim prefix segment width Hlim Hs),
      (split_no_sep "." segment Hd).
    reflexivity. }
  split.
  { intros lim prefix rest width Hlim Hr.
    rewrite (derive_output_key_in_dir lim prefix ("." +:+ rest) width Hlim Hr).
    reflexivity. }
  split.
  { intros lim rest width Hlim Hr.
    rewrite (derive_output_key_flat lim ("." +:+ rest) width Hlim Hr).
    reflexivity. }
  intros lim Hlim.
  assert (H128 : within_digit_limit lim 128)
    by (apply (short_int_within_limit lim 128 Hlim); reflexivity).
  split.
  - exact (derive_output_key_flat lim "cat" 128 H128 eq_refl).
  - exact (derive_output_key_in_dir lim "uploads" ".hidden" 128 H128 eq_refl).
Qed.

Lemma derive_output_key_total_edge_cases_witness :
  (exists k, derive_output_key 4300 "a.b/c.d/e" (10 ^ 4299 - 1) = Ok k) /\
  (exists k, derive_output_key 4300 "in/photo.jpg" 512 = Ok k) /\
  derive_output_key 4300 ("2024/raw" +:+ "/" +:+ "README") 64 =
  Ok ("2024/raw" +:+ "/" +:+ "README" +:+ "_" +:+ str_of_int 64 +:+ "w.webp") /\
  derive_output_key 4300 "cat" 128 = Ok "cat_128w.webp" /\
  derive_output_key 4300 "uploads/.hidden" 128 = Ok "uploads/_128w.webp".
Proof.
  pose proof derive_output_key_total_edge_cases
    as (Htotal & Hparsed & _ & Hdir & _ & _ & Hexamples).
  split.
  { apply (Htotal 4300%nat). right. vm_compute. lia. }
  split.
  { apply (Hparsed 4300%nat "512, 128" []). exists [128; 512].
    split; [vm_compute; reflexivity|]. right. left. }
  split.
  { apply (Hdir 4300%nat "2024/raw" "README" 64); [right; vm_compute; lia | reflexivity..]. }
  apply (Hexamples 4300%nat). right. lia.
Defined.

(** ** Runs of the pipeline *)

Ltac unfold_M :=
  unfold mbind, M_bind, bind, mret, M_ret, ret, lift, raise, try_except,
    tell, call, with_trace, put_metric, any_exception in *.

Lemma uploads_app (a b : list event) : uploads (a ++ b) = uploads a ++ uploads b.
Proof. apply omap_app. Qed.

Section Runs.

Context {World : Type} (E : env World).

Lemma process_width_skip (img : image) (object_key : pyval) (output_bucket : option string)
    (quality_int : Z) (acc : Z * list Z) (width : Z) (st : state World) :
  img_width img <= width ->
  process_width E img object_key output_bucket quality_int acc width st =
  (Ok acc, State (world st) (events st ++ [skip_event object_key img width])).
Proof.
  intros Hle. unfold process_width. destruct acc as [total generated].
  apply Z.leb_le in Hle. rewrite Hle. reflexivity.
Qed.

Lemma derive_output_key_dyn_Ok (lim : nat) (object_key : pyval) (width : Z)
    (dest_key : string) :
  derive_output_key_dyn lim object_key width = Ok dest_key ->
  py_str_int lim width = Ok (str_of_int width).
Proof.
  intros H. destruct (py_str_int lim width) as [text|e] eqn:Hstr.
  - apply py_str_int_inv in Hstr as [-> _]. reflexivity.
  - exfalso. destruct object_key; try discriminate H.
    cbn [derive_output_key_dyn] in H. unfold derive_output_key in H. rewrite Hstr in H.
    destruct (contains "/" _); [destruct (rsplit1 "/" _) as [|? [|? [|? ?]]]|];
      try discriminate H; destruct (split "." _); discriminate H.
Qed.

(** What a step of the loop that returns went through. *)
Lemma process_width_inv (img : image) (object_key : pyval) (output_bucket : option string)
    (quality_int : Z) (total : Z) (generated : list Z) (width : Z) (st st' : state World)
    (acc' : Z * list Z) :
  process_width E img object_key output_bucket quality_int (total, generated) width st
  = (Ok acc', st') ->
  (img_width img <= width /\ acc' = (total, generated) /\
   st' = State (world st) (events st ++ [skip_event object_key img width])) \/
  (width < img_width img /\
   exists (height : Z) (resized : image) (data : bytes) (dest_key : string) (w1 w2 w3 : World),
     acc' = (total + len data, generated ++ [width]) /\
     scaled_height (img_width img) (img_height img) width = Ok height /\
     image_resize E img width height (world st) = (Ok resized, w1) /\
     image_save_webp E resized quality_int w1 = (Ok data, w2) /\
     derive_output_key_dyn (int_max_str_digits E) object_key width = Ok dest_key /\
     s3_put_object E output_bucket dest_key data "image/webp"
       [("source", object_key); ("size", PStr (str_of_int width))] w2 = (Ok tt, w3) /\
     st' = State w3 (events st ++
       [EvResize width height true; EvSave quality_int true;
        EvPutObject output_bucket dest_key "image/webp"
          [("source", object_key); ("size", PStr (str_of_int width))] true])).
Proof.
  unfold process_width.
  destruct (img_width img <=? width) eqn:Hle.
  - apply Z.leb_le in Hle. unfold_M. simpl. intros H. injection H as <- <-. left. auto.
  - apply Z.leb_gt in Hle. intros H. right. split; [assumption|].
    unfold_M.
    destruct (scaled_height _ _ _) as [height|e]; [|discriminate].
    destruct (image_resize E img width height (world st)) as [[resized|e] w1] eqn:Hresize;
      [|discriminate].
    simpl in H.
    destruct (image_save_webp E resized quality_int w1) as [[data|e] w2] eqn:Hsave;
      [|discriminate].
    simpl in H.
    destruct (derive_output_key_dyn (int_max_str_digits E) object_key width)
      as [dest_key|e] eqn:Hkey; [|discriminate].
    rewrite (derive_output_key_dyn_Ok _ _ _ _ Hkey) in H.
    destruct (s3_put_object E output_bucket dest_key data _ _ w2) as [[[]|e] w3] eqn:Hput;
      simpl in H; [|discriminate].
    injection H as <- <-. exists height, resized, data, dest_key, w1, w2, w3.
    rewrite <- !app_assoc. simpl. auto 10.
Qed.

Lemma process_width_Ok (img : image) (object_key : pyval) (output_bucket : option string)
    (quality_int : Z) (total : Z) (generated : list Z) (width : Z) (st st' : state World)
    (acc' : Z * list Z) :
  process_width E img object_key output_bucket quality_int (total, generated) width st
  = (Ok acc', st') ->
  (img_width img <= width /\ acc' = (total, generated) /\
   events st' = events st ++ [skip_event object_key img width]) \/
  (width < img_width img /\
   exists (n height : Z) (dest_key : string),
     acc' = (total + n, generated ++ [width]) /\
     scaled_height (img_width img) (img_height img) width = Ok height /\
     derive_output_key_dyn (int_max_str_digits E) object_key width = Ok dest_key /\
     events st' = events st ++
       [EvResize width height true; EvSave quality_int true;
        EvPutObject output_bucket dest_key "image/webp"
          [("source", object_key); ("size", PStr (str_of_int width))] true]).
Proof.
  intros H. apply process_width_inv in H
    as [(Hle & -> & ->) | (Hlt & h & r & data & dk & w1 & w2 & w3 & -> & Hh & _ & _ & Hk & _ & ->)].
  - left. auto.
  - right. split; [assumption|]. exists (len data), h, dk. auto.
Qed.

(** The worlds that a loop that returns went through. *)
Lemma process_widths_run (img : image) (object_key : pyval) (output_bucket : option string)
    (quality_int : Z) (widths : list Z) :
  forall (total : Z) (generated : list Z) (st st' : state World) (acc' : Z * list Z),
    for_loop widths (process_width E img object_key output_bucket quality_int)
      (total, generated) st = (Ok acc', st') ->
    exists datas : list bytes,
      fst acc' = total + total_len datas /\
      encoded_along E img object_key output_bucket quality_int (world st)
        (filter (fun w => w < img_width img) widths) datas (world st').
Proof.
  induction widths as [|width widths IH]; intros total generated st st' acc'; cbn [for_loop].
  - unfold ret. intros H. injection H as <- <-. exists []. split; [cbn; lia | reflexivity].
  - unfold bind at 1.
    destruct (process_width E img object_key output_bucket quality_int (total, generated) width st)
      as [[acc1|e] st1] eqn:Hstep; cbv beta iota; [|discriminate].
    intros Hrest. destruct acc1 as [total1 generated1].
    apply IH in Hrest as (datas & Htotal & Hchain).
    apply process_width_inv in Hstep
      as [(Hle & [= -> ->] & ->)
         | (Hlt & h & r & data & dk & w1 & w2 & w3 & [= -> ->] & Hh & Hr & Hs & Hk & Hp & ->)].
    + rewrite filter_cons_False by lia. exists datas. split; assumption.
    + rewrite filter_cons_True by lia. exists (data :: datas). split.
      * rewrite Htotal. change (total_len (data :: datas)) with (len data + total_len datas).
        lia.
      * cbn [encoded_along]. exists h, r, dk, w1, w2, w3. auto 10.
Qed.

Lemma process_widths_Ok (img : image) (object_key : pyval) (output_bucket : option string)
    (quality_int : Z) (widths : list Z) :
  forall (total : Z) (generated : list Z) (st st' : state World) (acc' : Z * list Z),
    for_loop widths (process_width E img object_key output_bucket quality_int)
      (total, generated) st = (Ok acc', st') ->
    snd acc' = generated ++ filter (fun w => w < img_width img) widths /\
    exists new, events st' = events st ++ new /\
                uploads new = map uploaded (filter (fun w => w < img_width img) widths).
Proof.
  induction widths as [|width widths IH]; intros total generated st st' acc'; cbn [for_loop].
  - unfold ret. intros H. injection H as <- <-. simpl. rewrite app_nil_r. split; [reflexivity|].
    exists []. rewrite app_nil_r. auto.
  - unfold bind at 1.
    destruct (process_width E img object_key output_bucket quality_int (total, generated) width st)
      as [[acc1|e] st1] eqn:Hstep; cbv beta iota; [|discriminate].
    intros Hrest. destruct acc1 as [total1 generated1].
    apply IH in Hrest as [Hgen (new & Hev & Hup)].
    apply process_width_Ok in Hstep as [(Hle & [= -> ->] & Hev1) | (Hlt & n & h & dk & [= -> ->] & _ & _ & Hev1)].
    + rewrite filter_cons_False by lia. split; [assumption|].
      exists (skip_event object_key img width :: new).
      rewrite Hev, Hev1, <- app_assoc. auto.
    + rewrite filter_cons_True by lia. rewrite Hgen, <- app_assoc. split; [reflexivity|].
      eexists. rewrite Hev, Hev1, <- app_assoc. split; [reflexivity|].
      simpl. rewrite Hup. reflexivity.
Qed.

Lemma process_widths_all_skipped (img : image) (object_key : pyval)
    (output_bucket : option string) (quality_int : Z) (widths : list Z) :
  forall (acc : Z * list Z) (st : state World),
    Forall (fun w => img_width img <= w) widths ->
    for_loop widths (process_width E img object_key output_bucket quality_int) acc st =
    (Ok acc, State (world st) (events st ++ map (skip_event object_key img) widths)).
Proof.
  induction widths as [|width widths IH]; intros acc st Hall; cbn [for_loop].
  - unfold ret. rewrite app_nil_r. destruct st; reflexivity.
  - apply Forall_cons in Hall as [Hle Hall].
    unfold bind. rewrite process_width_skip by assumption.
    rewrite IH by assumption. simpl. rewrite <- app_assoc. reflexivity.
Qed.

End Runs.

(** *** Computations that only append events satisfying a predicate *)

Section Appends.

Context {World : Type} (P : event -> Prop).

Lemma appends_ret {A : Type} (a : A) : appends (World := World) P (mret a).
Proof. intros st. exists []. simpl. rewrite app_nil_r. auto. Qed.

Lemma appends_lift {A : Type} (r : result A) : appends (World := World) P (lift r).
Proof. intros st. exists []. simpl. rewrite app_nil_r. auto. Qed.

Lemma appends_raise {A : Type} (e : exn) : appends (World := World) P (@raise _ A e).
Proof. intros st. exists []. simpl. rewrite app_nil_r. auto. Qed.

Lemma appends_tell (e : event) : P e -> appends (World := World) P (tell e).
Proof. intros He st. exists [e]. simpl. auto. Qed.

Lemma appends_call {A : Type} (f : World -> result A * World) (ev : bool -> event) :
  (forall ok, P (ev ok)) -> appends (World := World) P (call f ev).
Proof.
  intros Hev st. unfold call. destruct (f (world st)) as [r w']. simpl.
  exists [ev (is_ok r)]. auto.
Qed.

Lemma appends_bind {A B : Type} (m : M (state World) A) (k : A -> M (state World) B) :
  appends (World := World) P m -> (forall a, appends (World := World) P (k a)) -> appends (World := World) P (m ≫= k).
Proof.
  intros Hm Hk st. unfold mbind, M_bind, bind.
  destruct (Hm st) as (new1 & Hev1 & HP1).
  destruct (m st) as [[a|e] st1]; simpl in *.
  - destruct (Hk a st1) as (new2 & Hev2 & HP2).
    exists (new1 ++ new2). rewrite Hev2, Hev1, app_assoc. split; [reflexivity|].
    apply Forall_app; auto.
  - exists new1. auto.
Qed.

Lemma appends_try_except {A : Type} (body : M (state World) A) (catches : exn -> bool)
    (handler : exn -> M (state World) A) :
  appends (World := World) P body -> (forall e, appends (World := World) P (handler e)) -> appends (World := World) P (try_except body catches handler).
Proof.
  intros Hm Hk st. unfold try_except.
  destruct (Hm st) as (new1 & Hev1 & HP1).
  destruct (body st) as [[a|e] st1]; simpl in *.
  - exists new1. auto.
  - destruct (catches e); [|exists new1; auto].
    destruct (Hk e st1) as (new2 & Hev2 & HP2).
    exists (new1 ++ new2). rewrite Hev2, Hev1, app_assoc. split; [reflexivity|].
    apply Forall_app; auto.
Qed.

Lemma appends_for_loop {X Acc : Type} (xs : list X) (body : Acc -> X -> M (state World) Acc) :
  (forall acc x, appends (World := World) P (body acc x)) -> forall acc, appends (World := World) P (for_loop xs body acc).
Proof.
  intros Hbody. induction xs as [|x xs IH]; intros acc; cbn [for_loop].
  - apply (appends_ret acc).
  - apply (appends_bind (body acc x) (for_loop xs body)); auto.
Qed.

Lemma appends_parse_sizes (lim : nat) (sizes_str : string) :
  (forall level fmt args, P (EvLog level fmt args)) ->
  appends (World := World) P (with_trace (parse_sizes lim sizes_str)).
Proof.
  intros Hlog st. unfold with_trace. rewrite parse_sizes_run. simpl.
  exists (parse_warnings lim sizes_str). split; [reflexivity|].
  unfold parse_warnings. apply Forall_concat, Forall_map, Forall_forall.
  intros part _. unfold token_warning.
  destruct (is_empty (strip part)); simpl; [constructor|].
  destruct (py_int_str lim (strip part)); repeat constructor. apply Hlog.
Qed.

End Appends.

Section RunsOfProcessImage.

Context {World : Type} (E : env World).

Lemma process_image_saves_with (input_bucket object_key : pyval)
    (output_bucket : option string) (sizes_str : string) (quality : pyval) :
  appends (saves_with (coerce_quality (int_max_str_digits E) quality))
    (process_image E input_bucket object_key output_bucket sizes_str quality).
Proof.
  unfold process_image.
  repeat first
    [ apply appends_bind; [|intros ?]
    | apply appends_try_except; [|intros ?]
    | apply appends_call; intros ?; exact I
    | apply appends_tell; exact I
    | apply appends_raise
    | apply appends_lift
    | apply appends_parse_sizes; intros; exact I
    | apply appends_for_loop; intros [? ?] ?; unfold process_width;
      destruct (_ <=? _)
    | match goal with |- appends _ (let '(_, _) := ?x in _) => destruct x end
    | apply appends_call; intros ?; reflexivity
    | apply (appends_ret (saves_with _)) ].
Qed.

End RunsOfProcessImage.

Lemma str_of_int_inj (a b : Z) : str_of_int a = str_of_int b -> a = b.
Proof.
  unfold str_of_int. intros H.
  assert (Hnil : forall z, Z.to_int z <> Decimal.Pos Decimal.Nil /\
                           Z.to_int z <> Decimal.Neg Decimal.Nil).
  { intros z. split; intros Hz; pose proof (f_equal Z.of_int Hz) as Hz0;
      rewrite DecimalZ.of_to in Hz0; subst z; discriminate. }
  apply (f_equal NilZero.int_of_string) in H.
  rewrite !NilZero.isi in H by apply Hnil.
  injection H as H. apply (f_equal Z.of_int) in H. now rewrite !DecimalZ.of_to in H.
Qed.

Lemma uploaded_inj (a b : Z) : uploaded a = uploaded b -> a = b.
Proof. unfold uploaded. intros [= H]. now apply str_of_int_inj. Qed.

Section ProcessImage.

Context {World : Type} (E : env World).

Let lim := int_max_str_digits E.

(** The run in which the source is fetched and decoded and no requested
    width is below the image width. *)
Lemma process_image_all_skipped (input_bucket object_key : pyval)
    (output_bucket : option string) (sizes_str : string) (quality : pyval)
    (st : state World) (t0 t1 : spec_float) (w0 w1 w2 w3 : World)
    (body : bytes) (img : image) (d : Z) :
  perf_counter E (world st) = (t0, w0) ->
  s3_get_object E input_bucket object_key w0 = (Ok body, w1) ->
  image_open E body w1 = (Ok img, w2) ->
  perf_counter E w2 = (t1, w3) ->
  elapsed_ms t0 t1 = Ok d ->
  Forall (fun w => img_width img <= w) (parsed_sizes lim sizes_str) ->
  process_image E input_bucket object_key output_bucket sizes_str quality st =
  (Ok {| sizes := []; input_size := len body; output_size := 0; duration_ms := d |},
   State w3 (events st ++
             [EvPerfCounter; EvGetObject input_bucket object_key true; EvImageOpen true] ++
             parse_warnings lim sizes_str ++
             map (skip_event object_key img) (parsed_sizes lim sizes_str) ++
             [EvPerfCounter])).
Proof.
  intros H0 H1 H2 H3 H4 Hall.
  unfold process_image. unfold_M. rewrite H0. simpl. rewrite H1. simpl. rewrite H2. simpl.
  rewrite parse_sizes_run. fold lim.
  rewrite process_widths_all_skipped by exact Hall. simpl.
  rewrite H3. simpl. rewrite H4.
  rewrite <- !app_assoc. reflexivity.
Qed.

(** What a successful run of [process_image] went through: the worlds of
    its calls, from the first clock reading to the last, and its trace. *)
Lemma process_image_Ok (input_bucket object_key : pyval)
    (output_bucket : option string) (sizes_str : string) (quality : pyval)
    (st st' : state World) (res : processing_result) :
  process_image E input_bucket object_key output_bucket sizes_str quality st = (Ok res, st') ->
  exists (t0 t1 : spec_float) (w0 w1 w2 w3 : World) (body : bytes) (img : image)
         (datas : list bytes) (new : list event),
    perf_counter E (world st) = (t0, w0) /\
    s3_get_object E input_bucket object_key w0 = (Ok body, w1) /\
    image_open E body w1 = (Ok img, w2) /\
    encoded_along E img object_key output_bucket (coerce_quality lim quality)
      w2 (sizes res) datas w3 /\
    perf_counter E w3 = (t1, world st') /\
    elapsed_ms t0 t1 = Ok (duration_ms res) /\
    input_size res = len body /\
    output_size res = total_len datas /\
    sizes res = filter (fun w => w < img_width img) (parsed_sizes lim sizes_str) /\
    events st' = events st ++ new /\
    uploads new = map uploaded (sizes res).
Proof.
  unfold process_image. unfold_M.
  destruct (perf_counter E (world st)) as [t0 w0] eqn:Hstart. simpl.
  destruct (s3_get_object E input_bucket object_key w0) as [[body|e] w1] eqn:Hget; simpl;
    [|discriminate].
  destruct (image_open E body w1) as [[img|e] w2] eqn:Hopen; simpl; [|discriminate].
  rewrite parse_sizes_run. fold lim.
  match goal with |- context [for_loop ?ws ?f ?a ?s] =>
    destruct (for_loop ws f a s) as [[[total generated]|e] st1] eqn:Hloop end;
    [|discriminate].
  pose proof Hloop as Hrun.
  apply process_widths_run in Hrun as (datas & Htotal & Hchain). cbn [fst world] in Htotal, Hchain.
  apply process_widths_Ok in Hloop as [Hgen (new & Hev & Hup)]. simpl in Hgen, Hev.
  destruct (perf_counter E (world st1)) as [t1 w3] eqn:Hstop. simpl.
  destruct (elapsed_ms t0 t1) as [d|e] eqn:Hd; [|discriminate].
  intros H. injection H as <- <-. cbn [sizes input_size output_size duration_ms world events].
  exists t0, t1, w0, w1, w2, (world st1), body, img, datas. eexists.
  split; [reflexivity|]. split; [exact Hget|]. split; [exact Hopen|].
  split; [rewrite Hgen; exact Hchain|]. split; [exact Hstop|]. split; [exact Hd|].
  split; [reflexivity|]. split; [rewrite Htotal; apply Z.add_0_l|].
  split; [exact Hgen|]. rewrite Hev, <- !app_assoc. split; [reflexivity|].
  rewrite !uploads_app, Hup, Hgen. simpl.
  assert (Hw : uploads (parse_warnings lim sizes_str) = []).
  { unfold parse_warnings. induction (split "," sizes_str) as [|part parts IH]; [reflexivity|].
    simpl. rewrite uploads_app, IH, app_nil_r. unfold token_warning.
    destruct (is_empty (strip part)); simpl; [reflexivity|].
    destruct (py_int_str lim (strip part)); reflexivity. }
  rewrite Hw, app_nil_r. reflexivity.
Qed.

End ProcessImage.

Lemma StronglySorted_filter (P : Z -> Prop) `{!forall x, Decision (P x)} (l : list Z) :
  StronglySorted Z.lt l -> StronglySorted Z.lt (filter P l).
Proof.
  induction 1 as [|x l Hs IH Hall]; [constructor|].
  destruct (decide (P x)) as [Hx|Hx].
  - rewrite filter_cons_True by assumption. constructor; [assumption|].
    rewrite Forall_forall in *. intros y Hy. apply list_elem_of_filter in Hy as [_ Hy]. auto.
  - rewrite filter_cons_False by assumption. assumption.
Qed.

Lemma uploads_no_derivative (evs : list event) :
  Forall (fun e => is_derivative_event e = false) evs -> uploads evs = [].
Proof.
  induction 1 as [|e evs He _ IH]; [reflexivity|].
  destruct e; try discriminate He; exact IH.
Qed.

(** C4. The pipeline never upscales. A requested width that is not below
    the image width is skipped: the loop step returns with both accumulators
    and the world unchanged, having only logged. When the source is fetched
    and decoded and every parsed width is at least the image width,
    [process_image] returns a result with no produced width and no output
    byte, and the trace of the run holds no resize, encode or upload call. *)
Theorem skips_widths_not_below_image_width {World : Type} (E : env World) :
  (forall (img : image) (object_key : pyval) (output_bucket : option string)
          (quality_int : Z) (acc : Z * list Z) (width : Z) (st : state World),
      img_width img <= width ->
      process_width E img object_key output_bucket quality_int acc width st =
      (Ok acc, State (world st) (events st ++ [skip_event object_key img width]))) /\
  (forall (input_bucket object_key : pyval) (output_bucket : option string)
          (sizes_str : string) (quality : pyval) (st : state World)
          (t0 t1 : spec_float) (w0 w1 w2 w3 : World) (body : bytes) (img : image) (d : Z),
      perf_counter E (world st) = (t0, w0) ->
      s3_get_object E input_bucket object_key w0 = (Ok body, w1) ->
      image_open E body w1 = (Ok img, w2) ->
      perf_counter E w2 = (t1, w3) ->
      elapsed_ms t0 t1 = Ok d ->
      (forall tr w, fst (parse_sizes (int_max_str_digits E) sizes_str tr) = Ok w ->
                    Forall (fun width => img_width img <= width) w) ->
      exists (st' : state World) (new : list event),
        process_image E input_bucket object_key output_bucket sizes_str quality st =
        (Ok {| sizes := []; input_size := len body; output_size := 0; duration_ms := d |}, st') /\
        events st' = events st ++ new /\
        Forall (fun e => is_derivative_event e = false) new /\
        uploads new = []).
Proof.
  split; [intros; now apply process_width_skip|].
  intros input_bucket object_key output_bucket sizes_str quality st t0 t1 w0 w1 w2 w3
    body img d H0 H1 H2 H3 H4 Hall.
  specialize (Hall [] _ (f_equal fst (parse_sizes_run _ sizes_str []))).
  rewrite (process_image_all_skipped E input_bucket object_key output_bucket sizes_str quality
             st t0 t1 w0 w1 w2 w3 body img d H0 H1 H2 H3 H4 Hall).
  eexists. eexists. split; [reflexivity|].
  cbn [events]. split; [reflexivity|].
  assert (Hw : Forall (fun e => is_derivative_event e = false)
                 (parse_warnings (int_max_str_digits E) sizes_str)).
  { unfold parse_warnings. apply Forall_concat, Forall_map, Forall_forall.
    intros part _. unfold token_warning.
    destruct (is_empty (strip part)); simpl; [constructor|].
    destruct (py_int_str _ (strip part)); repeat constructor. }
  assert (Hs : Forall (fun e => is_derivative_event e = false)
                 (map (skip_event object_key img) (parsed_sizes (int_max_str_digits E) sizes_str))).
  { apply Forall_map, Forall_forall. intros; reflexivity. }
  assert (Hnew : Forall (fun e => is_derivative_event e = false)
                   ([EvPerfCounter; EvGetObject input_bucket object_key true; EvImageOpen true] ++
                    parse_warnings (int_max_str_digits E) sizes_str ++
                    map (skip_event object_key img)
                      (parsed_sizes (int_max_str_digits E) sizes_str) ++ [EvPerfCounter])).
  { repeat (apply Forall_app; split); try assumption; repeat constructor. }
  split; [exact Hnew|]. now apply uploads_no_derivative.
Qed.

(** Size spec "50000" against a 1024-wide image. *)
Lemma skips_widths_not_below_image_width_witness :
  exists (st' : state nat) (new : list event),
    process_image Demo.environment (PStr "in-bucket") (PStr "uploads/sample.jpg")
      (Some "out-bucket") "50000" (PStr "85") Demo.start =
    (Ok {| sizes := []; input_size := 4; output_size := 0; duration_ms := 3000 |}, st') /\
    events st' = events Demo.start ++ new /\
    Forall (fun e => is_derivative_event e = false) new /\
    uploads new = [].
Proof.
  apply (proj2 (skips_widths_not_below_image_width Demo.environment)
           (PStr "in-bucket") (PStr "uploads/sample.jpg") (Some "out-bucket") "50000" (PStr "85")
           Demo.start (S754_zero false) (S754_finite false 6755399441055744 (-51))
           1%nat 2%nat 3%nat 4%nat Demo.jpeg (Image 1024 768 []) 3000).
  - reflexivity.
  - reflexivity.
  - reflexivity.
  - vm_compute. reflexivity.
  - vm_compute. reflexivity.
  - intros tr w. rewrite parse_sizes_run. simpl. intros [= <-].
    vm_compute. repeat constructor. discriminate.
Defined.

(** C9. When [process_image] returns, the widths it reports are the parsed
    widths that are below the width of the source image, which is the image
    that [Image.open] decoded, in this run, from the body that [get_object]
    returned in this run; they come in the parsed order: a sublist of the
    parsed list, strictly ascending and without repetition, each one below
    the image width; and the uploads of the run are exactly one successful
    [put_object] per reported width, in that order, whose [size] metadata is
    that width. *)
Theorem produced_widths_are_the_uploaded_sublist {World : Type} (E : env World)
    (input_bucket object_key : pyval) (output_bucket : option string) (sizes_str : string)
    (quality : pyval) (st st' : state World) (res : processing_result) :
  process_image E input_bucket object_key output_bucket sizes_str quality st = (Ok res, st') ->
  exists (parsed : list Z) (t0 : spec_float) (w0 : World) (body : bytes) (w1 : World)
         (img : image) (w2 : World) (new : list event),
    (forall tr, fst (parse_sizes (int_max_str_digits E) sizes_str tr) = Ok parsed) /\
    perf_counter E (world st) = (t0, w0) /\
    s3_get_object E input_bucket object_key w0 = (Ok body, w1) /\
    image_open E body w1 = (Ok img, w2) /\
    sizes res `sublist_of` parsed /\
    StronglySorted Z.lt (sizes res) /\
    NoDup (sizes res) /\
    Forall (fun w => w < img_width img) (sizes res) /\
    (forall w, w ∈ sizes res <-> w ∈ parsed /\ w < img_width img) /\
    events st' = events st ++ new /\
    uploads new = map uploaded (sizes res) /\
    (forall a b, uploaded a = uploaded b -> a = b).
Proof.
  intros Hrun.
  apply process_image_Ok in Hrun
    as (t0 & t1 & w0 & w1 & w2 & w3 & body & img & datas & new &
        Hstart & Hget & Hopen & _ & _ & _ & _ & _ & Hsizes & Hev & Hup).
  exists (parsed_sizes (int_max_str_digits E) sizes_str), t0, w0, body, w1, img, w2, new.
  split; [intros tr; now rewrite parse_sizes_run|].
  split; [exact Hstart|]. split; [exact Hget|]. split; [exact Hopen|].
  rewrite Hsizes in *.
  split; [apply sublist_filter|].
  split; [apply StronglySorted_filter, StronglySorted_sorted_set|].
  split; [apply NoDup_filter, NoDup_sorted_set|].
  split; [apply Forall_forall; intros w Hw; now apply list_elem_of_filter in Hw|].
  split; [intros w; rewrite list_elem_of_filter; tauto|].
  split; [exact Hev|]. split; [exact Hup|]. exact uploaded_inj.
Qed.

(** Sizes "2048,512,128,512" against the 1024-wide image of the bucket. *)
Lemma produced_widths_are_the_uploaded_sublist_witness :
  exists (parsed : list Z) (t0 : spec_float) (w0 : nat) (body : bytes) (w1 : nat)
         (img : image) (w2 : nat) (new : list event),
    (forall tr, fst (parse_sizes 4300 "2048,512,128,512" tr) = Ok parsed) /\
    (binary_normalize 53 1024 0 0 false, 1%nat) = (t0, w0) /\
    Demo.get_object (PStr "in-bucket") (PStr "uploads/sample.jpg") w0 = (Ok body, w1) /\
    Demo.open body w1 = (Ok img, w2) /\
    [128; 512] `sublist_of` parsed /\
    StronglySorted Z.lt [128; 512] /\
    NoDup [128; 512] /\
    Forall (fun w => w < img_width img) [128; 512] /\
    (forall w, w ∈ [128; 512] <-> w ∈ parsed /\ w < img_width img) /\
    events (State 10%nat [EvPerfCounter; EvGetObject (PStr "in-bucket") (PStr "uploads/sample.jpg") true;
        EvImageOpen true; EvResize 128 96 true; EvSave 85 true;
        EvPutObject (Some "out-bucket") "uploads/sample_128w.webp" "image/webp"
          [("source", PStr "uploads/sample.jpg"); ("size", PStr "128")] true;
        EvResize 512 384 true; EvSave 85 true;
        EvPutObject (Some "out-bucket") "uploads/sample_512w.webp" "image/webp"
          [("source", PStr "uploads/sample.jpg"); ("size", PStr "512")] true;
        EvLog INFO "Skipping upscale for %s (original width %d <= target %d)"
          [PStr "uploads/sample.jpg"; PInt 1024; PInt 2048];
        EvPerfCounter]) = events Demo.start ++ new /\
    uploads new = map uploaded [128; 512] /\
    (forall a b, uploaded a = uploaded b -> a = b).
Proof.
  apply (produced_widths_are_the_uploaded_sublist Demo.environment
           (PStr "in-bucket") (PStr "uploads/sample.jpg") (Some "out-bucket")
           "2048,512,128,512" (PStr "85") Demo.start _
           {| sizes := [128; 512]; input_size := 4; output_size := 640; duration_ms := 9000 |}).
  vm_compute. reflexivity.
Defined.

(** C5 (as the code has it). The quality handed to the encoder is [int(quality)]
    whenever that conversion returns, whatever the value (no range is
    enforced), and 85 when the conversion raises; every encoding call of a
    run of [process_image], successful or not, is made with that quality. *)
Theorem quality_is_coerced_without_range_check {World : Type} (E : env World) :
  (forall (quality : pyval) (n : Z),
      py_int (int_max_str_digits E) quality = Ok n ->
      coerce_quality (int_max_str_digits E) quality = n) /\
  (forall (quality : pyval) (e : exn),
      py_int (int_max_str_digits E) quality = Raise e ->
      coerce_quality (int_max_str_digits E) quality = 85) /\
  (forall (input_bucket object_key : pyval) (output_bucket : option string)
          (sizes_str : string) (quality : pyval) (st : state World),
      exists new,
        events (snd (process_image E input_bucket object_key output_bucket sizes_str quality st))
        = events st ++ new /\
        forall q ok, EvSave q ok ∈ new -> q = coerce_quality (int_max_str_digits E) quality).
Proof.
  split; [|split].
  - intros quality n H. unfold coerce_quality. now rewrite H.
  - intros quality e H. unfold coerce_quality. now rewrite H.
  - intros input_bucket object_key output_bucket sizes_str quality st.
    destruct (process_image_saves_with E input_bucket object_key output_bucket sizes_str
                quality st) as (new & Hev & Hall).
    exists new. split; [exact Hev|].
    intros q ok Hin. rewrite Forall_forall in Hall. exact (Hall _ Hin).
Qed.

Lemma quality_is_coerced_without_range_check_witness :
  coerce_quality 4300 (PStr " 90 ") = 90 /\
  coerce_quality 4300 (PStr "best") = 85 /\
  coerce_quality 4300 (PStr "0") = 0.
Proof.
  pose proof (quality_is_coerced_without_range_check Demo.environment) as (Hok & Hraise & _).
  split; [|split].
  - apply (Hok (PStr " 90 ") 90). reflexivity.
  - apply (Hraise (PStr "best") (invalid_literal "best")). reflexivity.
  - apply (Hok (PStr "0") 0). reflexivity.
Defined.

(** The quality "150" is outside 1..100 and is used as it is. *)
Lemma out_of_range_quality_is_used :
  py_int 4300 (PStr "150") = Ok 150 /\
  ~ (1 <= 150 <= 100) /\
  coerce_quality 4300 (PStr "150") <> 85 /\
  EvSave 150 true ∈
    events (snd (process_image Demo.environment (PStr "in-bucket") (PStr "uploads/sample.jpg")
                   (Some "out-bucket") "128" (PStr "150") Demo.start)).
Proof.
  split; [reflexivity|]. split; [lia|]. split; [discriminate|].
  vm_compute. do 4 right. left.
Qed.

(** ** lambda_handler *)

Lemma well_shaped_bucket_and_key (record : pyval) :
  well_shaped record = true ->
  exists bucket key,
    bucket_and_key record = Ok (bucket, key) /\
    lacks_bucket_or_key record = negb (truthy bucket) || negb (truthy key).
Proof.
  unfold well_shaped, bucket_and_key, lacks_bucket_or_key, lacks.
  destruct record as [| | | | | |d]; try discriminate. simpl.
  destruct (assoc "s3" d) as [s3|]; simpl.
  - destruct s3 as [| | | | | |s3]; try discriminate. simpl.
    destruct (assoc "bucket" s3) as [b|]; simpl;
      [destruct b as [| | | | | |b]; try discriminate; simpl|];
      (destruct (assoc "object" s3) as [o|]; simpl;
       [destruct o as [| | | | | |o]; try discriminate; simpl|]);
      intros _;
      repeat match goal with |- context [assoc ?k ?l] => destruct (assoc k l) end;
      eauto.
  - intros _. eauto.
Qed.

Section Loop.

Context {S X Acc : Type} (body : Acc -> X -> M S Acc).

Lemma for_loop_app (xs ys : list X) (acc : Acc) (s : S) :
  for_loop (xs ++ ys) body acc s =
  match for_loop xs body acc s with
  | (Ok acc', s') => for_loop ys body acc' s'
  | (Raise e, s') => (Raise e, s')
  end.
Proof.
  revert acc s. induction xs as [|x xs IH]; intros acc s; [reflexivity|].
  cbn [for_loop app]. unfold bind.
  destruct (body acc x s) as [[acc1|e] s1]; [apply IH | reflexivity].
Qed.

Lemma for_loop_stops (xs ys : list X) (x : X) (acc acc1 : Acc) (s s1 s2 : S) (e : exn) :
  for_loop xs body acc s = (Ok acc1, s1) ->
  body acc1 x s1 = (Raise e, s2) ->
  for_loop (xs ++ x :: ys) body acc s = (Raise e, s2).
Proof.
  intros Hxs Hx. rewrite for_loop_app, Hxs. cbn [for_loop]. unfold bind. now rewrite Hx.
Qed.

End Loop.

Section Handler.

Context {World : Type} (E : env World) (cfg : config).

Lemma lambda_handler_run (event records : pyval) (items : list pyval)
    (function_name : string) (st : state World) :
  py_get event "Records" (PList []) = Ok records ->
  py_iter records = Ok items ->
  lambda_handler E cfg event function_name st =
  match records_loop E cfg items (State (world st) (events st ++ setup_events function_name)) with
  | (Ok _, st') => (Ok status_200, st')
  | (Raise e, st') => (Raise e, st')
  end.
Proof.
  intros Hget Hiter. unfold lambda_handler. unfold_M. simpl. rewrite Hget, Hiter.
  unfold records_loop, setup_events, status_200.
  replace ((events st ++ [EvSetNamespace "ImagePipeline"]) ++
           [EvPutDimensions [("FunctionName", PStr function_name)]])
    with (events st ++ [EvSetNamespace "ImagePipeline";
                        EvPutDimensions [("FunctionName", PStr function_name)]])
    by (rewrite <- app_assoc; reflexivity).
  reflexivity.
Qed.

Lemma handle_record_malformed (record bucket key : pyval) (st : state World) :
  bucket_and_key record = Ok (bucket, key) ->
  negb (truthy bucket) || negb (truthy key) = true ->
  handle_record E cfg record st =
  (Ok tt, State (world st) (events st ++ [malformed_log record])).
Proof.
  intros Hbk Hfalsy. unfold handle_record. unfold_M. rewrite Hbk, Hfalsy. reflexivity.
Qed.

Lemma records_loop_malformed (records : list pyval) (st : state World) :
  Forall (fun r => well_shaped r = true /\ lacks_bucket_or_key r = true) records ->
  records_loop E cfg records st =
  (Ok tt, State (world st) (events st ++ map malformed_log records)).
Proof.
  unfold records_loop. revert st.
  induction records as [|r records IH]; intros st Hall; cbn [for_loop].
  - unfold ret. rewrite app_nil_r. destruct st; reflexivity.
  - apply Forall_cons in Hall as [[Hshape Hlacks] Hall].
    destruct (well_shaped_bucket_and_key r Hshape) as (b & k & Hbk & Heq).
    rewrite Hlacks in Heq. unfold bind.
    rewrite (handle_record_malformed r b k st Hbk (eq_sym Heq)).
    rewrite (IH _ Hall). simpl. rewrite <- app_assoc. reflexivity.
Qed.

(** The [except Exception] block: it always ends by raising [exc] again. *)
Lemma on_failure_run (bucket key : pyval) (exc : exn) (st : state World) :
  on_failure E cfg bucket key exc st =
  (Raise exc,
   if is_configured (DLQ_URL cfg) then
     let url := default "" (DLQ_URL cfg) in
     let '(r, w') := sqs_send_message E url (failure_notice bucket key exc) (world st) in
     State w' (events st ++ [error_log bucket key exc;
                             EvSendMessage url (failure_notice bucket key exc) (is_ok r);
                             dlq_log bucket key r])
   else State (world st) (events st ++ [error_log bucket key exc])).
Proof.
  unfold on_failure, is_configured.
  destruct (DLQ_URL cfg) as [url|]; [|reflexivity].
  destruct (is_empty url); [reflexivity|].
  unfold_M. cbn [negb default from_option id events world].
  destruct (sqs_send_message E url (failure_notice bucket key exc) (world st))
    as [[[]|dlq_exc] w']; cbn [events world is_ok dlq_log];
    rewrite <- !app_assoc; reflexivity.
Qed.

Lemma handle_record_failure (record bucket key : pyval) (exc : exn) (st st1 : state World) :
  bucket_and_key record = Ok (bucket, key) ->
  truthy bucket = true -> truthy key = true ->
  process_record E cfg bucket key (State (world st) (events st ++ [start_log bucket key]))
  = (Raise exc, st1) ->
  handle_record E cfg record st = on_failure E cfg bucket key exc st1.
Proof.
  intros Hbk Hb Hk Hrun. unfold handle_record.
  unfold mbind at 1. unfold M_bind, bind, lift. rewrite Hbk, Hb, Hk. cbn [negb orb].
  unfold mbind at 1. unfold M_bind, bind, tell at 1. unfold try_except.
  unfold start_log in Hrun. rewrite Hrun. reflexivity.
Qed.

End Handler.

(** The records that the handler skips. A record that is a JSON object whose
    ["s3"], ["bucket"] and ["object"] members are objects where present, and
    that lacks the bucket name or the object key, is skipped: the loop step
    returns, the world is untouched and the trace gains one error log and
    nothing else (no call of [process_image], whose first act is a clock and
    a [get_object] call); the loop goes on with the records after it; and a
    batch made only of such records returns [{"statusCode": 200}]. *)
Theorem well_shaped_malformed_records_are_skipped {World : Type} (E : env World) (cfg : config) :
  (forall (record : pyval) (st : state World),
      well_shaped record = true -> lacks_bucket_or_key record = true ->
      handle_record E cfg record st =
      (Ok tt, State (world st) (events st ++ [malformed_log record]))) /\
  (forall (pre post : list pyval) (record : pyval) (st st1 : state World),
      well_shaped record = true -> lacks_bucket_or_key record = true ->
      records_loop E cfg pre st = (Ok tt, st1) ->
      records_loop E cfg (pre ++ record :: post) st =
      records_loop E cfg post (State (world st1) (events st1 ++ [malformed_log record]))) /\
  (forall (event : pyval) (records : list pyval) (function_name : string) (st : state World),
      py_get event "Records" (PList []) = Ok (PList records) ->
      Forall (fun r => well_shaped r = true /\ lacks_bucket_or_key r = true) records ->
      lambda_handler E cfg event function_name st =
      (Ok (PDict [("statusCode", PInt 200)]),
       State (world st) (events st ++ setup_events function_name ++ map malformed_log records))).
Proof.
  assert (Hskip : forall record st,
             well_shaped record = true -> lacks_bucket_or_key record = true ->
             handle_record E cfg record st =
             (Ok tt, State (world st) (events st ++ [malformed_log record]))).
  { intros record st Hshape Hlacks.
    destruct (well_shaped_bucket_and_key record Hshape) as (b & k & Hbk & Heq).
    rewrite Hlacks in Heq. now apply handle_record_malformed with (bucket := b) (key := k). }
  split; [exact Hskip|]. split.
  - intros pre post record st st1 Hshape Hlacks Hpre.
    unfold records_loop in *. rewrite for_loop_app, Hpre. cbn [for_loop]. unfold bind.
    rewrite (Hskip record st1 Hshape Hlacks). reflexivity.
  - intros event records function_name st Hget Hall.
    rewrite (lambda_handler_run E cfg event (PList records) records function_name st Hget eq_refl).
    rewrite (records_loop_malformed E cfg records _ Hall). cbn [world events].
    rewrite <- app_assoc. reflexivity.
Qed.

Lemma well_shaped_malformed_records_are_skipped_witness :
  lambda_handler Demo.environment Demo.cfg
    (Demo.s3_event [PDict []; PDict [("s3", PDict [("bucket", PDict [("name", PStr "")])])];
                    PDict [("s3", PDict [("bucket", PDict [("name", PStr "in-bucket")]);
                                         ("object", PDict [("key", PNone)])])]])
    "test-function" Demo.start =
  (Ok (PDict [("statusCode", PInt 200)]),
   State 0%nat
     ([] ++ setup_events "test-function" ++
      map malformed_log
        [PDict []; PDict [("s3", PDict [("bucket", PDict [("name", PStr "")])])];
         PDict [("s3", PDict [("bucket", PDict [("name", PStr "in-bucket")]);
                              ("object", PDict [("key", PNone)])])]])).
Proof.
  apply (proj2 (proj2 (well_shaped_malformed_records_are_skipped Demo.environment Demo.cfg))).
  - reflexivity.
  - repeat constructor.
Defined.

(** C6 (where the code departs from it). A record whose ["s3"] member is
    [null] lacks the bucket name and the object key, and the handler does
    not skip it: [None.get] at line 78 raises [AttributeError] outside the
    [try] of the record, so the loop step raises without logging the record,
    and [lambda_handler] raises on a batch that starts with such a record,
    whatever follows it, having called no collaborator and returned no
    status. The handler's comment at lines 81-83 says that such records are
    skipped instead. *)
Theorem null_s3_member_fails_the_batch {World : Type} (E : env World) (cfg : config)
    (post : list pyval) (function_name : string) (st : state World) :
  lacks_bucket_or_key (PDict [("s3", PNone)]) = true /\
  handle_record E cfg (PDict [("s3", PNone)]) st =
  (Raise (AttributeError "'NoneType' object has no attribute 'get'"), st) /\
  lambda_handler E cfg (PDict [("Records", PList (PDict [("s3", PNone)] :: post))])
    function_name st =
  (Raise (AttributeError "'NoneType' object has no attribute 'get'"),
   State (world st) (events st ++ setup_events function_name)) /\
  lambda_handler Demo.environment Demo.cfg (Demo.s3_event [PDict [("s3", PNone)]])
    "test-function" Demo.start =
  (Raise (AttributeError "'NoneType' object has no attribute 'get'"),
   State 0%nat (setup_events "test-function")).
Proof.
  assert (Hstep : forall st1 : state World,
             handle_record E cfg (PDict [("s3", PNone)]) st1 =
             (Raise (AttributeError "'NoneType' object has no attribute 'get'"), st1)).
  { intros [w evs]. reflexivity. }
  split; [reflexivity|]. split; [apply Hstep|]. split; [|reflexivity].
  rewrite (lambda_handler_run E cfg (PDict [("Records", PList (PDict [("s3", PNone)] :: post))])
             (PList (PDict [("s3", PNone)] :: post))
             (PDict [("s3", PNone)] :: post) function_name st eq_refl eq_refl).
  unfold records_loop. cbn [for_loop]. unfold bind. rewrite Hstep. reflexivity.
Qed.

(** C7. When the processing of a record raises [exc], the loop step raises
    that same [exc], and so does [lambda_handler]. Before that the error is
    logged; with a dead-letter queue configured, one message holding the
    bucket, the key and [str(exc)] is sent, and whether that call returns or
    raises only decides which line is logged next: the exception raised is
    [exc] in both cases. Without a queue nothing is sent. *)
Theorem failure_is_reraised_after_best_effort_dlq {World : Type} (E : env World) (cfg : config)
    (record bucket key : pyval) (exc : exn) (st st1 : state World) :
  bucket_and_key record = Ok (bucket, key) ->
  truthy bucket = true -> truthy key = true ->
  process_record E cfg bucket key (State (world st) (events st ++ [start_log bucket key]))
  = (Raise exc, st1) ->
  exists st2 : state World,
    handle_record E cfg record st = (Raise exc, st2) /\
    (is_configured (DLQ_URL cfg) = false ->
     st2 = State (world st1) (events st1 ++ [error_log bucket key exc])) /\
    (forall url, DLQ_URL cfg = Some url -> is_empty url = false ->
       exists (r : result unit) (w' : World),
         sqs_send_message E url
           (PDict [("bucket", bucket); ("key", key); ("error", PStr (exn_text exc))])
           (world st1) = (r, w') /\
         st2 = State w' (events st1 ++
                         [error_log bucket key exc;
                          EvSendMessage url
                            (PDict [("bucket", bucket); ("key", key);
                                    ("error", PStr (exn_text exc))]) (is_ok r);
                          dlq_log bucket key r])) /\
    (forall (event : pyval) (function_name : string) (pre post : list pyval) (st0 : state World),
        py_get event "Records" (PList []) = Ok (PList (pre ++ record :: post)) ->
        records_loop E cfg pre (State (world st0) (events st0 ++ setup_events function_name))
        = (Ok tt, st) ->
        lambda_handler E cfg event function_name st0 = (Raise exc, st2)).
Proof.
  intros Hbk Hb Hk Hrun.
  pose proof (handle_record_failure E cfg record bucket key exc st st1 Hbk Hb Hk Hrun) as Hrec.
  rewrite on_failure_run in Hrec.
  eexists. split; [exact Hrec|]. split; [|split].
  - intros Hoff. rewrite Hoff. reflexivity.
  - intros url Hurl Hne. unfold is_configured. rewrite Hurl, Hne. cbn [negb default from_option id].
    fold (failure_notice bucket key exc).
    destruct (sqs_send_message E url (failure_notice bucket key exc) (world st1)) as [r w'].
    exists r, w'. split; reflexivity.
  - intros event function_name pre post st0 Hget Hpre.
    rewrite (lambda_handler_run E cfg event _ _ function_name st0 Hget eq_refl).
    unfold records_loop in *.
    rewrite (for_loop_stops _ pre post record tt tt _ st _ exc Hpre Hrec). reflexivity.
Qed.

(** A text file under a configured queue that rejects the message. *)
Lemma failure_is_reraised_after_best_effort_dlq_witness :
  let cfg := {| OUTPUT_BUCKET := Some "out-bucket"; THUMB_SIZES := "128";
                WEBP_QUALITY := "80"; DLQ_URL := Some "broken" |} in
  let record := Demo.s3_record "in-bucket" "uploads/readme.txt" in
  let exc := Exn "UnidentifiedImageError" "cannot identify image file" in
  fst (handle_record Demo.environment cfg record Demo.start) = Raise exc /\
  fst (lambda_handler Demo.environment cfg (Demo.s3_event [record]) "test-function" Demo.start)
  = Raise exc.
Proof.
  intros cfg record exc.
  destruct (failure_is_reraised_after_best_effort_dlq Demo.environment cfg record
              (PStr "in-bucket") (PStr "uploads/readme.txt") exc
              (State 0%nat (setup_events "test-function"))
              (State 3%nat
                 (setup_events "test-function" ++
                  [start_log (PStr "in-bucket") (PStr "uploads/readme.txt"); EvPerfCounter;
                   EvGetObject (PStr "in-bucket") (PStr "uploads/readme.txt") true;
                   EvImageOpen false;
                   EvLog ERROR "Unsupported or corrupt image file %s/%s: %s"
                     [PStr "in-bucket"; PStr "uploads/readme.txt";
                      PStr "cannot identify image file"]]))
              eq_refl eq_refl eq_refl eq_refl) as (st2 & Hrec & _ & _ & Hbatch).
  split.
  - reflexivity.
  - rewrite (Hbatch (Demo.s3_event [record]) "test-function" [] [] Demo.start eq_refl eq_refl).
    reflexivity.
Defined.

(** C8. The records are handled one after the other, in the order of the
    batch, each from the state the previous one left; when the step of a
    record raises, [lambda_handler] raises that exception in the state that
    step left, whatever records follow: nothing of them is processed. *)
Theorem stops_at_the_first_failing_record {World : Type} (E : env World) (cfg : config)
    (event : pyval) (function_name : string) (pre post : list pyval) (record : pyval)
    (exc : exn) (st st1 st2 : state World) :
  py_get event "Records" (PList []) = Ok (PList (pre ++ record :: post)) ->
  records_loop E cfg pre (State (world st) (events st ++ setup_events function_name))
  = (Ok tt, st1) ->
  handle_record E cfg record st1 = (Raise exc, st2) ->
  lambda_handler E cfg event function_name st = (Raise exc, st2) /\
  (forall post' : list pyval,
      lambda_handler E cfg (PDict [("Records", PList (pre ++ record :: post'))]) function_name st
      = (Raise exc, st2)) /\
  (forall (xs ys : list pyval) (s : state World),
      records_loop E cfg (xs ++ ys) s =
      match records_loop E cfg xs s with
      | (Ok _, s') => records_loop E cfg ys s'
      | (Raise e, s') => (Raise e, s')
      end) /\
  (forall (r : pyval) (rs : list pyval) (s : state World),
      records_loop E cfg (r :: rs) s =
      match handle_record E cfg r s with
      | (Ok _, s') => records_loop E cfg rs s'
      | (Raise e, s') => (Raise e, s')
      end).
Proof.
  intros Hget Hpre Hrec.
  assert (Hstop : forall post', records_loop E cfg (pre ++ record :: post')
                                  (State (world st) (events st ++ setup_events function_name))
                                = (Raise exc, st2)).
  { intros post'. unfold records_loop in *.
    exact (for_loop_stops _ pre post' record tt tt _ st1 st2 exc Hpre Hrec). }
  split; [|split; [|split]].
  - rewrite (lambda_handler_run E cfg event _ _ function_name st Hget eq_refl).
    now rewrite Hstop.
  - intros post'.
    rewrite (lambda_handler_run E cfg (PDict [("Records", PList (pre ++ record :: post'))])
               (PList (pre ++ record :: post')) _ function_name st eq_refl eq_refl).
    now rewrite Hstop.
  - intros xs ys s. unfold records_loop. rewrite for_loop_app.
    destruct (for_loop xs _ tt s) as [[[]|e] s']; reflexivity.
  - intros r rs s. unfold records_loop. cbn [for_loop]. unfold bind.
    destruct (handle_record E cfg r s) as [[[]|e] s']; reflexivity.
Qed.

(** A good record, then a text file, then a good record: the third one is
    never looked at. *)
Lemma stops_at_the_first_failing_record_witness :
  let good := Demo.s3_record "in-bucket" "uploads/sample.jpg" in
  let bad := Demo.s3_record "in-bucket" "uploads/readme.txt" in
  let st1 := snd (records_loop Demo.environment Demo.cfg [good]
                    (State 0%nat (setup_events "test-function"))) in
  let st2 := snd (handle_record Demo.environment Demo.cfg bad st1) in
  let exc := Exn "UnidentifiedImageError" "cannot identify image file" in
  lambda_handler Demo.environment Demo.cfg (Demo.s3_event [good; bad; good]) "test-function"
    Demo.start = (Raise exc, st2) /\
  lambda_handler Demo.environment Demo.cfg (Demo.s3_event [good; bad]) "test-function"
    Demo.start = (Raise exc, st2).
Proof.
  intros good bad st1 st2 exc.
  destruct (stops_at_the_first_failing_record Demo.environment Demo.cfg
              (Demo.s3_event [good; bad; good]) "test-function" [good] [good] bad exc
              Demo.start st1 st2 eq_refl eq_refl eq_refl) as (Hrun & Hany & _).
  split; [exact Hrun | exact (Hany [])].
Defined.

(** ** Binary64 arithmetic *)


Lemma digits2_pos_size (p : positive) : digits2_pos p = Pos.size p.
Proof. induction p; simpl; congruence. Qed.

Lemma digits2_pos_bounds (p : positive) :
  2 ^ (Zpos (digits2_pos p) - 1) <= Zpos p < 2 ^ Zpos (digits2_pos p).
Proof.
  induction p as [p IH|p IH|]; cbn [digits2_pos].
  - rewrite Pos2Z.inj_succ. replace (Z.succ (Zpos (digits2_pos p)) - 1) with (Zpos (digits2_pos p)) by lia.
    rewrite Z.pow_succ_r by lia.
    replace (Zpos (digits2_pos p)) with (Z.succ (Zpos (digits2_pos p) - 1)) in IH at 2 by lia.
    rewrite Z.pow_succ_r in IH by lia.
    replace (2 ^ Zpos (digits2_pos p)) with (2 * 2 ^ (Zpos (digits2_pos p) - 1)).
    2:{ rewrite <- Z.pow_succ_r by lia. f_equal. lia. }
    lia.
  - rewrite Pos2Z.inj_succ. replace (Z.succ (Zpos (digits2_pos p)) - 1) with (Zpos (digits2_pos p)) by lia.
    rewrite Z.pow_succ_r by lia.
    replace (Zpos (digits2_pos p)) with (Z.succ (Zpos (digits2_pos p) - 1)) in IH at 2 by lia.
    rewrite Z.pow_succ_r in IH by lia.
    replace (2 ^ Zpos (digits2_pos p)) with (2 * 2 ^ (Zpos (digits2_pos p) - 1)).
    2:{ rewrite <- Z.pow_succ_r by lia. f_equal. lia. }
    lia.
  - simpl. lia.
Qed.

Lemma digits2_pos_unique (p : positive) (d : Z) :
  2 ^ (d - 1) <= Zpos p < 2 ^ d -> Zpos (digits2_pos p) = d.
Proof.
  intros [Hlo Hhi]. pose proof (digits2_pos_bounds p) as [Hlo' Hhi'].
  assert (Hd : 0 < d).
  { destruct (Z.lt_trichotomy d 0) as [H|[H|H]]; [|subst d; simpl in Hhi; lia|assumption].
    rewrite Z.pow_neg_r in Hhi by assumption. lia. }
  destruct (Z.lt_trichotomy (Zpos (digits2_pos p)) d) as [H|[H|H]]; [|assumption|].
  - assert (2 ^ Zpos (digits2_pos p) <= 2 ^ (d - 1)) by (apply Z.pow_le_mono_r; lia). lia.
  - assert (2 ^ d <= 2 ^ (Zpos (digits2_pos p) - 1)) by (apply Z.pow_le_mono_r; lia). lia.
Qed.

Lemma shr_1_nonneg (m : Z) (r s : bool) :
  0 <= m -> shr_1 {| shr_m := m; shr_r := r; shr_s := s |} =
            {| shr_m := m / 2; shr_r := Z.odd m; shr_s := r || s |}.
Proof.
  intros Hm. destruct m as [|p|p]; [reflexivity| |lia].
  destruct p as [p|p|]; cbn [shr_1].
  - f_equal. rewrite Pos2Z.inj_xI. apply Z.div_unique with 1; lia.
  - f_equal. rewrite Pos2Z.inj_xO. apply Z.div_unique with 0; lia.
  - reflexivity.
Qed.

Lemma located_shr_1 (V den : Z) (mrs : shr_record) :
  located V den mrs -> located V (2 * den) (shr_1 mrs).
Proof.
  destruct mrs as [m r s]. intros (Hm & Hden & a & Ha & HV & Hr & Hs).
  cbn [shr_m shr_r shr_s] in *.
  rewrite shr_1_nonneg by assumption. unfold located. cbn [shr_m shr_r shr_s].
  pose proof (Z.div_mod m 2 ltac:(lia)) as Hdiv.
  pose proof (Z.mod_pos_bound m 2 ltac:(lia)) as Hmod.
  split; [apply Z.div_pos; lia|]. split; [lia|].
  exists ((m mod 2) * den + a).
  split; [nia|]. split; [nia|].
  rewrite Zmod_odd in *. unfold bits_ok in *.
  destruct (Z.odd m), r, s; cbn [orb]; split; split; intros H; try lia; try reflexivity;
    try (exfalso; lia);
    repeat match goal with
           | Hx : _ <-> _ |- _ => destruct Hx
           end; try lia.
Qed.

Lemma located_iter (p : positive) :
  forall (V den : Z) (mrs : shr_record),
    located V den mrs -> located V (den * 2 ^ Zpos p) (SpecFloat.iter_pos shr_1 p mrs).
Proof.
  induction p as [p IH|p IH|]; intros V den mrs H; cbn [SpecFloat.iter_pos].
  - replace (den * 2 ^ Zpos p~1) with (2 * den * 2 ^ Zpos p * 2 ^ Zpos p).
    + apply IH, IH, located_shr_1, H.
    + replace (Zpos p~1) with (Zpos p + Zpos p + 1) by lia.
      rewrite !Z.pow_add_r by lia. change (2 ^ 1) with 2. ring.
  - replace (den * 2 ^ Zpos p~0) with (den * 2 ^ Zpos p * 2 ^ Zpos p).
    + apply IH, IH, H.
    + replace (Zpos p~0) with (Zpos p + Zpos p) by lia.
      rewrite !Z.pow_add_r by lia. ring.
  - replace (den * 2 ^ 1) with (2 * den) by lia. apply located_shr_1, H.
Qed.

Lemma located_shr (V den : Z) (mrs : shr_record) (e n : Z) :
  0 <= n -> located V den mrs ->
  located V (den * 2 ^ n) (fst (shr mrs e n)) /\ snd (shr mrs e n) = e + n.
Proof.
  intros Hn H. destruct n as [|p|p]; [| |lia]; cbn [shr fst snd].
  - rewrite Z.mul_1_r, Z.add_0_r. auto.
  - split; [now apply located_iter | reflexivity].
Qed.

Lemma located_round (V den : Z) (mrs : shr_record) :
  located V den mrs ->
  let m := round_nearest_even (shr_m mrs) (loc_of_shr_record mrs) in
  shr_m mrs <= m <= shr_m mrs + 1 /\ 2 * Z.abs (m * den - V) <= den.
Proof.
  destruct mrs as [m r s]. intros (Hm & Hden & a & Ha & HV & Hr & Hs).
  cbn [shr_m shr_r shr_s] in *. unfold loc_of_shr_record, round_nearest_even.
  destruct r, s; destruct Hr as [Hr1 Hr2]; destruct Hs as [Hs1 Hs2];
    try destruct (Z.even m); split; try lia;
    try (assert (2 * a = den) by (destruct (Z.eq_dec a 0); [lia|];
         destruct (Z.eq_dec (2 * a) den); [lia|]; exfalso;
         assert (false = true) by (apply Hs2; auto); discriminate); nia);
    try (assert (den <= 2 * a) by (apply Hr1; reflexivity); nia);
    try (assert (a = 0) by (destruct (Z.eq_dec a 0); [lia|];
         destruct (Z.eq_dec (2 * a) den);
         [assert (false = true) by (apply Hr2; lia); discriminate
         |assert (false = true) by (apply Hs2; auto); discriminate]); nia);
    try (assert (2 * a < den) by (destruct (Z_lt_le_dec (2 * a) den); [lia|];
         assert (false = true) by (apply Hr2; lia); discriminate); nia).
Qed.

Lemma shr_m_of_loc (m : Z) (l : location) : shr_m (shr_record_of_loc m l) = m.
Proof. destruct l as [|[]]; reflexivity. Qed.

Lemma fexp_normal (x : Z) : -1074 <= x - 53 -> fexp 53 1024 x = x - 53.
Proof. intros H. unfold fexp, emin. lia. Qed.

Lemma pow2_split (d : Z) : 53 <= d -> 2 ^ d = 2 ^ 53 * 2 ^ (d - 53) /\ 2 ^ (d - 1) = 2 ^ 52 * 2 ^ (d - 53).
Proof.
  intros H. split.
  - rewrite <- Z.pow_add_r by lia. f_equal. lia.
  - rewrite <- Z.pow_add_r by lia. f_equal. lia.
Qed.

(** Rounding a located mantissa of at least 53 digits, away from the
    subnormal and the overflow range: the result is a normal float whose
    value is [m2] units of [2^(e+d-53)], at most half a unit from the value
    that was located. *)
Lemma binary_round_aux_located (sx : bool) (m : positive) (e : Z) (lx : location) (V den : Z) :
  let d := Zpos (digits2_pos m) in
  53 <= d -> -1074 <= d + e - 53 -> d + e <= 1023 ->
  located V den (shr_record_of_loc (Zpos m) lx) ->
  exists (mf : positive) (m2 c : Z),
    binary_round_aux 53 1024 sx (Zpos m) e lx = S754_finite sx mf (e + (d - 53) + c) /\
    (c = 0 \/ c = 1) /\ Zpos mf * 2 ^ c = m2 /\
    2 ^ 52 <= Zpos mf < 2 ^ 53 /\
    2 ^ 52 <= m2 <= 2 ^ 53 /\
    2 * Z.abs (m2 * (den * 2 ^ (d - 53)) - V) <= den * 2 ^ (d - 53).
Proof.
  intros d Hd Hlo Hhi Hloc.
  pose proof (digits2_pos_bounds m) as Hm. fold d in Hm.
  destruct (pow2_split d Hd) as [Hp1 Hp2]. rewrite Hp1, Hp2 in Hm.
  assert (Hpow : 0 < 2 ^ (d - 53)) by (apply Z.pow_pos_nonneg; lia).
  unfold binary_round_aux, shr_fexp.
  cbn [Zdigits2]. fold d. rewrite (fexp_normal (d + e)) by lia.
  replace (d + e - 53 - e) with (d - 53) by lia.
  destruct (located_shr V den (shr_record_of_loc (Zpos m) lx) e (d - 53) ltac:(lia) Hloc)
    as [Hloc1 He1].
  destruct (shr (shr_record_of_loc (Zpos m) lx) e (d - 53)) as [mrs1 e1].
  cbn [fst snd] in Hloc1, He1. subst e1.
  pose proof (located_round _ _ _ Hloc1) as Hround. cbv zeta in Hround.
  set (m2 := round_nearest_even (shr_m mrs1) (loc_of_shr_record mrs1)) in *.
  destruct Hround as [Hm2 Herr].
  (* the shifted mantissa has 53 digits *)
  assert (Hm1 : 2 ^ 52 <= shr_m mrs1 < 2 ^ 53).
  { destruct Hloc as (_ & Hden & a0 & Ha0 & HV0 & _). rewrite shr_m_of_loc in HV0.
    destruct Hloc1 as (_ & _ & a1 & Ha1 & HV1 & _).
    split.
    - assert ((shr_m mrs1 + 1) * (den * 2 ^ (d - 53)) > Zpos m * den) by nia.
      assert ((shr_m mrs1 + 1) * 2 ^ (d - 53) > Zpos m) by nia. nia.
    - assert (shr_m mrs1 * (den * 2 ^ (d - 53)) < (Zpos m + 1) * den) by nia.
      assert (shr_m mrs1 * 2 ^ (d - 53) < Zpos m + 1) by nia. nia. }
  assert (Hm2pos : 0 < m2) by lia.
  destruct m2 as [|p2|p2] eqn:Hp2'; [lia| |lia].
  destruct (Z.eq_dec (Zpos p2) (2 ^ 53)) as [Heq|Hne].
  - (* the rounding carried into the next binade *)
    assert (Hd2 : Zpos (digits2_pos p2) = 54) by (apply digits2_pos_unique; rewrite Heq; simpl; lia).
    cbn [Zdigits2]. rewrite Hd2. rewrite (fexp_normal (54 + (e + (d - 53)))) by lia.
    replace (54 + (e + (d - 53)) - 53 - (e + (d - 53))) with 1 by lia.
    assert (Hp2v : p2 = 9007199254740992%positive) by (injection Heq; auto).
    subst p2. cbn [shr_record_of_loc shr SpecFloat.iter_pos shr_1 shr_m].
    replace (e + (d - 53) + 1 <=? 1024 - 53) with true by (symmetry; apply Z.leb_le; lia).
    exists 4503599627370496%positive, (2 ^ 53), 1.
    split; [reflexivity|]. split; [auto|]. split; [reflexivity|].
    split; [simpl; lia|]. split; [lia|]. rewrite Heq in Herr. exact Herr.
  - assert (Hd2 : Zpos (digits2_pos p2) = 53) by (apply digits2_pos_unique; simpl; simpl in Hne; lia).
    cbn [Zdigits2]. rewrite Hd2. rewrite (fexp_normal (53 + (e + (d - 53)))) by lia.
    replace (53 + (e + (d - 53)) - 53 - (e + (d - 53))) with 0 by lia.
    cbn [shr_record_of_loc shr shr_m].
    replace (e + (d - 53) <=? 1024 - 53) with true by (symmetry; apply Z.leb_le; lia).
    exists p2, (Zpos p2), 0.
    split; [now rewrite Z.add_0_r|]. split; [auto|]. split; [simpl; lia|].
    split; [simpl in *; lia|]. split; [lia|]. exact Herr.
Qed.

Lemma iter_xO (d m : positive) : Zpos (Pos.iter xO m d) = Zpos m * 2 ^ Zpos d.
Proof.
  induction d as [|d IH] using Pos.peano_ind.
  - simpl. lia.
  - rewrite Pos.iter_succ, Pos2Z.inj_xO, IH, Pos2Z.inj_succ, Z.pow_succ_r by lia. ring.
Qed.

Lemma located_exact (m : Z) : 0 <= m -> located m 1 (shr_record_of_loc m loc_Exact).
Proof.
  intros Hm. unfold located, bits_ok. cbn. split; [assumption|]. split; [lia|].
  exists 0. repeat split; try lia; intros; try discriminate; lia.
Qed.

(** [float(n)] is exact below [2^53]: the mantissa is [n] shifted to 53
    digits. *)
Lemma float_of_int_exact (n : positive) :
  let d := Zpos (digits2_pos n) in
  Zpos n < 2 ^ 53 ->
  exists mf : positive,
    float_of_int (Zpos n) = Ok (S754_finite false mf (d - 53)) /\
    Zpos mf = Zpos n * 2 ^ (53 - d) /\ 2 ^ 52 <= Zpos mf < 2 ^ 53.
Proof.
  intros d Hn. pose proof (digits2_pos_bounds n) as Hb. fold d in Hb.
  assert (Hd : 1 <= d <= 53).
  { split; [unfold d; lia|].
    destruct (Z_le_gt_dec d 53) as [|Hgt]; [assumption|].
    assert (2 ^ 53 <= 2 ^ (d - 1)) by (apply Z.pow_le_mono_r; lia). lia. }
  unfold float_of_int, binary_normalize, binary_round.
  fold d. replace (d + 0) with d by lia. rewrite (fexp_normal d) by lia.
  assert (Hshl : exists mz : positive,
             shl_align n 0 (d - 53) = (mz, d - 53) /\ Zpos mz = Zpos n * 2 ^ (53 - d)).
  { unfold shl_align. replace (d - 53 - 0) with (d - 53) by lia.
    destruct (d - 53) as [|p|p] eqn:Hdp; [|lia|].
    - exists n. split; [reflexivity|]. replace (53 - d) with 0 by lia. simpl. lia.
    - eexists. split; [reflexivity|]. rewrite iter_xO. f_equal. f_equal. lia. }
  destruct Hshl as (mz & -> & Hmz).
  assert (Hmzb : 2 ^ 52 <= Zpos mz < 2 ^ 53).
  { rewrite Hmz.
    assert (H52 : 2 ^ 52 = 2 ^ (d - 1) * 2 ^ (53 - d))
      by (rewrite <- Z.pow_add_r by lia; f_equal; lia).
    assert (H53 : 2 ^ 53 = 2 ^ d * 2 ^ (53 - d))
      by (rewrite <- Z.pow_add_r by lia; f_equal; lia).
    assert (0 < 2 ^ (53 - d)) by (apply Z.pow_pos_nonneg; lia).
    rewrite H52, H53. nia. }
  assert (Hdz : Zpos (digits2_pos mz) = 53) by (apply digits2_pos_unique; simpl; lia).
  destruct (binary_round_aux_located false mz (d - 53) loc_Exact (Zpos mz) 1)
    as (mf & m2 & c & Hres & Hc & Hmf & Hmfb & Hm2 & Herr);
    try (rewrite Hdz; lia); [apply located_exact; lia|].
  rewrite Hdz in Hres, Herr. replace (53 - 53) with 0 in * by lia.
  change (2 ^ 0) with 1 in Herr. rewrite !Z.mul_1_r in Herr.
  assert (Hm2z : m2 = Zpos mz) by lia. rewrite Hm2z in Hmf.
  assert (c = 0).
  { destruct Hc as [->| ->]; [reflexivity|]. change (2 ^ 1) with 2 in Hmf. lia. }
  subst c. rewrite Z.mul_1_r in Hmf. injection Hmf as ->.
  rewrite Hres. replace (d - 53 + 0 + 0) with (d - 53) by lia.
  exists mz. auto.
Qed.

Lemma new_location_located (nb q r : Z) :
  0 <= q -> 0 <= r < nb ->
  located (q * nb + r) nb (shr_record_of_loc q (new_location nb r)).
Proof.
  intros Hq Hr. unfold located. rewrite shr_m_of_loc.
  split; [assumption|]. split; [lia|]. exists r. split; [assumption|]. split; [reflexivity|].
  unfold new_location, new_location_even, new_location_odd, bits_ok.
  destruct (Z.even nb) eqn:Hev.
  - destruct (r =? 0) eqn:Hr0; [apply Z.eqb_eq in Hr0|apply Z.eqb_neq in Hr0]; cbn.
    + repeat split; intros; try discriminate; lia.
    + destruct (Z.compare_spec (2 * r) nb); cbn; repeat split; intros; try discriminate; lia.
  - assert (Hodd : nb <> 2 * r).
    { intros ->. rewrite Z.even_mul in Hev. discriminate. }
    destruct (r =? 0) eqn:Hr0; [apply Z.eqb_eq in Hr0|apply Z.eqb_neq in Hr0]; cbn.
    + repeat split; intros; try discriminate; lia.
    + destruct (Z.compare_spec (2 * r + 1) nb); cbn; repeat split; intros; try discriminate; lia.
Qed.

(** The quotient of two normal doubles. *)
Lemma float_truediv_located (m1 m2 : positive) (e1 e2 : Z) :
  2 ^ 52 <= Zpos m1 < 2 ^ 53 -> 2 ^ 52 <= Zpos m2 < 2 ^ 53 ->
  -900 <= e1 - e2 <= 900 ->
  exists (mf : positive) (q2 n c : Z),
    float_truediv (S754_finite false m1 e1) (S754_finite false m2 e2) =
    Ok (S754_finite false mf (e1 - e2 - 53 + n + c)) /\
    (n = 0 \/ n = 1) /\ (c = 0 \/ c = 1) /\ Zpos mf * 2 ^ c = q2 /\
    2 ^ 52 <= Zpos mf < 2 ^ 53 /\ 2 ^ 52 <= q2 <= 2 ^ 53 /\
    2 * Z.abs (q2 * (Zpos m2 * 2 ^ n) - Zpos m1 * 2 ^ 53) <= Zpos m2 * 2 ^ n.
Proof.
  intros H1 H2 He.
  assert (Hd1 : Zpos (digits2_pos m1) = 53) by (apply digits2_pos_unique; simpl; lia).
  assert (Hd2 : Zpos (digits2_pos m2) = 53) by (apply digits2_pos_unique; simpl; lia).
  unfold float_truediv, SFdiv, SFdiv_core_binary. cbn [Zdigits2 xorb].
  rewrite Hd1, Hd2.
  replace (53 + e1 - (53 + e2)) with (e1 - e2) by lia.
  rewrite (fexp_normal (e1 - e2)) by lia.
  rewrite Z.min_l by lia.
  replace (e1 - e2 - (e1 - e2 - 53)) with 53 by lia.
  rewrite Z.shiftl_mul_pow2 by lia.
  pose proof (Z_div_mod (Zpos m1 * 2 ^ 53) (Zpos m2) ltac:(lia)) as Hdm.
  destruct (Z.div_eucl (Zpos m1 * 2 ^ 53) (Zpos m2)) as [q r].
  destruct Hdm as [Hq Hr].
  assert (Hqb : 2 ^ 52 <= q < 2 ^ 54) by (simpl in *; nia).
  destruct q as [|pq|pq]; [simpl in Hqb; lia| |lia].
  assert (Hdq : Zpos (digits2_pos pq) = 53 \/ Zpos (digits2_pos pq) = 54).
  { destruct (Z_lt_le_dec (Zpos pq) (2 ^ 53)).
    - left. apply digits2_pos_unique. simpl in *. lia.
    - right. apply digits2_pos_unique. simpl in *. lia. }
  assert (Hloc : located (Zpos m1 * 2 ^ 53) (Zpos m2)
                   (shr_record_of_loc (Zpos pq) (new_location (Zpos m2) r))).
  { rewrite Hq. replace (Zpos m2 * Zpos pq + r) with (Zpos pq * Zpos m2 + r) by ring.
    apply new_location_located; lia. }
  destruct (binary_round_aux_located false pq (e1 - e2 - 53) (new_location (Zpos m2) r)
              (Zpos m1 * 2 ^ 53) (Zpos m2))
    as (mf & m2' & c & Hres & Hc & Hmf & Hmfb & Hm2 & Herr); try lia; [exact Hloc|].
  rewrite Hres.
  exists mf, m2', (Zpos (digits2_pos pq) - 53), c.
  split; [reflexivity|]. split; [lia|]. auto.
Qed.

(** The product of two normal doubles, away from overflow and underflow. *)
Lemma float_mul_located (m1 m2 : positive) (e1 e2 : Z) :
  2 ^ 52 <= Zpos m1 < 2 ^ 53 -> 2 ^ 52 <= Zpos m2 < 2 ^ 53 ->
  -900 <= e1 + e2 <= 900 ->
  exists (mf : positive) (p2 n c : Z),
    float_mul (S754_finite false m1 e1) (S754_finite false m2 e2) =
    S754_finite false mf (e1 + e2 + n + c) /\
    (n = 52 \/ n = 53) /\ (c = 0 \/ c = 1) /\ Zpos mf * 2 ^ c = p2 /\
    2 ^ 52 <= Zpos mf < 2 ^ 53 /\ 2 ^ 52 <= p2 <= 2 ^ 53 /\
    2 * Z.abs (p2 * 2 ^ n - Zpos m1 * Zpos m2) <= 2 ^ n.
Proof.
  intros H1 H2 He.
  unfold float_mul, SFmul. cbn [xorb].
  assert (Hprod : 2 ^ 104 <= Zpos (m1 * m2) < 2 ^ 106).
  { rewrite Pos2Z.inj_mul. simpl in *. nia. }
  assert (Hd : Zpos (digits2_pos (m1 * m2)) = 105 \/ Zpos (digits2_pos (m1 * m2)) = 106).
  { destruct (Z_lt_le_dec (Zpos (m1 * m2)) (2 ^ 105)).
    - left. apply digits2_pos_unique. simpl in *. lia.
    - right. apply digits2_pos_unique. simpl in *. lia. }
  destruct (binary_round_aux_located false (m1 * m2) (e1 + e2) loc_Exact (Zpos (m1 * m2)) 1)
    as (mf & p2 & c & Hres & Hc & Hmf & Hmfb & Hp2 & Herr); try lia;
    [apply located_exact; lia|].
  rewrite Hres. rewrite Z.mul_1_l in Herr. rewrite Pos2Z.inj_mul in Herr.
  exists mf, p2, (Zpos (digits2_pos (m1 * m2)) - 53), c.
  split; [reflexivity|]. split; [lia|]. auto.
Qed.

Lemma int_of_float_floor (mf : positive) (ef : Z) :
  ef < 0 -> int_of_float (S754_finite false mf ef) = Ok (Zpos mf / 2 ^ (- ef)).
Proof.
  intros He. unfold int_of_float. destruct ef as [|p|p]; [lia|lia|].
  rewrite Z.shiftr_div_pow2 by lia. reflexivity.
Qed.

(** The arithmetic of two roundings: [q2] is the rounded quotient in units
    of [1/K1], [p2] the rounded product in units of [1/T], [h] its integer
    part. *)
Lemma height_bounds (W H w q2 p2 K1 T h : Z) :
  0 < w < W -> 1 <= H -> W * H < 2 ^ 48 ->
  2 ^ 52 <= q2 <= 2 ^ 53 -> 2 ^ 52 <= p2 <= 2 ^ 53 -> 0 < K1 -> 0 < T ->
  2 * Z.abs (q2 * W - w * K1) <= W ->
  2 * Z.abs (p2 * K1 - H * q2 * T) <= K1 ->
  h * T <= p2 < (h + 1) * T ->
  H * w / W - 1 <= h <= H * w / W /\ ((H * w) mod W <> 0 -> h = H * w / W).
Proof.
  intros Hw HH HWH Hq Hp HK HT F1 F2 Hh.
  change (2 ^ 48) with 281474976710656 in *.
  change (2 ^ 52) with 4503599627370496 in *.
  change (2 ^ 53) with 9007199254740992 in *.
  set (N := H * w / W).
  pose proof (Z.div_mod (H * w) W ltac:(lia)) as Hdiv. fold N in Hdiv.
  pose proof (Z.mod_pos_bound (H * w) W ltac:(lia)) as Hmod.
  set (R := (H * w) mod W) in *.
  assert (HHT : 0 < H * T) by (apply Z.mul_pos_pos; lia).
  assert (HWle : W * 1 <= W * H) by (apply Z.mul_le_mono_nonneg_l; lia).
  (* K1 is large *)
  assert (HK1 : 4503599627370496 < K1).
  { assert (4503599627370496 * W <= q2 * W) by (apply Z.mul_le_mono_nonneg_r; lia).
    assert (Hwk : 9007199254740991 * W <= 2 * (w * K1)) by lia.
    destruct (Z_lt_le_dec 4503599627370496 K1) as [|Hle]; [assumption|exfalso].
    assert (w * K1 <= w * 4503599627370496) by (apply Z.mul_le_mono_nonneg_l; lia).
    lia. }
  (* K1 <= 3 H T *)
  assert (HK3 : K1 <= 3 * (H * T)).
  { assert (4503599627370496 * K1 <= p2 * K1) by (apply Z.mul_le_mono_nonneg_r; lia).
    assert (H * T * q2 <= H * T * 9007199254740992) by (apply Z.mul_le_mono_nonneg_l; lia).
    replace (H * T * q2) with (H * q2 * T) in * by ring.
    lia. }
  (* the main error bound *)
  set (e1 := q2 * W - w * K1) in *.
  set (e2 := p2 * K1 - H * q2 * T) in *.
  assert (Hmain : p2 * K1 * W - H * w * K1 * T = H * T * e1 + e2 * W).
  { unfold e1, e2. ring. }
  assert (Herr : 2 * Z.abs (p2 * K1 * W - H * w * K1 * T) <= 4 * (W * (H * T))).
  { rewrite Hmain.
    assert (Htri : Z.abs (H * T * e1 + e2 * W) <= Z.abs (H * T * e1) + Z.abs (e2 * W))
      by apply Z.abs_triangle.
    rewrite (Z.abs_mul (H * T)), (Z.abs_mul e2), (Z.abs_eq (H * T)), (Z.abs_eq W) in Htri by lia.
    assert (H * T * (2 * Z.abs e1) <= H * T * W) by (apply Z.mul_le_mono_nonneg_l; lia).
    assert (2 * Z.abs e2 * W <= K1 * W) by (apply Z.mul_le_mono_nonneg_r; lia).
    assert (K1 * W <= 3 * (H * T) * W) by (apply Z.mul_le_mono_nonneg_r; lia).
    replace (4 * (W * (H * T))) with (H * T * W + 3 * (H * T) * W) by ring.
    replace (H * T * (2 * Z.abs e1)) with (2 * (H * T * Z.abs e1)) in * by ring.
    replace (2 * Z.abs e2 * W) with (2 * (Z.abs e2 * W)) in * by ring.
    lia. }
  assert (HWHT : 0 < W * (H * T)) by (apply Z.mul_pos_pos; lia).
  assert (HTK : 0 < T * K1) by (apply Z.mul_pos_pos; lia).
  assert (Hbig : 2 * (W * H) < K1) by lia.
  assert (Hbig2 : 4 * (W * (H * T)) < 2 * (T * K1)).
  { assert (2 * (W * H) * T < K1 * T) by (apply Z.mul_lt_mono_pos_r; lia).
    replace (4 * (W * (H * T))) with (2 * (2 * (W * H) * T)) by ring.
    replace (T * K1) with (K1 * T) by ring. lia. }
  assert (HKW : 0 < K1 * W) by (apply Z.mul_pos_pos; lia).
  assert (Hup : h <= N).
  { destruct (Z_le_gt_dec h N) as [|Hgt]; [assumption|exfalso].
    assert ((N + 1) * T <= h * T) by (apply Z.mul_le_mono_nonneg_r; lia).
    assert ((N + 1) * T * (K1 * W) <= p2 * (K1 * W))
      by (apply Z.mul_le_mono_nonneg_r; lia).
    assert ((H * w + 1) * (T * K1) <= (N + 1) * W * (T * K1))
      by (apply Z.mul_le_mono_nonneg_r; lia).
    replace ((N + 1) * T * (K1 * W)) with ((N + 1) * W * (T * K1)) in * by ring.
    replace (p2 * (K1 * W)) with (p2 * K1 * W) in * by ring.
    replace ((H * w + 1) * (T * K1)) with (H * w * K1 * T + T * K1) in * by ring.
    lia. }
  assert (Hlow : forall M, M * W + 1 <= H * w -> M <= h).
  { intros M HM. destruct (Z_le_gt_dec M h) as [|Hgt]; [assumption|exfalso].
    assert ((h + 1) * T <= M * T) by (apply Z.mul_le_mono_nonneg_r; lia).
    assert (p2 * (K1 * W) < M * T * (K1 * W)) by (apply Z.mul_lt_mono_pos_r; lia).
    assert (M * W * (T * K1) <= (H * w - 1) * (T * K1))
      by (apply Z.mul_le_mono_nonneg_r; lia).
    replace (M * T * (K1 * W)) with (M * W * (T * K1)) in * by ring.
    replace (p2 * (K1 * W)) with (p2 * K1 * W) in * by ring.
    replace ((H * w - 1) * (T * K1)) with (H * w * K1 * T - T * K1) in * by ring.
    lia. }
  split; [split|].
  - apply Hlow. replace ((N - 1) * W) with (N * W - W) by ring. lia.
  - exact Hup.
  - intros HR. apply Z.le_antisymm; [assumption|]. apply Hlow. lia.
Qed.

Lemma digits_le (p : positive) (k : Z) : Zpos p < 2 ^ k -> Zpos (digits2_pos p) <= k.
Proof.
  intros H. pose proof (digits2_pos_bounds p) as [Hlo _].
  destruct (Z_le_gt_dec (Zpos (digits2_pos p)) k) as [|Hgt]; [assumption|exfalso].
  assert (2 ^ k <= 2 ^ (Zpos (digits2_pos p) - 1)).
  { destruct (Z_lt_le_dec k 0).
    - rewrite (Z.pow_neg_r 2 k) by assumption. apply Z.pow_nonneg. lia.
    - apply Z.pow_le_mono_r; lia. }
  lia.
Qed.

Lemma pow2_add (a b c : Z) : 0 <= a -> 0 <= b -> c = a + b -> 2 ^ a * 2 ^ b = 2 ^ c.
Proof. intros Ha Hb ->. now rewrite Z.pow_add_r. Qed.

Lemma abs_scale_le (x y a : Z) : 0 < a -> 2 * Z.abs (x * a) <= y * a -> 2 * Z.abs x <= y.
Proof.
  intros Ha H. rewrite Z.abs_mul, (Z.abs_eq a) in H by lia.
  apply (Z.mul_le_mono_pos_r _ _ a); [assumption|]. lia.
Qed.

(** Two roundings to nearest keep the computed height within one of the
    exact floor, and on it when the division leaves a remainder. *)
Lemma scaled_height_bounds (W H w : Z) :
  0 < w < W -> 0 <= H -> W < 2 ^ 48 -> W * H < 2 ^ 48 ->
  exists h : Z,
    scaled_height W H w = Ok h /\
    H * w / W - 1 <= h <= H * w / W /\
    ((H * w) mod W <> 0 -> h = H * w / W).
Proof.
  intros Hw HH HW HWH.
  destruct W as [|pW|pW]; [lia| |lia]. destruct w as [|pw|pw]; [lia| |lia].
  assert (H48 : 2 ^ 48 < 2 ^ 53) by reflexivity.
  destruct (float_of_int_exact pW ltac:(lia)) as (MW & HfW & HMW & HMWb).
  destruct (float_of_int_exact pw ltac:(lia)) as (Mw & Hfw & HMw & HMwb).
  set (dW := Zpos (digits2_pos pW)) in *. set (dw := Zpos (digits2_pos pw)) in *.
  assert (HdW : 1 <= dW <= 48) by (split; [unfold dW; lia | apply digits_le; lia]).
  assert (Hdw : 1 <= dw <= dW).
  { split; [unfold dw; lia|]. apply digits_le.
    pose proof (digits2_pos_bounds pW) as [_ Hhi]. fold dW in Hhi. lia. }
  destruct (float_truediv_located Mw MW (dw - 53) (dW - 53) HMwb HMWb ltac:(lia))
    as (mr & q2 & n1 & c1 & Hdiv & Hn1 & Hc1 & Hmr & Hmrb & Hq2 & Herr1).
  unfold scaled_height. unfold mbind, result_bind. rewrite HfW, Hfw, Hdiv.
  destruct H as [|pH|pH]; [|clear HH|lia].
  { (* an image of height zero *)
    exists 0. split; [reflexivity|]. rewrite Z.mul_0_l, Z.div_0_l, Zmod_0_l by lia.
    split; [lia|]. intros Hne. now elim Hne. }
  assert (HHb : Zpos pH < 2 ^ 47).
  { assert (2 * Zpos pH <= Zpos pW * Zpos pH) by (apply Z.mul_le_mono_nonneg_r; lia).
    change (2 ^ 48) with (2 * 2 ^ 47) in HWH. lia. }
  destruct (float_of_int_exact pH ltac:(simpl in *; lia)) as (MH & HfH & HMH & HMHb).
  set (dH := Zpos (digits2_pos pH)) in *.
  assert (HdH : 1 <= dH <= 47) by (split; [unfold dH; lia | apply digits_le; lia]).
  rewrite HfH.
  set (er := dw - 53 - (dW - 53) - 53 + n1 + c1) in *.
  assert (Her : -900 <= dH - 53 + er <= 900) by (unfold er; clear - HdW Hdw HdH Hn1 Hc1; lia).
  destruct (float_mul_located MH mr (dH - 53) er HMHb Hmrb Her)
    as (mp & p2 & n2 & c2 & Hmul & Hn2 & Hc2 & Hmp & Hmpb & Hp2 & Herr2).
  rewrite Hmul.
  set (ep := dH - 53 + er + n2 + c2) in *.
  set (t := 106 - dH - dw + dW - n1 - c1 - n2).
  set (k1 := 53 + dW - dw - n1).
  assert (Ht : 4 <= t) by (unfold t; clear - HdW Hdw HdH Hn1 Hc1 Hn2; lia).
  assert (Hep : ep = c2 - t) by (unfold ep, er, t; clear; lia).
  assert (Hk1 : 52 <= k1) by (unfold k1; clear - HdW Hdw Hn1; lia).
  assert (Hepneg : ep < 0) by (clear - Hep Ht Hc2; lia).
  assert (Hepopp : - ep = t - c2) by (clear - Hep; lia).
  assert (Htc2 : 0 <= t - c2) by (clear - Ht Hc2; lia).
  assert (Hc2nn : 0 <= c2) by (clear - Hc2; lia).
  assert (Hn1nn : 0 <= n1) by (clear - Hn1; lia).
  assert (Hc1nn : 0 <= c1) by (clear - Hc1; lia).
  assert (Hn2nn : 0 <= n2) by (clear - Hn2; lia).
  assert (HdW53 : 0 <= 53 - dW) by (clear - HdW; lia).
  assert (Hdw53 : 0 <= 53 - dw) by (clear - HdW Hdw; lia).
  assert (HdH53 : 0 <= 53 - dH) by (clear - HdH; lia).
  assert (Hk1nn : 0 <= k1) by (clear - Hk1; lia).
  assert (Htnn : 0 <= t) by (clear - Ht; lia).
  rewrite (int_of_float_floor mp ep Hepneg).
  rewrite Hepopp.
  eexists. split; [reflexivity|].
  assert (HK1pos : 0 < 2 ^ k1) by (apply Z.pow_pos_nonneg; [reflexivity|exact Hk1nn]).
  assert (HTpos : 0 < 2 ^ t) by (apply Z.pow_pos_nonneg; [reflexivity|exact Htnn]).
  assert (HHone : 1 <= Zpos pH) by (clear; lia).
  apply (height_bounds (Zpos pW) (Zpos pH) (Zpos pw) q2 p2 (2 ^ k1) (2 ^ t) _
           Hw HHone HWH Hq2 Hp2 HK1pos HTpos).
  - (* the quotient *)
    assert (E1 : 2 ^ (53 - dW) * 2 ^ n1 = 2 ^ (53 - dW + n1))
      by (apply pow2_add; [exact HdW53 | exact Hn1nn | reflexivity]).
    assert (E2 : 2 ^ (53 - dw) * 2 ^ 53 = 2 ^ k1 * 2 ^ (53 - dW + n1)).
    { rewrite (pow2_add (53 - dw) 53 (106 - dw));
        [|exact Hdw53 | clear; lia | clear; lia].
      rewrite (pow2_add k1 (53 - dW + n1) (106 - dw));
        [reflexivity | exact Hk1nn | clear - HdW53 Hn1nn; lia | unfold k1; clear; lia]. }
    apply (abs_scale_le _ _ (2 ^ (53 - dW + n1)));
      [apply Z.pow_pos_nonneg; [reflexivity | clear - HdW53 Hn1nn; lia]|].
    rewrite HMW, HMw in Herr1.
    replace ((q2 * Zpos pW - Zpos pw * 2 ^ k1) * 2 ^ (53 - dW + n1))
      with (q2 * (Zpos pW * 2 ^ (53 - dW) * 2 ^ n1) - Zpos pw * 2 ^ (53 - dw) * 2 ^ 53).
    + replace (Zpos pW * 2 ^ (53 - dW + n1)) with (Zpos pW * 2 ^ (53 - dW) * 2 ^ n1);
        [exact Herr1|].
      rewrite <- Z.mul_assoc. f_equal. exact E1.
    + rewrite <- E1 in E2 |- *.
      rewrite <- (Z.mul_assoc (Zpos pw) (2 ^ (53 - dw))), E2. ring.
  - (* the product *)
    assert (HD : 2 ^ n2 * 2 ^ c1 = 2 ^ (n2 + c1))
      by (apply pow2_add; [exact Hn2nn | exact Hc1nn | reflexivity]).
    assert (HCK : 2 ^ (53 - dH) * 2 ^ k1 = 2 ^ t * 2 ^ (n2 + c1)).
    { rewrite (pow2_add (53 - dH) k1 (53 - dH + k1));
        [|exact HdH53 | exact Hk1nn | reflexivity].
      rewrite (pow2_add t (n2 + c1) (53 - dH + k1));
        [reflexivity | exact Htnn | clear - Hn2nn Hc1nn; lia | unfold t, k1; clear; lia]. }
    apply (abs_scale_le _ _ (2 ^ (n2 + c1)));
      [apply Z.pow_pos_nonneg; [reflexivity | clear - Hn2nn Hc1nn; lia]|].
    rewrite HMH in Herr2.
    assert (Hscaled : 2 * Z.abs ((p2 * 2 ^ n2 - Zpos pH * 2 ^ (53 - dH) * Zpos mr) * (2 ^ c1 * 2 ^ k1))
                      <= 2 ^ n2 * (2 ^ c1 * 2 ^ k1)).
    { rewrite Z.abs_mul, (Z.abs_eq (2 ^ c1 * 2 ^ k1)).
      - rewrite Z.mul_assoc. apply Z.mul_le_mono_nonneg_r; [|exact Herr2].
        apply Z.mul_nonneg_nonneg; apply Z.pow_nonneg; clear; lia.
      - apply Z.mul_nonneg_nonneg; apply Z.pow_nonneg; clear; lia. }
    replace ((p2 * 2 ^ k1 - Zpos pH * q2 * 2 ^ t) * 2 ^ (n2 + c1))
      with ((p2 * 2 ^ n2 - Zpos pH * 2 ^ (53 - dH) * Zpos mr) * (2 ^ c1 * 2 ^ k1)).
    + replace (2 ^ k1 * 2 ^ (n2 + c1)) with (2 ^ n2 * (2 ^ c1 * 2 ^ k1)) by (rewrite <- HD; ring).
      exact Hscaled.
    + rewrite <- Hmr. rewrite <- HD in HCK |- *.
      transitivity (p2 * 2 ^ n2 * 2 ^ c1 * 2 ^ k1
                    - Zpos pH * Zpos mr * 2 ^ c1 * (2 ^ (53 - dH) * 2 ^ k1)); [ring|].
      rewrite HCK. ring.
  - (* the integer part *)
    assert (Hpos : 0 < 2 ^ (t - c2)) by (apply Z.pow_pos_nonneg; [reflexivity | exact Htc2]).
    assert (Hne : 2 ^ (t - c2) <> 0) by (clear - Hpos; lia).
    pose proof (Z.div_mod (Zpos mp) (2 ^ (t - c2)) Hne) as Hdm.
    pose proof (Z.mod_pos_bound (Zpos mp) (2 ^ (t - c2)) Hpos) as Hmb.
    assert (HT : 2 ^ t = 2 ^ (t - c2) * 2 ^ c2)
      by (symmetry; apply pow2_add; [exact Htc2 | exact Hc2nn | clear; lia]).
    assert (Hc2pos : 0 < 2 ^ c2) by (apply Z.pow_pos_nonneg; [reflexivity | exact Hc2nn]).
    rewrite HT, <- Hmp. set (hq := Zpos mp / 2 ^ (t - c2)) in *.
    set (X := 2 ^ (t - c2)) in *. set (Y := 2 ^ c2) in *.
    split.
    + replace (hq * (X * Y)) with (hq * X * Y) by ring.
      apply Z.mul_le_mono_nonneg_r; [clear - Hc2pos; lia | clear - Hdm Hmb; lia].
    + replace ((hq + 1) * (X * Y)) with ((hq + 1) * X * Y) by ring.
      apply Z.mul_lt_mono_pos_r; [exact Hc2pos | clear - Hdm Hmb; lia].
Qed.

(** C1 (as the code has it). For a decoded image of [W] by [H] pixels with
    fewer than [2^48] pixels and a target width [0 < w < W], the height that
    [process_image] computes with the double-precision ratio, and hands to
    [resize], is the floor of [H*w/W] or one less than it; it is that floor
    whenever [W] does not divide [H*w]. *)
Theorem derivative_height_is_floor_or_one_less (W H w : Z) :
  0 < w < W -> 0 <= H -> W < 2 ^ 48 -> W * H < 2 ^ 48 ->
  (exists h : Z,
      scaled_height W H w = Ok h /\
      H * w / W - 1 <= h <= H * w / W /\
      ((H * w) mod W <> 0 -> h = H * w / W)) /\
  (forall (World : Type) (E : env World) (pixels : list N) (object_key : pyval)
          (output_bucket : option string) (quality_int total : Z) (generated : list Z)
          (st st' : state World) (acc' : Z * list Z),
      process_width E (Image W H pixels) object_key output_bucket quality_int
        (total, generated) w st = (Ok acc', st') ->
      exists (h : Z) (dest_key : string),
        events st' = events st ++
          [EvResize w h true; EvSave quality_int true;
           EvPutObject output_bucket dest_key "image/webp"
             [("source", object_key); ("size", PStr (str_of_int w))] true] /\
        H * w / W - 1 <= h <= H * w / W /\
        ((H * w) mod W <> 0 -> h = H * w / W)).
Proof.
  intros Hw HH HW HWH.
  destruct (scaled_height_bounds W H w Hw HH HW HWH) as (h & Hh & Hb & Hex).
  split; [exists h; auto|].
  intros World E pixels object_key output_bucket quality_int total generated st st' acc' Hrun.
  apply process_width_Ok in Hrun as [(Hle & _) | (_ & n & h' & dk & _ & Hh' & _ & Hev)];
    cbn [img_width img_height] in *; [lia|].
  rewrite Hh in Hh'. injection Hh' as <-.
  exists h, dk. auto.
Qed.

Lemma derivative_height_is_floor_or_one_less_witness :
  (exists h : Z,
      scaled_height 1024 768 128 = Ok h /\
      768 * 128 / 1024 - 1 <= h <= 768 * 128 / 1024 /\
      ((768 * 128) mod 1024 <> 0 -> h = 768 * 128 / 1024)) /\
  (exists h : Z,
      scaled_height 1000 667 512 = Ok h /\
      667 * 512 / 1000 - 1 <= h <= 667 * 512 / 1000 /\
      ((667 * 512) mod 1000 <> 0 -> h = 667 * 512 / 1000)).
Proof.
  split.
  - apply (derivative_height_is_floor_or_one_less 1024 768 128); [lia | lia | reflexivity | reflexivity].
  - apply (derivative_height_is_floor_or_one_less 1000 667 512); [lia | lia | reflexivity | reflexivity].
Defined.

(** A 161x161 image at width 128: the exact quotient is 128, the code
    computes 127. *)
Lemma height_of_161_square_at_128_is_127 :
  128 < 161 /\
  scaled_height 161 161 128 = Ok 127 /\
  161 * 128 / 161 = 128 /\
  EvResize 128 127 true ∈
    events (snd (process_width Demo.environment (Image 161 161 []) (PStr "uploads/icon.png")
                   (Some "out-bucket") 85 (0, []) 128 Demo.start)).
Proof.
  split; [lia|]. split; [vm_compute; reflexivity|]. split; [reflexivity|].
  vm_compute. left.
Qed.

(** * Further properties of the code *)

(** ** Failures inside process_image *)

Section ProcessImageFailures.

Context {World : Type} (E : env World).

(** X1. A failed download is logged and raised again unchanged: nothing is
    decoded, resized, encoded or uploaded. *)
Theorem download_failure_is_raised_unchanged (input_bucket object_key : pyval)
    (output_bucket : option string) (sizes_str : string) (quality : pyval)
    (st : state World) (t0 : spec_float) (w0 w1 : World) (exc : exn) :
  perf_counter E (world st) = (t0, w0) ->
  s3_get_object E input_bucket object_key w0 = (Raise exc, w1) ->
  process_image E input_bucket object_key output_bucket sizes_str quality st =
  (Raise exc,
   State w1 (events st ++
             [EvPerfCounter; EvGetObject input_bucket object_key false;
              EvLog ERROR "Failed to download object %s/%s: %s"
                [input_bucket; object_key; PStr (exn_text exc)]])).
Proof.
  intros H0 H1. unfold process_image. unfold_M. rewrite H0. simpl. rewrite H1. simpl.
  rewrite <- !app_assoc. reflexivity.
Qed.

(** X2. A body that Pillow cannot open is logged and the decoder's exception
    is raised again unchanged, before the size list is even parsed: nothing
    is resized, encoded or uploaded. *)
Theorem decode_failure_is_raised_unchanged (input_bucket object_key : pyval)
    (output_bucket : option string) (sizes_str : string) (quality : pyval)
    (st : state World) (t0 : spec_float) (w0 w1 w2 : World) (body : bytes) (exc : exn) :
  perf_counter E (world st) = (t0, w0) ->
  s3_get_object E input_bucket object_key w0 = (Ok body, w1) ->
  image_open E body w1 = (Raise exc, w2) ->
  process_image E input_bucket object_key output_bucket sizes_str quality st =
  (Raise exc,
   State w2 (events st ++
             [EvPerfCounter; EvGetObject input_bucket object_key true; EvImageOpen false;
              EvLog ERROR "Unsupported or corrupt image file %s/%s: %s"
                [input_bucket; object_key; PStr (exn_text exc)]])).
Proof.
  intros H0 H1 H2. unfold process_image. unfold_M.
  rewrite H0. simpl. rewrite H1. simpl. rewrite H2. simpl.
  rewrite <- !app_assoc. reflexivity.
Qed.

End ProcessImageFailures.

Lemma download_failure_is_raised_unchanged_witness :
  fst (process_image Demo.environment (PStr "in-bucket") (PStr "missing") (Some "out-bucket")
         "128,512" (PStr "85") Demo.start)
  = Raise (Exn "NoSuchKey" "The specified key does not exist.").
Proof.
  rewrite (download_failure_is_raised_unchanged Demo.environment (PStr "in-bucket")
             (PStr "missing") (Some "out-bucket") "128,512" (PStr "85") Demo.start
             (S754_zero false) 1%nat 2%nat
             (Exn "NoSuchKey" "The specified key does not exist.") eq_refl eq_refl).
  reflexivity.
Defined.

Lemma decode_failure_is_raised_unchanged_witness :
  fst (process_image Demo.environment (PStr "in-bucket") (PStr "uploads/readme.txt")
         (Some "out-bucket") "128,512" (PStr "85") Demo.start)
  = Raise (Exn "UnidentifiedImageError" "cannot identify image file").
Proof.
  rewrite (decode_failure_is_raised_unchanged Demo.environment (PStr "in-bucket")
             (PStr "uploads/readme.txt") (Some "out-bucket") "128,512" (PStr "85") Demo.start
             (S754_zero false) 1%nat 2%nat 3%nat Demo.text
             (Exn "UnidentifiedImageError" "cannot identify image file")
             eq_refl eq_refl eq_refl).
  reflexivity.
Defined.

(** ** Uploads of a run, whatever its outcome *)

Section Uploads.

Context {World : Type} (E : env World).

(** One step of the loop over the widths, whatever its outcome. *)
Lemma process_width_uploads (img : image) (object_key : pyval) (output_bucket : option string)
    (quality_int : Z) (total : Z) (generated : list Z) (width : Z) (st st' : state World)
    (r : result (Z * list Z)) :
  process_width E img object_key output_bucket quality_int (total, generated) width st
  = (r, st') ->
  exists new,
    events st' = events st ++ new /\
    Forall (upload_of (int_max_str_digits E) object_key output_bucket [width]) new /\
    match r with
    | Ok _ => uploads new = map uploaded (filter (fun w => w < img_width img) [width])
    | Raise _ => uploads new = [] \/
                 (width < img_width img /\ uploads new = [failed_upload width])
    end.
Proof.
  unfold process_width.
  destruct (img_width img <=? width) eqn:Hle.
  - apply Z.leb_le in Hle. unfold_M. simpl. intros H. injection H as <- <-.
    eexists. split; [reflexivity|]. split; [repeat constructor|].
    rewrite filter_cons_False by lia. reflexivity.
  - apply Z.leb_gt in Hle. unfold_M. intros H.
    destruct (scaled_height _ _ _) as [height|e].
    2:{ injection H as <- <-. exists []. rewrite app_nil_r. repeat split; auto. }
    destruct (image_resize E img width height (world st)) as [[resized|e] w1]; simpl in H.
    2:{ injection H as <- <-. eexists. split; [reflexivity|].
        split; [repeat constructor|]. left. reflexivity. }
    destruct (image_save_webp E resized quality_int w1) as [[data|e] w2]; simpl in H.
    2:{ injection H as <- <-. eexists. cbn [events]. rewrite <- app_assoc.
        split; [reflexivity|]. split; [repeat constructor|]. left. reflexivity. }
    destruct (derive_output_key_dyn (int_max_str_digits E) object_key width)
      as [dest_key|e] eqn:Hkey.
    2:{ injection H as <- <-. eexists. cbn [events]. rewrite <- app_assoc.
        split; [reflexivity|]. split; [repeat constructor|]. left. reflexivity. }
    rewrite (derive_output_key_dyn_Ok _ _ _ _ Hkey) in H.
    assert (Hup : forall ok, upload_of (int_max_str_digits E) object_key output_bucket [width]
                     (EvPutObject output_bucket dest_key "image/webp"
                        [("source", object_key); ("size", PStr (str_of_int width))] ok)).
    { intros ok. split; [reflexivity|]. split; [reflexivity|].
      exists width. split; [left|]. auto. }
    destruct (s3_put_object E output_bucket dest_key data _ _ w2) as [[[]|e] w3];
      simpl in H; injection H as <- <-; eexists; cbn [events]; rewrite <- !app_assoc;
      (split; [reflexivity|]); (split; [repeat first [apply Forall_nil_2 | apply Forall_cons_2]; first [exact I | apply Hup]|]).
    + rewrite filter_cons_True by lia. reflexivity.
    + right. split; [assumption | reflexivity].
Qed.

Lemma upload_of_mono (lim : nat) (object_key : pyval) (output_bucket : option string)
    (ws1 ws2 : list Z) (e : event) :
  (forall w, w ∈ ws1 -> w ∈ ws2) ->
  upload_of lim object_key output_bucket ws1 e -> upload_of lim object_key output_bucket ws2 e.
Proof.
  intros Hsub. destruct e; try exact (fun H => H).
  intros (Hb & Hc & w & Hw & Hk & Hm). repeat split; try assumption.
  exists w. auto.
Qed.

(** The loop over the widths, whatever its outcome: the calls of
    [put_object] follow the widths below the image width, in order; the loop
    ends at the first call that raises. *)
Lemma process_widths_uploads (img : image) (object_key : pyval) (output_bucket : option string)
    (quality_int : Z) (widths : list Z) :
  forall (total : Z) (generated : list Z) (st st' : state World) (r : result (Z * list Z)),
    for_loop widths (process_width E img object_key output_bucket quality_int)
      (total, generated) st = (r, st') ->
    exists (new : list event) (done failed : list Z),
      events st' = events st ++ new /\
      Forall (upload_of (int_max_str_digits E) object_key output_bucket widths) new /\
      uploads new = map uploaded done ++ map failed_upload failed /\
      (length failed <= 1)%nat /\
      (done ++ failed) `prefix_of` filter (fun w => w < img_width img) widths /\
      (is_ok r = true -> failed = [] /\ done = filter (fun w => w < img_width img) widths).
Proof.
  induction widths as [|width widths IH]; intros total generated st st' r; cbn [for_loop].
  - unfold ret. intros H. injection H as <- <-. exists [], [], []. rewrite app_nil_r.
    split; [reflexivity|]. split; [constructor|]. split; [reflexivity|].
    split; [simpl; lia|]. split; [apply prefix_nil|]. auto.
  - unfold bind at 1.
    destruct (process_width E img object_key output_bucket quality_int (total, generated) width st)
      as [[[total1 generated1]|e] st1] eqn:Hstep; cbv beta iota;
      apply process_width_uploads in Hstep as (new1 & Hev1 & Hall1 & Hup1).
    + intros Hrest.
      apply IH in Hrest as (new2 & done & failed & Hev2 & Hall2 & Hup2 & Hlen & Hpre & Hok).
      exists (new1 ++ new2), (filter (fun w => w < img_width img) [width] ++ done), failed.
      rewrite Hev2, Hev1, <- app_assoc. split; [reflexivity|].
      split.
      { apply Forall_app; split.
        - eapply Forall_impl; [exact Hall1|]. intros e. apply upload_of_mono.
          intros w Hw. apply list_elem_of_singleton in Hw as ->. left.
        - eapply Forall_impl; [exact Hall2|]. intros e. apply upload_of_mono.
          intros w Hw. now right. }
      split; [rewrite uploads_app, Hup1, Hup2, map_app, <- app_assoc; reflexivity|].
      split; [assumption|].
      split.
      { change (width :: widths) with ([width] ++ widths). rewrite filter_app, <- app_assoc.
        now apply prefix_app. }
      intros Hr. destruct (Hok Hr) as [-> ->]. split; [reflexivity|].
      change (width :: widths) with ([width] ++ widths). now rewrite filter_app.
    + intros H. injection H as <- <-.
      assert (Hall : Forall (upload_of (int_max_str_digits E) object_key output_bucket (width :: widths)) new1).
      { eapply Forall_impl; [exact Hall1|]. intros ev. apply upload_of_mono.
        intros w Hw. apply list_elem_of_singleton in Hw as ->. left. }
      destruct Hup1 as [Hup1 | [Hlt Hup1]].
      * exists new1, [], []. split; [assumption|]. split; [assumption|].
        split; [assumption|]. split; [simpl; lia|]. split; [apply prefix_nil|discriminate].
      * exists new1, [], [width]. split; [assumption|]. split; [assumption|].
        split; [assumption|]. split; [simpl; lia|]. split; [|discriminate].
        rewrite filter_cons_True by assumption. apply prefix_cons, prefix_nil.
Qed.

End Uploads.

Lemma parse_warnings_are_logs (lim : nat) (sizes_str : string) :
  Forall (fun e => exists level fmt args, e = EvLog level fmt args)
    (parse_warnings lim sizes_str).
Proof.
  unfold parse_warnings. apply Forall_concat, Forall_map, Forall_forall.
  intros part _. unfold token_warning.
  destruct (is_empty (strip part)); simpl; [constructor|].
  destruct (py_int_str lim (strip part)); repeat constructor. eauto.
Qed.

Lemma uploads_logs (evs : list event) :
  Forall (fun e => exists level fmt args, e = EvLog level fmt args) evs -> uploads evs = [].
Proof.
  induction 1 as [|e evs (level & fmt & args & ->) _ IH]; [reflexivity | exact IH].
Qed.

Section UploadsOfProcessImage.

Context {World : Type} (E : env World).

Let lim := int_max_str_digits E.

(** A run of [process_image], whatever its outcome. *)
Lemma process_image_uploads (input_bucket object_key : pyval)
    (output_bucket : option string) (sizes_str : string) (quality : pyval)
    (st st' : state World) (r : result processing_result) :
  process_image E input_bucket object_key output_bucket sizes_str quality st = (r, st') ->
  exists (new : list event) (done failed : list Z),
    events st' = events st ++ new /\
    Forall (upload_of lim object_key output_bucket (parsed_sizes lim sizes_str)) new /\
    uploads new = map uploaded done ++ map failed_upload failed /\
    (length failed <= 1)%nat /\
    (done ++ failed) `sublist_of` parsed_sizes lim sizes_str /\
    (forall res, r = Ok res -> failed = [] /\ done = sizes res).
Proof.
  assert (Hnone : forall (evs : list event) (r0 : result processing_result),
             Forall (upload_of lim object_key output_bucket (parsed_sizes lim sizes_str)) evs ->
             uploads evs = [] -> is_ok r0 = false ->
             exists (new : list event) (done failed : list Z),
               events st ++ evs = events st ++ new /\
               Forall (upload_of lim object_key output_bucket (parsed_sizes lim sizes_str)) new /\
               uploads new = map uploaded done ++ map failed_upload failed /\
               (length failed <= 1)%nat /\
               (done ++ failed) `sublist_of` parsed_sizes lim sizes_str /\
               (forall res, r0 = Ok res -> failed = [] /\ done = sizes res)).
  { intros evs r0 Hall Hup Hr. exists evs, [], []. split; [reflexivity|].
    split; [assumption|]. split; [assumption|]. split; [simpl; lia|].
    split; [apply sublist_nil_l|]. intros res ->. discriminate. }
  unfold process_image. unfold_M.
  destruct (perf_counter E (world st)) as [t0 w0]. cbn [events world is_ok].
  destruct (s3_get_object E input_bucket object_key w0) as [[body|e] w1]; cbn [events world is_ok].
  2:{ intros H. injection H as <- <-. cbn [events]. rewrite <- !app_assoc.
      apply Hnone; [repeat constructor | reflexivity | reflexivity]. }
  destruct (image_open E body w1) as [[img|e] w2]; cbn [events world is_ok].
  2:{ intros H. injection H as <- <-. cbn [events]. rewrite <- !app_assoc.
      apply Hnone; [repeat constructor | reflexivity | reflexivity]. }
  rewrite parse_sizes_run. fold lim. cbn [events world].
  match goal with |- context [for_loop ?ws ?f ?a ?s] =>
    destruct (for_loop ws f a s) as [[[total generated]|e] st1] eqn:Hloop end.
  - pose proof Hloop as Hgen. apply process_widths_Ok in Hgen as [Hgen _].
    apply process_widths_uploads in Hloop
      as (new & done & failed & Hev & Hall & Hup & Hlen & Hpre & Hok).
    destruct (Hok eq_refl) as [-> ->]. cbn [snd app] in Hgen. cbn [events] in Hev.
    assert (Hlogs : Forall (upload_of lim object_key output_bucket (parsed_sizes lim sizes_str))
                      (parse_warnings lim sizes_str)).
    { eapply Forall_impl; [apply parse_warnings_are_logs|].
      intros e (level & fmt & args & ->). exact I. }
    assert (Hstart : Forall (upload_of lim object_key output_bucket (parsed_sizes lim sizes_str))
                       [EvPerfCounter; EvGetObject input_bucket object_key true;
                        EvImageOpen true]) by (repeat constructor).
    assert (Hnolog : uploads (parse_warnings lim sizes_str) = [])
      by apply uploads_logs, parse_warnings_are_logs.
    destruct (perf_counter E (world st1)) as [t1 w3]. cbn [events world is_ok].
    destruct (elapsed_ms t0 t1) as [d|e]; intros H; injection H as <- <-; cbn [events].
    + exists ([EvPerfCounter; EvGetObject input_bucket object_key true; EvImageOpen true] ++
              parse_warnings lim sizes_str ++ new ++ [EvPerfCounter]),
        (filter (fun w => w < img_width img) (parsed_sizes lim sizes_str)), [].
      rewrite Hev, <- !app_assoc. split; [reflexivity|].
      split; [repeat (apply Forall_app; split); try assumption; repeat constructor|].
      split; [rewrite !uploads_app, Hnolog, Hup; simpl; rewrite !app_nil_r; reflexivity|].
      split; [simpl; lia|]. rewrite app_nil_r. split; [apply sublist_filter|].
      intros res [= <-]. split; [reflexivity|]. simpl. symmetry. exact Hgen.
    + exists ([EvPerfCounter; EvGetObject input_bucket object_key true; EvImageOpen true] ++
              parse_warnings lim sizes_str ++ new ++ [EvPerfCounter]),
        (filter (fun w => w < img_width img) (parsed_sizes lim sizes_str)), [].
      rewrite Hev, <- !app_assoc. split; [reflexivity|].
      split; [repeat (apply Forall_app; split); try assumption; repeat constructor|].
      split; [rewrite !uploads_app, Hnolog, Hup; simpl; rewrite !app_nil_r; reflexivity|].
      split; [simpl; lia|]. rewrite app_nil_r. split; [apply sublist_filter|].
      intros res Hres. discriminate.
  - apply process_widths_uploads in Hloop
      as (new & done & failed & Hev & Hall & Hup & Hlen & Hpre & Hok).
    cbn [events] in Hev.
    intros H. injection H as <- <-.
    exists ([EvPerfCounter; EvGetObject input_bucket object_key true; EvImageOpen true] ++
            parse_warnings lim sizes_str ++ new), done, failed.
    rewrite Hev, <- !app_assoc. split; [reflexivity|].
    split.
    { repeat (apply Forall_app; split); try assumption; [repeat constructor|].
      eapply Forall_impl; [apply parse_warnings_are_logs|].
      intros e0 (level & fmt & args & ->). exact I. }
    split.
    { rewrite !uploads_app, Hup, (uploads_logs _ (parse_warnings_are_logs lim sizes_str)).
      reflexivity. }
    split; [assumption|].
    split.
    { destruct Hpre as [k Hk]. transitivity (filter (fun w => w < img_width img)
                                                 (parsed_sizes lim sizes_str)).
      - rewrite Hk. apply sublist_inserts_r. reflexivity.
      - apply sublist_filter. }
    intros res Hres. discriminate.
Qed.

End UploadsOfProcessImage.

Lemma StronglySorted_sublist (l1 l2 : list Z) :
  l1 `sublist_of` l2 -> StronglySorted Z.lt l2 -> StronglySorted Z.lt l1.
Proof.
  induction 1 as [|x l1 l2 Hsub IH|x l1 l2 Hsub IH]; intros Hs.
  - constructor.
  - apply StronglySorted_inv in Hs as [Hs Hall]. constructor; [auto|].
    rewrite Forall_forall in *. intros y Hy. apply Hall.
    eapply elem_of_sublist; eassumption.
  - apply StronglySorted_inv in Hs as [Hs _]. auto.
Qed.

(** X3. The uploads of a run of [process_image], whatever its outcome: the
    [put_object] calls are made for distinct widths of the parsed list, in
    ascending order; every call but the last has returned, and a call that
    raises is the last one (the widths after it are not attempted, the
    derivatives before it stay uploaded). When the run returns, no call has
    raised and the widths uploaded are the widths reported. *)
Theorem uploads_stop_at_the_first_failed_upload {World : Type} (E : env World)
    (input_bucket object_key : pyval) (output_bucket : option string) (sizes_str : string)
    (quality : pyval) (st st' : state World) (r : result processing_result) :
  process_image E input_bucket object_key output_bucket sizes_str quality st = (r, st') ->
  exists (parsed : list Z) (new : list event) (done failed : list Z),
    (forall tr, fst (parse_sizes (int_max_str_digits E) sizes_str tr) = Ok parsed) /\
    events st' = events st ++ new /\
    uploads new = map uploaded done ++ map failed_upload failed /\
    (length failed <= 1)%nat /\
    (done ++ failed) `sublist_of` parsed /\
    StronglySorted Z.lt (done ++ failed) /\
    (forall res, r = Ok res -> failed = [] /\ done = sizes res).
Proof.
  intros Hrun.
  apply process_image_uploads in Hrun
    as (new & done & failed & Hev & _ & Hup & Hlen & Hsub & Hok).
  exists (parsed_sizes (int_max_str_digits E) sizes_str), new, done, failed.
  split; [intros tr; now rewrite parse_sizes_run|].
  split; [assumption|]. split; [assumption|]. split; [assumption|]. split; [assumption|].
  split; [|assumption].
  eapply StronglySorted_sublist; [eassumption | apply StronglySorted_sorted_set].
Qed.

(** Without an output bucket the first upload is rejected: one failed call
    for width 128, none for 512. *)
Lemma uploads_stop_at_the_first_failed_upload_witness :
  exists (parsed : list Z) (new : list event) (done failed : list Z),
    (forall tr, fst (parse_sizes 4300 "128,512" tr) = Ok parsed) /\
    events (State 6%nat
              [EvPerfCounter; EvGetObject (PStr "in-bucket") (PStr "uploads/sample.jpg") true;
               EvImageOpen true; EvResize 128 96 true; EvSave 85 true;
               EvPutObject None "uploads/sample_128w.webp" "image/webp"
                 [("source", PStr "uploads/sample.jpg"); ("size", PStr "128")] false;
               EvLog ERROR "Failed to upload thumbnail %s: %s"
                 [PStr "uploads/sample_128w.webp"; PStr "Parameter validation failed"]])
    = events Demo.start ++ new /\
    uploads new = map uploaded done ++ map failed_upload failed /\
    (length failed <= 1)%nat /\
    (done ++ failed) `sublist_of` parsed /\
    StronglySorted Z.lt (done ++ failed) /\
    (forall res, Raise (Exn "ParamValidationError" "Parameter validation failed") = Ok res ->
                 failed = [] /\ done = sizes res).
Proof.
  apply (uploads_stop_at_the_first_failed_upload Demo.environment (PStr "in-bucket")
           (PStr "uploads/sample.jpg") None "128,512" (PStr "85") Demo.start).
  vm_compute. reflexivity.
Defined.

(** X4. Every [put_object] call of a run of [process_image], whatever the
    outcome of the call and of the run, writes to the output bucket with the
    content type [image/webp], for one of the parsed widths: its key is
    [derive_output_key] of the source key and that width, and its metadata
    names the source key and the width in decimal. *)
Theorem every_upload_is_a_webp_derivative_of_the_source {World : Type} (E : env World)
    (input_bucket object_key : pyval) (output_bucket : option string) (sizes_str : string)
    (quality : pyval) (st st' : state World) (r : result processing_result) :
  process_image E input_bucket object_key output_bucket sizes_str quality st = (r, st') ->
  exists (parsed : list Z) (new : list event),
    (forall tr, fst (parse_sizes (int_max_str_digits E) sizes_str tr) = Ok parsed) /\
    events st' = events st ++ new /\
    forall (bucket : option string) (key content_type : string)
           (metadata : list (string * pyval)) (ok : bool),
      EvPutObject bucket key content_type metadata ok ∈ new ->
      bucket = output_bucket /\ content_type = "image/webp" /\
      exists width : Z,
        width ∈ parsed /\
        derive_output_key_dyn (int_max_str_digits E) object_key width = Ok key /\
        (forall src_key, object_key = PStr src_key ->
                         derive_output_key (int_max_str_digits E) src_key width = Ok key) /\
        metadata = [("source", object_key); ("size", PStr (str_of_int width))].
Proof.
  intros Hrun.
  apply process_image_uploads in Hrun as (new & done & failed & Hev & Hall & _).
  exists (parsed_sizes (int_max_str_digits E) sizes_str), new.
  split; [intros tr; now rewrite parse_sizes_run|].
  split; [assumption|].
  intros bucket key content_type metadata ok Hin.
  rewrite Forall_forall in Hall. specialize (Hall _ Hin).
  destruct Hall as (Hb & Hc & width & Hw & Hk & Hm).
  split; [assumption|]. split; [assumption|].
  exists width. split; [assumption|]. split; [assumption|]. split; [|assumption].
  intros src_key ->. exact Hk.
Qed.

Lemma every_upload_is_a_webp_derivative_of_the_source_witness :
  exists (parsed : list Z) (new : list event),
    (forall tr, fst (parse_sizes 4300 "128,512" tr) = Ok parsed) /\
    events (State 10%nat
              [EvPerfCounter; EvGetObject (PStr "in-bucket") (PStr "uploads/sample.jpg") true;
               EvImageOpen true; EvResize 128 96 true; EvSave 85 true;
               EvPutObject (Some "out-bucket") "uploads/sample_128w.webp" "image/webp"
                 [("source", PStr "uploads/sample.jpg"); ("size", PStr "128")] true;
               EvResize 512 384 true; EvSave 85 true;
               EvPutObject (Some "out-bucket") "uploads/sample_512w.webp" "image/webp"
                 [("source", PStr "uploads/sample.jpg"); ("size", PStr "512")] true;
               EvPerfCounter])
    = events Demo.start ++ new /\
    forall (bucket : option string) (key content_type : string)
           (metadata : list (string * pyval)) (ok : bool),
      EvPutObject bucket key content_type metadata ok ∈ new ->
      bucket = Some "out-bucket" /\ content_type = "image/webp" /\
      exists width : Z,
        width ∈ parsed /\
        derive_output_key_dyn 4300 (PStr "uploads/sample.jpg") width = Ok key /\
        (forall src_key, PStr "uploads/sample.jpg" = PStr src_key ->
                         derive_output_key 4300 src_key width = Ok key) /\
        metadata = [("source", PStr "uploads/sample.jpg"); ("size", PStr (str_of_int width))].
Proof.
  apply (every_upload_is_a_webp_derivative_of_the_source Demo.environment (PStr "in-bucket")
           (PStr "uploads/sample.jpg") (Some "out-bucket") "128,512" (PStr "85")
           Demo.start _
           (Ok {| sizes := [128; 512]; input_size := 4; output_size := 640;
                  duration_ms := 9000 |})).
  vm_compute. reflexivity.
Defined.

(** ** Derived keys *)

Lemma append_assoc (a b c : string) : (a +:+ b) +:+ c = a +:+ (b +:+ c).
Proof.
  induction a as [|x a IH]; [reflexivity|].
  change (String x ((a +:+ b) +:+ c) = String x (a +:+ (b +:+ c))). now rewrite IH.
Qed.

Lemma append_length (a b : string) : String.length (a +:+ b) = (String.length a + String.length b)%nat.
Proof.
  induction a as [|x a IH]; [reflexivity|].
  change (S (String.length (a +:+ b)) = S (String.length a + String.length b)). now rewrite IH.
Qed.

Lemma append_inv_tail (a b t : string) : a +:+ t = b +:+ t -> a = b.
Proof.
  revert b. induction a as [|x a IH]; intros [|y b] H.
  - reflexivity.
  - apply (f_equal String.length) in H. rewrite !append_length in H. simpl in H. lia.
  - apply (f_equal String.length) in H. rewrite !append_length in H. simpl in H. lia.
  - change (String x (a +:+ t) = String y (b +:+ t)) in H. injection H as -> H.
    f_equal. now apply IH.
Qed.

Lemma rcut_spec (sep : ascii) (s p f : string) :
  rcut sep s = Some (p, f) -> s = p +:+ String sep f.
Proof.
  revert p f. induction s as [|c s IH]; intros p f; simpl; [discriminate|].
  destruct (rcut sep s) as [[p' f']|].
  - intros [= <- <-]. change (String c s = String c (p' +:+ String sep f')).
    f_equal. now apply IH.
  - destruct (Ascii.eqb c sep) eqn:Hc; [|discriminate].
    apply Ascii.eqb_eq in Hc as ->. intros [= <- <-]. reflexivity.
Qed.

Lemma split_head (sep : ascii) (s b : string) (ts : list string) :
  split sep s = b :: ts -> s = b \/ exists r, s = b +:+ String sep r.
Proof.
  revert b ts. induction s as [|c s IH]; intros b ts; simpl.
  - intros [= <- <-]. now left.
  - destruct (Ascii.eqb c sep) eqn:Hc.
    + apply Ascii.eqb_eq in Hc as ->. intros [= <- <-]. right. exists s. reflexivity.
    + destruct (split sep s) as [|t ts'] eqn:Hs.
      * intros [= <- <-]. now apply split_not_nil in Hs.
      * intros [= <- <-]. destruct (IH t ts' eq_refl) as [-> | [r ->]].
        -- now left.
        -- right. exists r. reflexivity.
Qed.

(** The derived key is a stem, which does not depend on the width and
    which the source key starts with, followed by [_{width}w.webp]; what
    follows the stem in the source key is nothing or starts with a dot. *)
Lemma derive_output_key_stem (lim : nat) (src_key : string) :
  exists stem : string,
    (forall width key, derive_output_key lim src_key width = Ok key ->
                       key = stem +:+ suffix width) /\
    (src_key = stem \/ exists rest, src_key = stem +:+ String "." rest).
Proof.
  unfold derive_output_key.
  destruct (contains "/" src_key) eqn:Hc.
  - destruct (rcut_Some "/" src_key Hc) as (p & f & Hpf).
    unfold rsplit1. rewrite Hpf. apply rcut_spec in Hpf.
    destruct (split "." f) as [|b ts] eqn:Hs; [now apply split_not_nil in Hs|].
    exists (p +:+ String "/" b). split.
    + intros width key.
      destruct (py_str_int lim width) as [text|e] eqn:Hstr; [|discriminate].
      apply py_str_int_inv in Hstr as [-> _]. intros [= <-]. unfold suffix.
      change (p +:+ "/" +:+ b +:+ "_" +:+ str_of_int width +:+ "w.webp")
        with (p +:+ String "/" b +:+ "_" +:+ str_of_int width +:+ "w.webp").
      rewrite (append_assoc p). reflexivity.
    + apply split_head in Hs as [-> | [r ->]]; [now left|].
      right. exists r. rewrite Hpf, (append_assoc p). reflexivity.
  - destruct (split "." src_key) as [|b ts] eqn:Hs; [now apply split_not_nil in Hs|].
    exists b. split.
    + intros width key.
      destruct (py_str_int lim width) as [text|e] eqn:Hstr; [|discriminate].
      apply py_str_int_inv in Hstr as [-> _]. intros [= <-]. reflexivity.
    + apply split_head in Hs as [-> | [r ->]]; [now left | right; now exists r].
Qed.

(** X5. The derivatives of one source key never collide: two widths give
    the same key only when they are the same width. And no derived key is
    the source key itself, so an upload never overwrites the source, even
    when the output bucket is the input bucket. *)
Theorem derived_keys_are_distinct (lim : nat) (src_key : string) (a b : Z) (ka kb : string) :
  derive_output_key lim src_key a = Ok ka ->
  derive_output_key lim src_key b = Ok kb ->
  (ka = kb <-> a = b) /\ ka <> src_key.
Proof.
  destruct (derive_output_key_stem lim src_key) as (stem & Hkey & Hsrc).
  intros Ha Hb. apply Hkey in Ha as ->. apply Hkey in Hb as ->. split; [split|].
  - intros H. apply String.app_inj in H. unfold suffix in H.
    apply String.app_inj in H. apply append_inv_tail in H. now apply str_of_int_inj.
  - now intros ->.
  - intros H. destruct Hsrc as [Hs | [rest Hs]]; rewrite Hs in H.
    + apply (f_equal String.length) in H. rewrite append_length in H.
      unfold suffix in H. rewrite append_length in H. simpl in H. lia.
    + apply String.app_inj in H. discriminate H.
Qed.

Lemma derived_keys_are_distinct_witness :
  ("photos/2024/cat_128w.webp" = "photos/2024/cat_512w.webp" <-> 128 = 512) /\
  "photos/2024/cat_128w.webp" <> "photos/2024/cat.final.jpg".
Proof.
  apply (derived_keys_are_distinct 4300 "photos/2024/cat.final.jpg" 128 512); reflexivity.
Defined.

(** ** The warnings of parse_sizes *)

Lemma token_warning_rejected (lim : nat) (part : string) :
  token_warning lim part = map size_warning (filter (rejected lim) [strip part]).
Proof.
  unfold token_warning.
  destruct (is_empty (strip part)) eqn:Hempty.
  - rewrite filter_cons_False; [reflexivity|]. intros [H _]. congruence.
  - destruct (py_int_str lim (strip part)) as [n|e] eqn:Hint.
    + rewrite filter_cons_False; [reflexivity|]. intros [_ H]. rewrite Hint in H. discriminate.
    + rewrite filter_cons_True; [reflexivity|]. split; [assumption|]. now rewrite Hint.
Qed.

Lemma parse_warnings_rejected (lim : nat) (sizes_str : string) :
  parse_warnings lim sizes_str =
  map size_warning (filter (rejected lim) (map strip (split "," sizes_str))).
Proof.
  unfold parse_warnings. induction (split "," sizes_str) as [|part parts IH]; [reflexivity|].
  cbn [map concat]. rewrite IH, token_warning_rejected.
  change (strip part :: map strip parts) with ([strip part] ++ map strip parts).
  now rewrite filter_app, map_app.
Qed.

(** X6. [parse_sizes] logs one warning for every token that is not empty
    after trimming and that [int] rejects, in the order of the input and
    with the trimmed token as its argument, and it logs nothing else: a
    token that is an integer but not a positive one is dropped without a
    word, and so is an empty token. *)
Theorem parse_sizes_warns_once_per_rejected_token (lim : nat) (sizes_str : string) (tr : trace) :
  exists (out : list Z) (new : list event),
    parse_sizes lim sizes_str tr = (Ok out, tr ++ new) /\
    new = map size_warning (filter (rejected lim) (map strip (split "," sizes_str))) /\
    (forall part n, py_int_str lim (strip part) = Ok n -> ~ size_warning (strip part) ∈ new) /\
    ~ size_warning "" ∈ new /\
    ((forall part, part ∈ split "," sizes_str ->
                   is_empty (strip part) = true \/ is_ok (py_int_str lim (strip part)) = true) ->
     new = []).
Proof.
  exists (parsed_sizes lim sizes_str), (parse_warnings lim sizes_str).
  split; [apply parse_sizes_run|].
  rewrite parse_warnings_rejected. split; [reflexivity|].
  assert (Hin : forall t, size_warning t ∈ map size_warning
                            (filter (rejected lim) (map strip (split "," sizes_str))) ->
                          rejected lim t).
  { intros t Ht. apply list_elem_of_fmap in Ht as (t' & Heq & Ht').
    injection Heq as ->. now apply list_elem_of_filter in Ht' as [Hr _]. }
  split; [|split].
  - intros part n Hint Hw. apply Hin in Hw as [_ Hr]. rewrite Hint in Hr. discriminate.
  - intros Hw. apply Hin in Hw as [Hr _]. discriminate.
  - intros Hall.
    assert (Hnone : filter (rejected lim) (map strip (split "," sizes_str)) = []).
    { clear Hin. induction (split "," sizes_str) as [|part parts IH]; [reflexivity|].
      cbn [map]. rewrite filter_cons_False.
      - apply IH. intros p Hp. apply Hall. now right.
      - intros [He Hr]. destruct (Hall part) as [H | H]; [left | congruence | congruence]. }
    now rewrite Hnone.
Qed.

Lemma parse_sizes_warns_once_per_rejected_token_witness :
  exists (out : list Z) (new : list event),
    parse_sizes 4300 " 512, abc ,,0,-3,1.5" [] = (Ok out, [] ++ new) /\
    new = map size_warning
            (filter (rejected 4300) (map strip (split "," " 512, abc ,,0,-3,1.5"))).
Proof.
  destruct (parse_sizes_warns_once_per_rejected_token 4300 " 512, abc ,,0,-3,1.5" [])
    as (out & new & Hrun & Hnew & _).
  exists out, new. split; assumption.
Defined.

(** ** [int(str(n))] and the size list read back *)

Lemma token_value_str_of_int (lim : nat) (n : Z) :
  within_digit_limit lim n ->
  token_value lim (str_of_int n) = (if 0 <? n then Some n else None) /\
  token_warning lim (str_of_int n) = [].
Proof.
  intros Hlim. unfold token_value, token_warning.
  rewrite strip_str_of_int, str_of_int_not_empty, (py_int_str_str_of_int lim n Hlim). auto.
Qed.

Lemma tokens_of_printed_widths (lim : nat) (widths : list Z) :
  Forall (within_digit_limit lim) widths ->
  omap (token_value lim) (map str_of_int widths) = filter (fun w => 0 < w) widths /\
  concat (map (token_warning lim) (map str_of_int widths)) = [].
Proof.
  induction 1 as [|w widths Hw _ [IHv IHw]]; [split; reflexivity|].
  destruct (token_value_str_of_int lim w Hw) as [Hv Hwarn].
  cbn [map omap list_omap concat]. fold (omap (token_value lim) (map str_of_int widths)).
  rewrite Hv, Hwarn, IHv, IHw. split; [|reflexivity].
  destruct (0 <? w) eqn:Hpos.
  - apply Z.ltb_lt in Hpos. now rewrite filter_cons_True.
  - apply Z.ltb_ge in Hpos. rewrite filter_cons_False by lia. reflexivity.
Qed.

Lemma sorted_set_ascending (l : list Z) : StronglySorted Z.lt l -> sorted_set l = l.
Proof.
  intros Hs. apply StronglySorted_lt_ext; [apply StronglySorted_sorted_set | assumption|].
  intros x. apply elem_of_sorted_set.
Qed.

Lemma parse_sizes_of_printed_widths (lim : nat) (widths : list Z) (tr : trace) :
  Forall (within_digit_limit lim) widths ->
  parse_sizes lim (join "," (map str_of_int widths)) tr =
  (Ok (sorted_set (filter (fun w => 0 < w) widths)), tr).
Proof.
  intros Hlim. rewrite parse_sizes_run. unfold parsed_sizes, parse_warnings.
  destruct widths as [|w widths]; [rewrite app_nil_r; reflexivity|].
  rewrite split_join.
  - destruct (tokens_of_printed_widths lim (w :: widths) Hlim) as [-> ->].
    rewrite app_nil_r. reflexivity.
  - discriminate.
  - apply Forall_map, Forall_forall. intros n _. apply str_of_int_no_comma.
Qed.

(** X7. The size list reads back what [str] prints: for integers whose
    decimal text is within the digit limit of [int], the comma-separated
    text of their decimal forms parses, without a warning, to the positive
    ones among them, sorted and without repetition; a strictly ascending
    list of positive widths is read back as it is. *)
Theorem parse_sizes_reads_back_printed_widths (lim : nat) (widths : list Z) (tr : trace) :
  Forall (within_digit_limit lim) widths ->
  parse_sizes lim (join "," (map str_of_int widths)) tr =
  (Ok (sorted_set (filter (fun w => 0 < w) widths)), tr) /\
  (StronglySorted Z.lt widths -> Forall (fun w => 0 < w) widths ->
   parse_sizes lim (join "," (map str_of_int widths)) tr = (Ok widths, tr)).
Proof.
  intros Hlim.
  pose proof (parse_sizes_of_printed_widths lim widths tr Hlim) as Hrun.
  split; [exact Hrun|].
  intros Hsorted Hpos. rewrite Hrun. do 2 f_equal.
  assert (Hf : filter (fun w => 0 < w) widths = widths).
  { clear -Hpos. induction Hpos as [|w widths Hw _ IH]; [reflexivity|].
    rewrite filter_cons_True by assumption. now rewrite IH. }
  rewrite Hf. now apply sorted_set_ascending.
Qed.

Lemma parse_sizes_reads_back_printed_widths_witness :
  parse_sizes 4300 (join "," (map str_of_int [512; -3; 0; 128; 512])) [] =
  (Ok (sorted_set (filter (fun w => 0 < w) [512; -3; 0; 128; 512])), []) /\
  parse_sizes 4300 (join "," (map str_of_int [128; 512; 1024])) [] = (Ok [128; 512; 1024], []).
Proof.
  assert (Hlim : forall n, (count_digits (str_of_int n) <=? 4300)%nat = true ->
                           within_digit_limit 4300 n)
    by (intros n Hn; right; now apply Nat.leb_le).
  split.
  - apply (parse_sizes_reads_back_printed_widths 4300 [512; -3; 0; 128; 512] []).
    repeat (apply Forall_cons_2; [apply Hlim; vm_compute; reflexivity|]). apply Forall_nil_2.
  - apply (parse_sizes_reads_back_printed_widths 4300 [128; 512; 1024] []).
    + repeat (apply Forall_cons_2; [apply Hlim; vm_compute; reflexivity|]). apply Forall_nil_2.
    + repeat (apply SSorted_cons; [|repeat (apply Forall_cons_2; [lia|]); apply Forall_nil_2]).
      apply SSorted_nil.
    + repeat (apply Forall_cons_2; [lia|]). apply Forall_nil_2.
Defined.

(** ** The computed height at its bounds *)

Lemma scaled_height_of_zero (W w h : Z) : scaled_height W 0 w = Ok h -> h = 0.
Proof.
  unfold scaled_height. unfold mbind, result_bind.
  destruct (float_of_int W) as [fw|e]; [|discriminate].
  destruct (float_of_int w) as [fwidth|e]; [|discriminate].
  destruct (float_truediv fwidth fw) as [ratio|e]; [|discriminate].
  change (float_of_int 0) with (Ok (S754_zero false)). cbv beta iota.
  destruct ratio as [s|s| |s m e]; cbn; intros H; now inversion H.
Qed.

(** The step of the loop for a width below the image width, up to the
    answer of [resize]. *)
Lemma process_width_resize {World : Type} (E : env World) (img : image) (object_key : pyval)
    (output_bucket : option string) (quality_int : Z) (acc : Z * list Z) (width height : Z)
    (st : state World) :
  width < img_width img ->
  scaled_height (img_width img) (img_height img) width = Ok height ->
  (exists rest : list event,
      events (snd (process_width E img object_key output_bucket quality_int acc width st)) =
      events st ++
      EvResize width height (is_ok (fst (image_resize E img width height (world st)))) :: rest) /\
  (forall (exc : exn) (w1 : World),
      image_resize E img width height (world st) = (Raise exc, w1) ->
      process_width E img object_key output_bucket quality_int acc width st =
      (Raise exc, State w1 (events st ++ [EvResize width height false]))).
Proof.
  intros Hlt Hh. unfold process_width. destruct acc as [total generated].
  apply Z.leb_gt in Hlt. rewrite Hlt, Hh. unfold_M.
  destruct (image_resize E img width height (world st)) as [[resized|e] w1];
    cbn [fst snd is_ok world events].
  - split; [|discriminate].
    destruct (image_save_webp E resized quality_int w1) as [[data|e] w2];
      cbn [fst snd is_ok world events].
    2:{ eexists. rewrite <- app_assoc. reflexivity. }
    destruct (derive_output_key_dyn (int_max_str_digits E) object_key width)
      as [dest_key|e] eqn:Hkey; cbn [fst snd is_ok world events].
    2:{ eexists. rewrite <- app_assoc. reflexivity. }
    rewrite (derive_output_key_dyn_Ok _ _ _ _ Hkey).
    destruct (s3_put_object E output_bucket dest_key data _ _ w2) as [[[]|e] w3];
      cbn [fst snd is_ok world events]; eexists; rewrite <- !app_assoc; reflexivity.
  - split; [exists []; reflexivity|]. intros exc w1' [= <- <-]. reflexivity.
Qed.

(** X8. The height handed to [resize] has no lower clamp: for a decoded
    image of [W] by [H] pixels (fewer than [2^48]) and a target width
    [0 < w < W], the computed height is never negative and never above the
    source height, it is below it when the image has a height at all, and it
    is 0 whenever [H * w < W], that is for an image more than [w] times as
    wide as it is tall. The step of the loop for that width asks [resize]
    for exactly that height, in the world it starts in, whatever the
    accumulators; and when [resize] raises, as Pillow does for a height of
    0, the step raises the same exception right after that call, with
    nothing encoded and nothing uploaded. *)
Theorem computed_height_can_be_zero {World : Type} (E : env World) (W H w : Z) :
  0 < w < W -> 0 <= H -> W < 2 ^ 48 -> W * H < 2 ^ 48 ->
  exists h : Z,
    scaled_height W H w = Ok h /\
    0 <= h <= H /\
    (0 < H -> h < H) /\
    (H * w < W -> h = 0) /\
    (forall (pixels : list N) (object_key : pyval) (output_bucket : option string)
            (quality_int : Z) (acc : Z * list Z) (st : state World),
        exists rest : list event,
          events (snd (process_width E (Image W H pixels) object_key output_bucket
                         quality_int acc w st)) =
          events st ++
          EvResize w h (is_ok (fst (image_resize E (Image W H pixels) w h (world st))))
          :: rest) /\
    (forall (pixels : list N) (object_key : pyval) (output_bucket : option string)
            (quality_int : Z) (acc : Z * list Z) (st : state World) (exc : exn) (w1 : World),
        image_resize E (Image W H pixels) w h (world st) = (Raise exc, w1) ->
        process_width E (Image W H pixels) object_key output_bucket quality_int acc w st =
        (Raise exc, State w1 (events st ++ [EvResize w h false]))).
Proof.
  intros Hw HH HW HWH.
  destruct (scaled_height_bounds W H w Hw HH HW HWH) as (h & Hh & [Hlo Hhi] & Hex).
  exists h. split; [exact Hh|].
  assert (Hfloor : 0 <= H * w / W) by (apply Z.div_pos; [apply Z.mul_nonneg_nonneg|]; lia).
  assert (Hle : H * w <= H * W) by (apply Z.mul_le_mono_nonneg_l; lia).
  assert (Hq : H * w / W <= H).
  { apply Z.div_le_upper_bound; [lia|]. rewrite (Z.mul_comm W H). exact Hle. }
  assert (Hnonneg : 0 <= h).
  { destruct (Z.eq_dec ((H * w) mod W) 0) as [Hz | Hnz]; [|rewrite (Hex Hnz); exact Hfloor].
    destruct (Z.eq_dec H 0) as [-> | HH0]; [apply scaled_height_of_zero in Hh; lia|].
    assert (Hpos : 0 < H * w) by (apply Z.mul_pos_pos; lia).
    pose proof (Z.div_mod (H * w) W ltac:(lia)) as Hdm. rewrite Hz in Hdm.
    assert (0 < H * w / W); [|lia].
    destruct (Z_le_gt_dec (H * w / W) 0) as [Hq0 | ]; [|lia].
    assert (H * w / W = 0) by lia.
    rewrite H0 in Hdm. lia. }
  split; [lia|]. split.
  { intros Hpos.
    assert (Hlt : H * w < H * W) by (apply Z.mul_lt_mono_pos_l; lia).
    assert (H * w / W < H); [|lia].
    apply Z.div_lt_upper_bound; [lia|]. rewrite (Z.mul_comm W H). exact Hlt. }
  split.
  { intros Hsmall.
    assert (H * w / W = 0) by (apply Z.div_small; split; [apply Z.mul_nonneg_nonneg|]; lia).
    lia. }
  split.
  - intros pixels object_key output_bucket quality_int acc st.
    apply (process_width_resize E (Image W H pixels) object_key output_bucket quality_int
             acc w h st); [apply Hw | exact Hh].
  - intros pixels object_key output_bucket quality_int acc st.
    apply (process_width_resize E (Image W H pixels) object_key output_bucket quality_int
             acc w h st); [apply Hw | exact Hh].
Qed.

(** A banner of 1000 by 1 pixels at width 128: the height is 0, the size is
    rejected, and the record fails. *)
Lemma computed_height_can_be_zero_witness :
  scaled_height 1000 1 128 = Ok 0 /\
  process_width Demo.environment (Image 1000 1 []) (PStr "banner.png") (Some "out-bucket")
    85 (0, []) 128 Demo.start =
  (Raise (ValueError "height and width must be > 0"), State 1%nat [EvResize 128 0 false]).
Proof.
  destruct (computed_height_can_be_zero Demo.environment 1000 1 128)
    as (h & Hh & _ & _ & Hzero & _ & Hraise); [lia | lia | reflexivity | reflexivity |].
  specialize (Hzero ltac:(lia)). subst h.
  split; [exact Hh|].
  apply (Hraise [] (PStr "banner.png") (Some "out-bucket") 85 (0, []) Demo.start). reflexivity.
Defined.

(** ** The handler around process_image *)

Lemma sends_app (a b : list event) : sends (a ++ b) = sends a ++ sends b.
Proof. apply omap_app. Qed.

Lemma sends_not_send (evs : list event) : Forall not_send evs -> sends evs = [].
Proof.
  induction 1 as [|e evs He _ IH]; [reflexivity|].
  destruct e; try exact IH. destruct He.
Qed.

Section HandlerRuns.

Context {World : Type} (E : env World) (cfg : config).

Lemma process_image_not_send (input_bucket object_key : pyval)
    (output_bucket : option string) (sizes_str : string) (quality : pyval) :
  appends not_send
    (process_image E input_bucket object_key output_bucket sizes_str quality).
Proof.
  unfold process_image.
  repeat first
    [ apply appends_bind; [|intros ?]
    | apply appends_try_except; [|intros ?]
    | apply appends_call; intros ?; exact I
    | apply appends_tell; exact I
    | apply appends_raise
    | apply appends_lift
    | apply appends_parse_sizes; intros; exact I
    | apply appends_for_loop; intros [? ?] ?; unfold process_width;
      destruct (_ <=? _)
    | match goal with |- appends _ (let '(_, _) := ?x in _) => destruct x end
    | apply (appends_ret not_send) ].
Qed.

Lemma process_record_not_send (bucket key : pyval) :
  appends not_send (process_record E cfg bucket key).
Proof.
  unfold process_record, put_metric.
  repeat first
    [ apply process_image_not_send
    | apply appends_bind; [|intros ?]
    | apply appends_call; intros ?; exact I
    | apply appends_tell; exact I ].
Qed.

(** One record: an [Ok] step sends nothing to the queue, a raising step
    sends at most one message, and none without a configured queue. *)
Lemma handle_record_sends (record : pyval) (st st' : state World) (r : result unit) :
  handle_record E cfg record st = (r, st') ->
  exists new,
    events st' = events st ++ new /\
    (is_ok r = true -> sends new = []) /\
    (is_configured (DLQ_URL cfg) = false -> sends new = []) /\
    (length (sends new) <= 1)%nat.
Proof.
  unfold handle_record. unfold mbind at 1. unfold M_bind, bind, lift.
  destruct (bucket_and_key record) as [[bucket key]|e].
  2:{ intros H. injection H as <- <-. exists []. cbn. rewrite app_nil_r. auto. }
  destruct (negb (truthy bucket) || negb (truthy key)).
  { intros H. injection H as <- <-. exists [malformed_log record]. cbn. auto. }
  unfold mbind at 1. unfold M_bind, bind, tell at 1. unfold try_except.
  destruct (process_record_not_send bucket key
              (State (world st) (events st ++ [start_log bucket key])))
    as (new1 & Hev1 & Hns1).
  unfold start_log in *.
  destruct (process_record E cfg bucket key _) as [[[]|exc] st1]; cbn [fst snd events] in *.
  - intros H. injection H as <- <-.
    exists (start_log bucket key :: new1). unfold start_log.
    rewrite Hev1, <- app_assoc. split; [reflexivity|].
    assert (Hs : sends (EvLogJson INFO (PDict [("action", PStr "start"); ("bucket", bucket);
                                         ("key", key)]) :: new1) = [])
      by (apply sends_not_send; constructor; [exact I | assumption]).
    rewrite Hs. cbn. auto.
  - unfold any_exception. rewrite on_failure_run. intros H. injection H as <- <-.
    cbn [is_ok].
    destruct (is_configured (DLQ_URL cfg)) eqn:Hcfg.
    + cbv zeta.
      destruct (sqs_send_message E _ _ (world st1)) as [[[]|dlq_exc] w'].
      all: eexists. all: cbn [events]; rewrite Hev1, <- !app_assoc; (split; [reflexivity|]).
      all: rewrite !sends_app, (sends_not_send new1 Hns1).
      all: split; [discriminate|]; split; [discriminate|]; cbn; lia.
    + eexists. cbn [events]. rewrite Hev1, <- !app_assoc. split; [reflexivity|].
      rewrite !sends_app, (sends_not_send new1 Hns1). cbn. auto.
Qed.

Lemma records_loop_sends (records : list pyval) :
  forall (st st' : state World) (r : result unit),
    records_loop E cfg records st = (r, st') ->
    exists new,
      events st' = events st ++ new /\
      (is_ok r = true -> sends new = []) /\
      (is_configured (DLQ_URL cfg) = false -> sends new = []) /\
      (length (sends new) <= 1)%nat.
Proof.
  unfold records_loop.
  induction records as [|record records IH]; intros st st' r; cbn [for_loop].
  - unfold ret. intros H. injection H as <- <-. exists []. cbn. rewrite app_nil_r. auto.
  - unfold bind.
    destruct (handle_record E cfg record st) as [[[]|exc] st1] eqn:Hstep;
      apply handle_record_sends in Hstep as (new1 & Hev1 & Hok1 & Hoff1 & Hle1);
      cbn [is_ok] in *.
    + intros Hrest. apply IH in Hrest as (new2 & Hev2 & Hok2 & Hoff2 & Hle2).
      exists (new1 ++ new2). rewrite Hev2, Hev1, <- app_assoc. split; [reflexivity|].
      rewrite sends_app, (Hok1 eq_refl). cbn [app]. auto.
    + intros H. injection H as <- <-.
      exists new1. split; [assumption|]. split; [discriminate|]. auto.
Qed.

End HandlerRuns.

(** X9. The dead-letter queue receives at most one message per invocation
    of [lambda_handler], none when the invocation returns, and none at all
    when no queue is configured. *)
Theorem at_most_one_dead_letter_per_invocation {World : Type} (E : env World) (cfg : config)
    (event : pyval) (function_name : string) (st st' : state World) (r : result pyval) :
  lambda_handler E cfg event function_name st = (r, st') ->
  exists new,
    events st' = events st ++ new /\
    (length (sends new) <= 1)%nat /\
    (is_ok r = true -> sends new = []) /\
    (is_configured (DLQ_URL cfg) = false -> sends new = []).
Proof.
  unfold lambda_handler. unfold_M. cbn [events world].
  destruct (py_get event "Records" (PList [])) as [records|e].
  2:{ intros H. injection H as <- <-. eexists. cbn [events]. rewrite <- app_assoc.
      split; [reflexivity|]. cbn. auto. }
  destruct (py_iter records) as [items|e].
  2:{ intros H. injection H as <- <-. eexists. cbn [events]. rewrite <- app_assoc.
      split; [reflexivity|]. cbn. auto. }
  match goal with |- context [for_loop items ?f tt ?s] =>
    destruct (for_loop items f tt s) as [[[]|exc] st1] eqn:Hloop
  end;
    apply (records_loop_sends E cfg items) in Hloop as (new & Hev & Hok & Hoff & Hle);
    cbn [events is_ok] in *; intros H; injection H as <- <-.
  - eexists. rewrite Hev, <- !app_assoc. split; [reflexivity|].
    rewrite sends_app. cbn [sends omap app]. auto.
  - eexists. rewrite Hev, <- !app_assoc. split; [reflexivity|].
    rewrite sends_app. cbn [sends omap app]. split; [assumption|]. split; [discriminate|].
    assumption.
Qed.

(** Two failing records in one batch: the second is never reached and the
    queue gets one message. *)
Lemma at_most_one_dead_letter_per_invocation_witness :
  let run := lambda_handler Demo.environment Demo.cfg
               (Demo.s3_event [Demo.s3_record "in-bucket" "uploads/readme.txt";
                               Demo.s3_record "in-bucket" "missing"])
               "test-function" Demo.start in
  exists new,
    events (snd run) = events Demo.start ++ new /\
    (length (sends new) <= 1)%nat /\
    (is_ok (fst run) = true -> sends new = []) /\
    (is_configured (DLQ_URL Demo.cfg) = false -> sends new = []).
Proof.
  intros run.
  apply (at_most_one_dead_letter_per_invocation Demo.environment Demo.cfg
           (Demo.s3_event [Demo.s3_record "in-bucket" "uploads/readme.txt";
                           Demo.s3_record "in-bucket" "missing"])
           "test-function" Demo.start (snd run) (fst run)).
  vm_compute. reflexivity.
Defined.

(** X10. The shape of the event decides what happens before any record is
    looked at: an event without a ["Records"] entry, or with an empty list,
    is a successful invocation that does nothing; an event that is not an
    object has no [get], a ["Records"] entry that cannot be iterated
    (null, a number, a boolean) raises a [TypeError], and one whose first
    item is a string (a text is iterated by characters, an object by keys)
    raises on that item, which has no [get]. *)
Theorem event_without_records_is_a_no_op {World : Type} (E : env World) (cfg : config)
    (function_name : string) (st : state World) :
  let ready := State (world st) (events st ++ setup_events function_name) in
  (forall d : list (string * pyval),
      assoc "Records" d = None \/ assoc "Records" d = Some (PList []) ->
      lambda_handler E cfg (PDict d) function_name st
      = (Ok (PDict [("statusCode", PInt 200)]), ready)) /\
  (forall event : pyval,
      (forall d, event <> PDict d) ->
      lambda_handler E cfg event function_name st
      = (Raise (AttributeError ("'" +:+ type_name event +:+ "' object has no attribute 'get'")),
         ready)) /\
  (forall (d : list (string * pyval)) (records : pyval),
      assoc "Records" d = Some records ->
      (forall l, records <> PList l) -> (forall m, records <> PDict m) ->
      (forall s, records <> PStr s) ->
      lambda_handler E cfg (PDict d) function_name st
      = (Raise (TypeError ("'" +:+ type_name records +:+ "' object is not iterable")), ready)) /\
  (forall (d : list (string * pyval)) (records : pyval) (first : string) (rest : list pyval),
      assoc "Records" d = Some records ->
      py_iter records = Ok (PStr first :: rest) ->
      lambda_handler E cfg (PDict d) function_name st
      = (Raise (AttributeError "'str' object has no attribute 'get'"), ready)).
Proof.
  cbv zeta. unfold setup_events. split; [|split; [|split]].
  - intros d Hd. unfold lambda_handler. unfold_M. cbn [events world py_get].
    destruct Hd as [-> | ->]; cbn; rewrite <- app_assoc; reflexivity.
  - intros event Hnd. unfold lambda_handler. unfold_M. cbn [events world].
    destruct event; try (cbn; rewrite <- app_assoc; reflexivity).
    now elim (Hnd d).
  - intros d records Hd Hl Hm Hs. unfold lambda_handler. unfold_M. cbn [events world py_get].
    rewrite Hd.
    destruct records; try (cbn; rewrite <- app_assoc; reflexivity).
    + now elim (Hs s).
    + now elim (Hl l).
    + now elim (Hm d0).
  - intros d records first rest Hd Hiter. unfold lambda_handler. unfold_M.
    cbn [events world py_get]. rewrite Hd, Hiter. cbn. rewrite <- app_assoc. reflexivity.
Qed.

Lemma event_without_records_is_a_no_op_witness :
  lambda_handler Demo.environment Demo.cfg (PDict [("source", PStr "aws.events")])
    "test-function" Demo.start
  = (Ok (PDict [("statusCode", PInt 200)]), State 0%nat (setup_events "test-function")) /\
  fst (lambda_handler Demo.environment Demo.cfg (PDict [("Records", PNone)])
         "test-function" Demo.start)
  = Raise (TypeError "'NoneType' object is not iterable") /\
  fst (lambda_handler Demo.environment Demo.cfg (PDict [("Records", PStr "s3")])
         "test-function" Demo.start)
  = Raise (AttributeError "'str' object has no attribute 'get'").
Proof.
  pose proof (event_without_records_is_a_no_op Demo.environment Demo.cfg "test-function"
                Demo.start) as (Hnone & _ & Hbad & Hstr).
  split; [|split].
  - apply (Hnone [("source", PStr "aws.events")]). left. reflexivity.
  - rewrite (Hbad [("Records", PNone)] PNone eq_refl); [reflexivity| | |]; discriminate.
  - rewrite (Hstr [("Records", PStr "s3")] (PStr "s3") "s" [PStr "3"] eq_refl eq_refl).
    reflexivity.
Defined.

(** X11. A record with a bucket and a key whose object is processed: when
    [process_image] returns and the metrics logger accepts the values, the
    step returns after publishing exactly four metrics (the number of
    produced widths, the duration, the input and the output bytes of the
    result) and logging the completion with the produced widths; nothing is
    sent to the queue. *)
Theorem processed_record_publishes_four_metrics {World : Type} (E : env World) (cfg : config)
    (record bucket key : pyval) (res : processing_result) (st st1 : state World) :
  bucket_and_key record = Ok (bucket, key) ->
  truthy bucket = true -> truthy key = true ->
  (forall name value unit_name w,
      exists w', metrics_put_metric E name value unit_name w = (Ok tt, w')) ->
  process_image E bucket key (OUTPUT_BUCKET cfg) (THUMB_SIZES cfg) (PStr (WEBP_QUALITY cfg))
    (State (world st) (events st ++ [start_log bucket key])) = (Ok res, st1) ->
  exists w2 : World,
    handle_record E cfg record st =
    (Ok tt, State w2 (events st1 ++ completion_events bucket key res)).
Proof.
  intros Hbk Hb Hk Hmetrics Hrun. unfold handle_record.
  unfold mbind at 1. unfold M_bind, bind, lift. rewrite Hbk, Hb, Hk. cbn [negb orb].
  unfold mbind at 1. unfold M_bind, bind, tell at 1. unfold try_except, process_record.
  unfold mbind at 1. unfold M_bind, bind. unfold start_log in Hrun. rewrite Hrun.
  unfold put_metric, completion_events. unfold_M.
  destruct (Hmetrics "thumbnails_count" (len (sizes res)) "Count" (world st1)) as [wa ->].
  cbn [events world is_ok].
  destruct (Hmetrics "duration_ms" (duration_ms res) "Milliseconds" wa) as [wb ->].
  cbn [events world is_ok].
  destruct (Hmetrics "size_in_bytes" (input_size res) "Bytes" wb) as [wc ->].
  cbn [events world is_ok].
  destruct (Hmetrics "size_out_bytes" (output_size res) "Bytes" wc) as [wd ->].
  cbn [events world is_ok].
  exists wd. rewrite <- !app_assoc. reflexivity.
Qed.

Lemma processed_record_publishes_four_metrics_witness :
  exists w2 : nat,
    handle_record Demo.environment Demo.cfg (Demo.s3_record "in-bucket" "uploads/sample.jpg")
      Demo.start =
    (Ok tt,
     State w2
       (events (snd (process_image Demo.environment (PStr "in-bucket")
                       (PStr "uploads/sample.jpg") (Some "out-bucket") "128,512" (PStr "85")
                       (State 0%nat [start_log (PStr "in-bucket") (PStr "uploads/sample.jpg")])))
        ++ completion_events (PStr "in-bucket") (PStr "uploads/sample.jpg")
             {| sizes := [128; 512]; input_size := 4; output_size := 640;
                duration_ms := 9000 |})).
Proof.
  apply (processed_record_publishes_four_metrics Demo.environment Demo.cfg
           (Demo.s3_record "in-bucket" "uploads/sample.jpg")
           (PStr "in-bucket") (PStr "uploads/sample.jpg")).
  - reflexivity.
  - reflexivity.
  - reflexivity.
  - intros name value unit_name w. exists (S w). reflexivity.
  - vm_compute. reflexivity.
Defined.

(** ** A failure after the uploads *)

Section MetricFailure.

Context {World : Type} (E : env World) (cfg : config).

(** The metric calls of a record whose image was processed, when one of
    them raises: nothing but metric events is added. *)
Lemma process_record_metric_failure (bucket key : pyval) (res : processing_result)
    (exc : exn) (st st1 st2 : state World) :
  process_image E bucket key (OUTPUT_BUCKET cfg) (THUMB_SIZES cfg) (PStr (WEBP_QUALITY cfg)) st
  = (Ok res, st1) ->
  process_record E cfg bucket key st = (Raise exc, st2) ->
  exists new,
    events st2 = events st1 ++ new /\ uploads new = [] /\ sends new = [] /\
    exists name value unit_name, last new = Some (EvPutMetric name value unit_name false).
Proof.
  intros Himg. unfold process_record. unfold mbind at 1. unfold M_bind, bind. rewrite Himg.
  unfold put_metric. unfold_M.
  destruct (metrics_put_metric E "thumbnails_count" _ "Count" (world st1)) as [[[]|e1] wa];
    cbn [events world is_ok].
  2:{ intros H. injection H as <- <-. eexists. split; [reflexivity|]. cbn. eauto 6. }
  destruct (metrics_put_metric E "duration_ms" _ "Milliseconds" wa) as [[[]|e2] wb];
    cbn [events world is_ok].
  2:{ intros H. injection H as <- <-. eexists. rewrite <- app_assoc.
      split; [reflexivity|]. cbn. eauto 6. }
  destruct (metrics_put_metric E "size_in_bytes" _ "Bytes" wb) as [[[]|e3] wc];
    cbn [events world is_ok].
  2:{ intros H. injection H as <- <-. eexists. rewrite <- !app_assoc.
      split; [reflexivity|]. cbn. eauto 6. }
  destruct (metrics_put_metric E "size_out_bytes" _ "Bytes" wc) as [[[]|e4] wd];
    cbn [events world is_ok].
  2:{ intros H. injection H as <- <-. eexists. rewrite <- !app_assoc.
      split; [reflexivity|]. cbn. eauto 6. }
  discriminate.
Qed.

End MetricFailure.

(** X12. A record is failed by a metric that cannot be published although
    its derivatives are all uploaded: when [process_image] returns and the
    [try] block still raises [exc], it is a [put_metric] call that raised;
    the loop step raises [exc]; the uploads of the step are one successful
    [put_object] per reported width, and none of them is taken back; and
    with a queue configured the one message sent names the bucket, the key
    and [str(exc)]. *)
Theorem metric_failure_fails_an_uploaded_record {World : Type} (E : env World) (cfg : config)
    (record bucket key : pyval) (res : processing_result) (exc : exn)
    (st st1 st2 : state World) :
  bucket_and_key record = Ok (bucket, key) ->
  truthy bucket = true -> truthy key = true ->
  process_image E bucket key (OUTPUT_BUCKET cfg) (THUMB_SIZES cfg) (PStr (WEBP_QUALITY cfg))
    (State (world st) (events st ++ [start_log bucket key])) = (Ok res, st1) ->
  process_record E cfg bucket key (State (world st) (events st ++ [start_log bucket key]))
  = (Raise exc, st2) ->
  exists (st3 : state World) (new : list event),
    handle_record E cfg record st = (Raise exc, st3) /\
    events st3 = events st ++ new /\
    (exists name value unit_name, EvPutMetric name value unit_name false ∈ new) /\
    uploads new = map uploaded (sizes res) /\
    (is_configured (DLQ_URL cfg) = false -> sends new = []) /\
    (forall url, DLQ_URL cfg = Some url -> is_empty url = false ->
       exists ok, sends new = [(url, failure_notice bucket key exc, ok)]).
Proof.
  intros Hbk Hb Hk Himg Hrec.
  pose proof (handle_record_failure E cfg record bucket key exc st st2 Hbk Hb Hk Hrec) as Hrun.
  rewrite on_failure_run in Hrun.
  destruct (process_record_metric_failure E cfg bucket key res exc _ st1 st2 Himg Hrec)
    as (new2 & Hev2 & Hup2 & Hs2 & name & value & unit_name & Hlast).
  pose proof (process_image_not_send E bucket key (OUTPUT_BUCKET cfg) (THUMB_SIZES cfg)
                (PStr (WEBP_QUALITY cfg))
                (State (world st) (events st ++ [start_log bucket key]))) as (new1' & Hev1' & Hns).
  rewrite Himg in Hev1'. cbn [snd events] in Hev1'.
  apply process_image_Ok in Himg
    as (t0 & t1 & w0 & w1 & w2 & w3 & body & img & datas & new1 &
        _ & _ & _ & _ & _ & _ & _ & _ & _ & Hev1 & Hup1).
  cbn [events] in Hev1.
  assert (new1' = new1) by (rewrite Hev1 in Hev1'; now apply app_inv_head in Hev1').
  subst new1'. apply sends_not_send in Hns.
  assert (Hin : EvPutMetric name value unit_name false ∈ new2).
  { apply last_Some in Hlast as [l' ->]. apply elem_of_app. right. left. }
  destruct (is_configured (DLQ_URL cfg)) eqn:Hcfg.
  - cbv zeta in Hrun.
    destruct (sqs_send_message E _ _ (world st2)) as [r w'] eqn:Hsend.
    eexists. eexists. split; [exact Hrun|]. cbn [events].
    rewrite Hev2, Hev1, <- !app_assoc. split; [reflexivity|].
    split.
    { exists name, value, unit_name. rewrite !elem_of_app. right. right. now left. }
    split.
    { rewrite !uploads_app, Hup1, Hup2. destruct r; cbn; now rewrite app_nil_r. }
    split; [discriminate|].
    intros url Hurl Hne. exists (is_ok r).
    rewrite !sends_app, Hns, Hs2. rewrite Hurl. destruct r; reflexivity.
  - eexists. eexists. split; [exact Hrun|]. cbn [events].
    rewrite Hev2, Hev1, <- !app_assoc. split; [reflexivity|].
    split.
    { exists name, value, unit_name. rewrite !elem_of_app. right. right. now left. }
    split.
    { rewrite !uploads_app, Hup1, Hup2. cbn. now rewrite app_nil_r. }
    split.
    { intros _. rewrite !sends_app, Hns, Hs2. reflexivity. }
    intros url Hurl Hne. unfold is_configured in Hcfg. rewrite Hurl, Hne in Hcfg. discriminate.
Qed.

(** The duration is rejected after both derivatives are uploaded. *)
Lemma metric_failure_fails_an_uploaded_record_witness :
  exists (st3 : state nat) (new : list event),
    handle_record environment_with_rejecting_metrics Demo.cfg
      (Demo.s3_record "in-bucket" "uploads/sample.jpg") Demo.start
    = (Raise (Exn "InvalidMetricError" "metric rejected"), st3) /\
    events st3 = events Demo.start ++ new /\
    (exists name value unit_name, EvPutMetric name value unit_name false ∈ new) /\
    uploads new = map uploaded [128; 512].
Proof.
  destruct (metric_failure_fails_an_uploaded_record environment_with_rejecting_metrics Demo.cfg
              (Demo.s3_record "in-bucket" "uploads/sample.jpg")
              (PStr "in-bucket") (PStr "uploads/sample.jpg")
              {| sizes := [128; 512]; input_size := 4; output_size := 640; duration_ms := 9000 |}
              (Exn "InvalidMetricError" "metric rejected") Demo.start
              (snd (process_image environment_with_rejecting_metrics (PStr "in-bucket")
                      (PStr "uploads/sample.jpg") (Some "out-bucket") "128,512" (PStr "85")
                      (State 0%nat [start_log (PStr "in-bucket") (PStr "uploads/sample.jpg")])))
              (snd (process_record environment_with_rejecting_metrics Demo.cfg (PStr "in-bucket")
                      (PStr "uploads/sample.jpg")
                      (State 0%nat [start_log (PStr "in-bucket") (PStr "uploads/sample.jpg")]))))
    as (st3 & new & Hrun & Hev & Hmetric & Hup & _).
  - reflexivity.
  - reflexivity.
  - reflexivity.
  - vm_compute. reflexivity.
  - vm_compute. reflexivity.
  - exists st3, new. exact (conj Hrun (conj Hev (conj Hmetric Hup))).
Defined.

(** ** The duration *)

Lemma shr_1_m_nonneg (mrs : shr_record) : 0 <= shr_m mrs -> 0 <= shr_m (shr_1 mrs).
Proof.
  destruct mrs as [m r s]. cbn [shr_m]. intros Hm. rewrite shr_1_nonneg by assumption.
  cbn [shr_m]. apply Z.div_pos; lia.
Qed.

Lemma iter_shr_1_nonneg (p : positive) :
  forall mrs : shr_record, 0 <= shr_m mrs -> 0 <= shr_m (SpecFloat.iter_pos shr_1 p mrs).
Proof.
  induction p as [p IH|p IH|]; intros mrs Hm; cbn [SpecFloat.iter_pos].
  - apply IH, IH, shr_1_m_nonneg, Hm.
  - apply IH, IH, Hm.
  - apply shr_1_m_nonneg, Hm.
Qed.

Lemma shr_fexp_nonneg (m e : Z) (l : location) :
  0 <= m -> 0 <= shr_m (fst (shr_fexp 53 1024 m e l)).
Proof.
  intros Hm. unfold shr_fexp, shr.
  destruct (fexp 53 1024 (Zdigits2 m + e) - e) as [|p|p]; cbn [fst];
    try (rewrite shr_m_of_loc; exact Hm).
  apply iter_shr_1_nonneg. rewrite shr_m_of_loc. exact Hm.
Qed.

Lemma round_nearest_even_nonneg (m : Z) (l : location) :
  0 <= m -> 0 <= round_nearest_even m l.
Proof.
  intros Hm. unfold round_nearest_even. destruct l as [|[]]; try destruct (Z.even m); lia.
Qed.

(** Rounding keeps the sign it is given. *)
Lemma binary_round_aux_sign (sx : bool) (mx ex : Z) (lx : location) :
  0 <= mx ->
  match binary_round_aux 53 1024 sx mx ex lx with
  | S754_nan => False
  | S754_zero s | S754_infinity s | S754_finite s _ _ => s = sx
  end.
Proof.
  intros Hm. unfold binary_round_aux.
  pose proof (shr_fexp_nonneg mx ex lx Hm) as H1.
  destruct (shr_fexp 53 1024 mx ex lx) as [mrs1 e1]. cbn [fst] in H1.
  pose proof (shr_fexp_nonneg _ e1 loc_Exact
                (round_nearest_even_nonneg _ (loc_of_shr_record mrs1) H1)) as H2.
  destruct (shr_fexp 53 1024 _ e1 loc_Exact) as [mrs2 e2]. cbn [fst] in H2.
  destruct (shr_m mrs2) as [|p|p]; [reflexivity| |lia].
  destruct (e2 <=? 1024 - 53); reflexivity.
Qed.

Lemma binary_normalize_nonneg (m e : Z) :
  0 <= m -> nonneg_float (binary_normalize 53 1024 m e false).
Proof.
  intros Hm. destruct m as [|p|p]; [exact I| |lia].
  unfold binary_normalize, binary_round.
  destruct (shl_align p e _) as [mz ez].
  pose proof (binary_round_aux_sign false (Zpos mz) ez loc_Exact ltac:(lia)) as Hs.
  unfold nonneg_float. destruct (binary_round_aux 53 1024 false (Zpos mz) ez loc_Exact); auto.
Qed.

Lemma float_mul_nonneg (x : spec_float) (m : positive) (e : Z) :
  nonneg_float x -> nonneg_float (float_mul x (S754_finite false m e)).
Proof.
  unfold float_mul, SFmul, nonneg_float.
  destruct x as [s|s| |s mx ex]; try (intros H; exact H); try (intros ->; reflexivity).
  intros ->. cbn [xorb].
  pose proof (binary_round_aux_sign false (Zpos (mx * m)) (ex + e) loc_Exact ltac:(lia)) as Hs.
  destruct (binary_round_aux 53 1024 false (Zpos (mx * m)) (ex + e) loc_Exact); auto.
Qed.

Lemma int_of_float_nonneg (x : spec_float) :
  nonneg_float x ->
  (exists d, int_of_float x = Ok d /\ 0 <= d) \/
  (x = S754_infinity false /\
   int_of_float x = Raise (OverflowError "cannot convert float infinity to integer")).
Proof.
  destruct x as [s|s| |s m e]; cbn [nonneg_float int_of_float].
  - intros _. left. exists 0. split; [reflexivity | lia].
  - intros ->. right. split; reflexivity.
  - intros [].
  - intros ->. left. eexists. split; [reflexivity|].
    destruct e as [|p|p].
    + rewrite Z.shiftl_0_r. lia.
    + apply Z.shiftl_nonneg. lia.
    + apply Z.shiftr_nonneg. lia.
Qed.

Lemma shl_align_value (m : positive) (e ez : Z) :
  ez <= e -> Zpos (fst (shl_align m e ez)) = Zpos m * 2 ^ (e - ez).
Proof.
  intros Hle. unfold shl_align.
  destruct (ez - e) as [|p|p] eqn:Hd; cbn [fst].
  - replace (e - ez) with 0 by lia. lia.
  - lia.
  - rewrite iter_xO. do 2 f_equal. lia.
Qed.

(** A valid double has at most 53 digits, and exactly 53 above the
    smallest exponent. *)
Lemma bounded_mantissa (m : positive) (e : Z) :
  bounded 53 1024 m e = true ->
  Zpos m < 2 ^ 53 /\ -1074 <= e /\ (-1074 < e -> 2 ^ 52 <= Zpos m).
Proof.
  unfold bounded, canonical_mantissa, fexp, emin. intros H.
  apply andb_true_iff in H as [H _]. apply Z.eqb_eq in H.
  pose proof (digits2_pos_bounds m) as [Hlo Hhi].
  set (d := Zpos (digits2_pos m)) in *.
  assert (Hd : d <= 53) by lia.
  split; [|split].
  - assert (2 ^ d <= 2 ^ 53) by (apply Z.pow_le_mono_r; lia). lia.
  - lia.
  - intros He. assert (d = 53) by lia. subst d. rewrite H0 in Hlo. exact Hlo.
Qed.

(** The order of two valid positive doubles, on mantissas aligned to the
    smaller exponent. *)
Lemma aligned_le (m1 m2 : positive) (e1 e2 : Z) :
  bounded 53 1024 m1 e1 = true -> bounded 53 1024 m2 e2 = true ->
  e1 < e2 \/ (e1 = e2 /\ Zpos m1 <= Zpos m2) ->
  Zpos (fst (shl_align m1 e1 (Z.min e1 e2))) <= Zpos (fst (shl_align m2 e2 (Z.min e1 e2))).
Proof.
  intros H1 H2 Hord.
  rewrite !shl_align_value by lia.
  apply bounded_mantissa in H1 as (Hm1 & He1 & _).
  apply bounded_mantissa in H2 as (_ & _ & Hm2).
  destruct Hord as [Hlt | [-> Hle]].
  - rewrite Z.min_l by lia. replace (e1 - e1) with 0 by lia. rewrite Z.mul_1_r.
    specialize (Hm2 ltac:(lia)).
    assert (Hpow : 2 ^ 1 <= 2 ^ (e2 - e1)) by (apply Z.pow_le_mono_r; lia).
    change (2 ^ 1) with 2 in Hpow. change (2 ^ 53) with (2 ^ 52 * 2) in Hm1.
    assert (2 ^ 52 * 2 <= Zpos m2 * 2 ^ (e2 - e1)) by (apply Z.mul_le_mono_nonneg; lia).
    lia.
  - rewrite Z.min_id. replace (e2 - e2) with 0 by lia. lia.
Qed.

Lemma compare_cont_le (m1 m2 : positive) :
  Pos.compare_cont Eq m1 m2 <> Gt -> Zpos m1 <= Zpos m2.
Proof.
  intros H. change (Pos.compare_cont Eq m1 m2) with (Pos.compare m1 m2) in H.
  apply Pos.compare_le_iff in H. exact H.
Qed.

(** The difference of two valid doubles in ascending order. *)
Lemma float_sub_nonneg (start stop : spec_float) :
  valid_binary 53 1024 start = true -> valid_binary 53 1024 stop = true ->
  SFleb start stop = true ->
  float_sub stop start = S754_nan \/ nonneg_float (float_sub stop start).
Proof.
  intros Hv1 Hv2 Hle. unfold SFleb in Hle. unfold float_sub, SFsub.
  destruct stop as [sx|sx| |sx mx ex], start as [sy|sy| |sy my ey];
    cbn [SFcompare] in Hle; try discriminate Hle;
    try (right; exact I); try (now left).
  1-8: try destruct sx; try destruct sy; try discriminate Hle;
    first [now left | right; exact I | right; reflexivity].
  - (* finite - finite *)
    right. cbn [valid_binary] in Hv1, Hv2. apply binary_normalize_nonneg.
    rewrite (Z.min_comm ex ey).
    destruct sy, sx; cbn [cond_Zopp]; try discriminate Hle.
    + (* both negative *)
      assert (Hord : ex < ey \/ (ex = ey /\ Zpos mx <= Zpos my)).
      { destruct (Z.compare_spec ey ex) as [Heq|Hlt|Hgt]; try discriminate Hle.
        - right. split; [auto|]. apply compare_cont_le. intros Hc.
          assert (Hc' : Pos.compare_cont Eq my mx = Lt).
          { change Eq with (CompOpp Eq) at 1.
            rewrite <- (Pos.compare_cont_antisym mx my Eq), Hc. reflexivity. }
          rewrite Hc' in Hle. discriminate.
        - left. lia. }
      pose proof (aligned_le mx my ex ey Hv2 Hv1 Hord) as Hal.
      rewrite (Z.min_comm ex ey) in Hal. lia.
    + (* the start negative, the stop positive *) lia.
    + (* both positive *)
      assert (Hord : ey < ex \/ (ey = ex /\ Zpos my <= Zpos mx)).
      { destruct (Z.compare_spec ey ex) as [Heq|Hlt|Hgt]; try discriminate Hle.
        - right. split; [auto|]. apply compare_cont_le. intros Hc. rewrite Hc in Hle. discriminate.
        - left. lia. }
      pose proof (aligned_le my mx ey ex Hv1 Hv2 Hord) as Hal. lia.
Qed.

(** X13. The duration is never negative when the clock does not run
    backwards: for two valid doubles [start <= stop], whatever
    [int((stop - start) * 1000)] returns is at least 0; and when both
    readings are finite it returns such a number, or raises the
    [OverflowError] of an infinite product, and nothing else. *)
Theorem duration_is_never_negative (start stop : spec_float) :
  valid_binary 53 1024 start = true -> valid_binary 53 1024 stop = true ->
  SFleb start stop = true ->
  (forall d, elapsed_ms start stop = Ok d -> 0 <= d) /\
  (is_finite_float start = true -> is_finite_float stop = true ->
   (exists d, elapsed_ms start stop = Ok d /\ 0 <= d) \/
   elapsed_ms start stop = Raise (OverflowError "cannot convert float infinity to integer")).
Proof.
  intros Hv1 Hv2 Hle. unfold elapsed_ms.
  change (binary_normalize 53 1024 1000 0 false)
    with (S754_finite false 8796093022208000 (-43)).
  destruct (float_sub_nonneg start stop Hv1 Hv2 Hle) as [Hnan | Hnn].
  - split.
    + rewrite Hnan. discriminate.
    + intros Hf1 Hf2. exfalso. revert Hnan. unfold float_sub, SFsub.
      destruct stop as [sx|sx| |sx mx ex], start as [sy|sy| |sy my ey];
        try discriminate Hf1; try discriminate Hf2;
        try (destruct sx, sy; discriminate); try discriminate.
      intros Hnan.
      pose proof (binary_normalize_nonneg
                    (cond_Zopp sx (Zpos (fst (shl_align mx ex (Z.min ex ey)))) -
                     cond_Zopp sy (Zpos (fst (shl_align my ey (Z.min ex ey)))))
                    (Z.min ex ey)) as Hb.
      destruct (Z_le_gt_dec 0 (cond_Zopp sx (Zpos (fst (shl_align mx ex (Z.min ex ey)))) -
                               cond_Zopp sy (Zpos (fst (shl_align my ey (Z.min ex ey))))))
        as [Hpos | Hneg].
      * specialize (Hb Hpos). rewrite Hnan in Hb. exact Hb.
      * revert Hnan. unfold binary_normalize.
        destruct (cond_Zopp sx _ - cond_Zopp sy _) as [|p|p]; [lia|lia|].
        unfold binary_round. destruct (shl_align p _ _) as [mz ez].
        pose proof (binary_round_aux_sign true (Zpos mz) ez loc_Exact ltac:(lia)) as Hs.
        intros Hnan. rewrite Hnan in Hs. exact Hs.
  - pose proof (float_mul_nonneg _ 8796093022208000 (-43) Hnn) as Hprod.
    destruct (int_of_float_nonneg _ Hprod) as [(d & Hd & Hpos) | [_ Hinf]].
    + rewrite Hd. split; [intros d' [= <-]; exact Hpos|]. intros _ _. left. eauto.
    + rewrite Hinf. split; [discriminate|]. intros _ _. now right.
Qed.

(** A clock that reads 2.0 and then 3.5. *)
Lemma duration_is_never_negative_witness :
  (forall d, elapsed_ms (S754_finite false 4503599627370496 (-51))
                        (S754_finite false 7881299347898368 (-51)) = Ok d -> 0 <= d) /\
  elapsed_ms (S754_finite false 4503599627370496 (-51))
             (S754_finite false 7881299347898368 (-51)) = Ok 1500.
Proof.
  split; [|vm_compute; reflexivity].
  apply (duration_is_never_negative (S754_finite false 4503599627370496 (-51))
           (S754_finite false 7881299347898368 (-51))); reflexivity.
Defined.

(** ** The configuration *)

(** X14. A default applies only when the variable is absent. Without
    [THUMB_SIZES] the widths are 128 and 512, but an empty [THUMB_SIZES]
    gives no width at all, so nothing is ever produced; without
    [WEBP_QUALITY], or with an empty or non-numeric one, the quality is 85;
    a missing or empty [DLQ_URL] means no queue; and a missing
    [OUTPUT_BUCKET] is passed on as [None]. *)
Theorem empty_variable_is_not_the_default (environ : gmap string string) (lim : nat) :
  lim = 0%nat \/ (640 <= lim)%nat ->
  let cfg := config_of_environ environ in
  (environ !! "THUMB_SIZES" = None ->
   forall tr, parse_sizes lim (THUMB_SIZES cfg) tr = (Ok [128; 512], tr)) /\
  (environ !! "THUMB_SIZES" = Some "" ->
   forall tr, parse_sizes lim (THUMB_SIZES cfg) tr = (Ok [], tr)) /\
  (environ !! "WEBP_QUALITY" = None \/ environ !! "WEBP_QUALITY" = Some "" ->
   coerce_quality lim (PStr (WEBP_QUALITY cfg)) = 85) /\
  (forall text, environ !! "WEBP_QUALITY" = Some text ->
                is_ok (py_int_str lim text) = false ->
                coerce_quality lim (PStr (WEBP_QUALITY cfg)) = 85) /\
  (environ !! "DLQ_URL" = None \/ environ !! "DLQ_URL" = Some "" ->
   is_configured (DLQ_URL cfg) = false) /\
  (environ !! "OUTPUT_BUCKET" = None -> OUTPUT_BUCKET cfg = None).
Proof.
  intros Hlim cfg. unfold cfg, config_of_environ. cbn [THUMB_SIZES WEBP_QUALITY DLQ_URL OUTPUT_BUCKET].
  assert (Hint : forall n, (count_digits (str_of_int n) <= 3)%nat -> within_digit_limit lim n).
  { intros n Hn. destruct Hlim as [-> | Hlim]; [now left | right; lia]. }
  split; [|split; [|split; [|split; [|split]]]].
  - intros ->. intros tr. cbn [default from_option id].
    change "128,512" with (join "," (map str_of_int [128; 512])).
    rewrite parse_sizes_of_printed_widths.
    + vm_compute. reflexivity.
    + repeat (apply Forall_cons_2; [apply Hint; vm_compute; lia|]). apply Forall_nil_2.
  - intros ->. intros tr. cbn [default from_option id]. rewrite parse_sizes_run.
    rewrite app_nil_r. reflexivity.
  - intros [-> | ->]; cbn [default from_option id].
    + unfold coerce_quality. cbn [py_int].
      change "85" with (str_of_int 85).
      rewrite (py_int_str_str_of_int lim 85); [reflexivity|]. apply Hint. vm_compute. lia.
    + reflexivity.
  - intros text -> Hbad. cbn [default from_option id]. unfold coerce_quality. cbn [py_int].
    destruct (py_int_str lim text); [discriminate | reflexivity].
  - intros [-> | ->]; reflexivity.
  - intros ->. reflexivity.
Qed.

Lemma empty_variable_is_not_the_default_witness :
  (forall tr, parse_sizes 4300 (THUMB_SIZES (config_of_environ {["OUTPUT_BUCKET" := "out-bucket"]}))
                tr = (Ok [128; 512], tr)) /\
  (forall tr, parse_sizes 4300
                (THUMB_SIZES (config_of_environ {["THUMB_SIZES" := ""]})) tr = (Ok [], tr)).
Proof.
  split.
  - apply (empty_variable_is_not_the_default {["OUTPUT_BUCKET" := "out-bucket"]} 4300);
      [right; apply Nat.leb_le; reflexivity | reflexivity].
  - apply (empty_variable_is_not_the_default {["THUMB_SIZES" := ""]} 4300);
      [right; apply Nat.leb_le; reflexivity | reflexivity].
Defined.

(** ** The byte counts of the result *)

Lemma total_len_nonneg (datas : list bytes) : 0 <= total_len datas.
Proof.
  induction datas as [|d datas IH]; [reflexivity|].
  cbn [total_len foldr]. fold (total_len datas). unfold len. lia.
Qed.

Lemma encoded_along_nil {World : Type} (E : env World) (img : image) (object_key : pyval)
    (output_bucket : option string) (quality_int : Z) (w w' : World) (datas : list bytes) :
  encoded_along E img object_key output_bucket quality_int w [] datas w' -> datas = [].
Proof. destruct datas; [reflexivity | intros []]. Qed.

(** X15. The byte counts that [process_image] reports, in the worlds that
    the run goes through from its first clock reading: [input_size] is the
    length of the body that [get_object] returned to this run, and
    [output_size] is the sum of the lengths of the encoder's answers of this
    run, one for each reported width in turn, where the encoder is handed the
    image that [resize] returned for that width from the image decoded from
    that body, and its answer is what is uploaded (the widths that were
    skipped add nothing); [output_size] is never negative and it is 0 when no
    width is reported. *)
Theorem reported_sizes_are_byte_counts {World : Type} (E : env World)
    (input_bucket object_key : pyval) (output_bucket : option string) (sizes_str : string)
    (quality : pyval) (st st' : state World) (res : processing_result) :
  process_image E input_bucket object_key output_bucket sizes_str quality st = (Ok res, st') ->
  exists (t0 : spec_float) (w0 : World) (body : bytes) (w1 : World) (img : image)
         (w2 : World) (datas : list bytes) (w3 : World),
    perf_counter E (world st) = (t0, w0) /\
    s3_get_object E input_bucket object_key w0 = (Ok body, w1) /\
    input_size res = len body /\
    image_open E body w1 = (Ok img, w2) /\
    encoded_along E img object_key output_bucket
      (coerce_quality (int_max_str_digits E) quality) w2 (sizes res) datas w3 /\
    output_size res = total_len datas /\
    0 <= output_size res /\
    (sizes res = [] -> output_size res = 0).
Proof.
  intros Hrun.
  apply process_image_Ok in Hrun
    as (t0 & t1 & w0 & w1 & w2 & w3 & body & img & datas & new &
        Hstart & Hget & Hopen & Hchain & _ & _ & Hin & Hout & _).
  exists t0, w0, body, w1, img, w2, datas, w3.
  split; [exact Hstart|]. split; [exact Hget|]. split; [exact Hin|]. split; [exact Hopen|].
  split; [exact Hchain|]. split; [exact Hout|].
  split; [rewrite Hout; apply total_len_nonneg|].
  intros Hnone. rewrite Hnone in Hchain. apply encoded_along_nil in Hchain.
  rewrite Hout, Hchain. reflexivity.
Qed.

(** Sizes "128,512" against the 1024-wide image of the bucket: 128 and 512
    bytes are encoded. *)
Lemma reported_sizes_are_byte_counts_witness :
  exists (t0 : spec_float) (w0 : nat) (body : bytes) (w1 : nat) (img : image)
         (w2 : nat) (datas : list bytes) (w3 : nat),
    perf_counter Demo.environment 0%nat = (t0, w0) /\
    Demo.get_object (PStr "in-bucket") (PStr "uploads/sample.jpg") w0 = (Ok body, w1) /\
    4 = len body /\
    Demo.open body w1 = (Ok img, w2) /\
    encoded_along Demo.environment img (PStr "uploads/sample.jpg") (Some "out-bucket")
      (coerce_quality 4300 (PStr "85")) w2 [128; 512] datas w3 /\
    640 = total_len datas /\
    0 <= 640 /\
    ([128; 512] = [] -> 640 = 0).
Proof.
  apply (reported_sizes_are_byte_counts Demo.environment (PStr "in-bucket")
           (PStr "uploads/sample.jpg") (Some "out-bucket") "128,512" (PStr "85")
           Demo.start
           (snd (process_image Demo.environment (PStr "in-bucket") (PStr "uploads/sample.jpg")
                   (Some "out-bucket") "128,512" (PStr "85") Demo.start))
           {| sizes := [128; 512]; input_size := 4; output_size := 640; duration_ms := 9000 |}).
  vm_compute. reflexivity.
Defined.
